(** * The player-queues controller of Music Assistant

    A shallow embedding of [music_assistant/controllers/player_queues.py]
    (class [PlayerQueuesController]) and the properties of its queue
    algorithms: index resolution, the flow-mode stream translation, the
    item-list mutations (load, move, delete, clear, transfer, shuffle),
    the restore of a persisted queue, the radio track generation and the
    enqueueing of media.

    Conventions of the embedding.
    - Python [int] is [Z]; optional values ([int | None]) are [option].
      Durations and elapsed times, which the program only adds, subtracts
      and compares, are taken in whole seconds ([Z]).
    - A [QueueItem] is a mutable Python object: the controller holds
      references ([loc]) to items, and the objects themselves live in a
      store ([objects]), so that an in-place update such as
      [item.sort_index += n] is seen through every list holding the item.
    - A method is a function of [self : Controller]. Read-only methods
      return a [result]; methods with effects live in the monad [M], which
      threads the controller and lets a raised exception keep the effects
      made before it, as in Python.
    - Collaborators outside the controller (catalog, player registry,
      configuration, cache decoding) are parameters of the sections that
      use them. *)

From stdpp Require Import gmap strings list pretty.
From Stdlib Require Import ZArith Sorting.Sorted Sorting.Permutation.

Local Open Scope Z_scope.

(** ** Exceptions and results *)

Inductive exn : Type :=
  | KeyError (key : string)
  | IndexError (msg : string)
  | TypeError (msg : string)
  | ValueError (msg : string)
  | AttributeError (msg : string)
  | UnboundLocalError (name : string)
  | FileNotFoundError (msg : string)
  | ForeignError (msg : string)
  | MusicAssistantError (msg : string)
  | MediaNotFoundError (msg : string)
  | UnsupportedFeaturedException (msg : string)
  | PlayerUnavailableError (msg : string)
  | QueueEmpty (msg : string)
  | InvalidCommand (msg : string)
  | InvalidDataError (msg : string).

(** [except MusicAssistantError]: the base class and its subclasses. *)
Definition is_MusicAssistantError (e : exn) : bool :=
  match e with
  | MusicAssistantError _ | MediaNotFoundError _
  | UnsupportedFeaturedException _ | PlayerUnavailableError _
  | QueueEmpty _ | InvalidCommand _ | InvalidDataError _ => true
  | _ => false
  end.

Inductive result (A : Type) : Type :=
  | Ok (a : A)
  | Raise (e : exn).
Arguments Ok {A} a.
Arguments Raise {A} e.

Definition result_bind {A B} (r : result A) (k : A → result B) : result B :=
  match r with
  | Ok a => k a
  | Raise e => Raise e
  end.

(** ** Python values *)

Module Py.

Definition len {A} (l : list A) : Z := Z.of_nat (length l).

(** Truthiness of an optional integer: [None] and [0] are false. *)
Definition truthy (o : option Z) : bool :=
  match o with
  | Some x => negb (x =? 0)
  | None => false
  end.

(** [a or b] on optional integers. *)
Definition or_ (a b : option Z) : option Z :=
  if truthy a then a else b.

(** [a or d] where [d] is an integer. *)
Definition or_int (a : option Z) (d : Z) : Z :=
  match a with
  | Some x => if x =? 0 then d else x
  | None => d
  end.

(** [a <= b]: ordering comparisons are not defined on [None]. *)
Definition le (a b : option Z) : result bool :=
  match a, b with
  | Some x, Some y => Ok (x <=? y)
  | _, _ => Raise (TypeError "'<=' not supported between instances of 'NoneType' and 'int'")
  end.

(** A slice bound [i] on a list of length [n]: negative bounds count from
    the end, and the bound is clamped to [0..n]. *)
Definition bound (n i : Z) : nat :=
  Z.to_nat (Z.max 0 (Z.min n (if i <? 0 then i + n else i))).

(** [l[:i]] and [l[i:]] *)
Definition slice_to {A} (l : list A) (i : Z) : list A :=
  take (bound (len l) i) l.
Definition slice_from {A} (l : list A) (i : Z) : list A :=
  drop (bound (len l) i) l.

(** [l[i]] *)
Definition getitem {A} (l : list A) (i : Z) : result A :=
  let j := if i <? 0 then i + len l else i in
  if (j <? 0) || (len l <=? j) then Raise (IndexError "list index out of range")
  else match l !! Z.to_nat j with
       | Some x => Ok x
       | None => Raise (IndexError "list index out of range")
       end.

(** [l.pop(i)]: the element removed and the list left. *)
Definition pop {A} (l : list A) (i : Z) : result (A * list A) :=
  let j := if i <? 0 then i + len l else i in
  if (j <? 0) || (len l <=? j) then Raise (IndexError "pop index out of range")
  else match l !! Z.to_nat j with
       | Some x => Ok (x, take (Z.to_nat j) l ++ drop (S (Z.to_nat j)) l)
       | None => Raise (IndexError "pop index out of range")
       end.

(** [l.insert(i, x)]: the position is clamped like a slice bound. *)
Definition insert {A} (l : list A) (i : Z) (x : A) : list A :=
  take (bound (len l) i) l ++ x :: drop (bound (len l) i) l.

(** [enumerate(l)], counting from [start] *)
Fixpoint enumerate_from {A} (start : Z) (l : list A) : list (Z * A) :=
  match l with
  | [] => []
  | x :: l' => (start, x) :: enumerate_from (start + 1) l'
  end.
Definition enumerate {A} (l : list A) : list (Z * A) := enumerate_from 0 l.

End Py.

(** ** Enumerations of the models package *)

Inductive RepeatMode : Type := RepeatOFF | RepeatONE | RepeatALL.
Inductive PlayerState : Type := IDLE | PAUSED | PLAYING.
Inductive QueueOption : Type := PLAY | REPLACE | NEXT | REPLACE_NEXT | ADD.
Inductive MediaType : Type :=
  | ARTIST | ALBUM | TRACK | PLAYLIST | RADIO | AUDIOBOOK | PODCAST
  | PODCAST_EPISODE | FOLDER | UNKNOWN.
Inductive EventType : Type :=
  | QUEUE_ADDED | QUEUE_UPDATED | QUEUE_ITEMS_UPDATED | QUEUE_TIME_UPDATED
  | MEDIA_ITEM_PLAYED.

#[global] Instance RepeatMode_eq_dec : EqDecision RepeatMode.
Proof. solve_decision. Defined.
#[global] Instance PlayerState_eq_dec : EqDecision PlayerState.
Proof. solve_decision. Defined.
#[global] Instance QueueOption_eq_dec : EqDecision QueueOption.
Proof. solve_decision. Defined.
#[global] Instance MediaType_eq_dec : EqDecision MediaType.
Proof. solve_decision. Defined.
#[global] Instance EventType_eq_dec : EqDecision EventType.
Proof. solve_decision. Defined.

(** ** The data model *)

Module MediaItem.
Record t : Type := mk {
  media_type : MediaType;
  item_id : string;
  provider : string;
  uri : string;
  name : string;
  available : bool;
  duration : Z;
  resume_position_ms : option Z;
  album : option string;
  image : bool;
}.
Definition set_resume_position_ms (v : option Z) (m : t) : t :=
  mk (media_type m) (item_id m) (provider m) (uri m) (name m) (available m)
     (duration m) v (album m) (image m).
(** Media items compare (and hash) by their uri. *)
Definition eqb (a b : t) : bool := bool_decide (uri a = uri b).
Definition mem (a : t) (l : list t) : bool := existsb (eqb a) l.
End MediaItem.

Module StreamDetails.
Record t : Type := mk {
  seek_position : Z;
  duration : option Z;
  strip_silence_begin : bool;
  strip_silence_end : bool;
}.
Definition set_strip_silence (begin end_ : bool) (sd : t) : t :=
  mk (seek_position sd) (duration sd) begin end_.
End StreamDetails.

Module QueueItem.
Record t : Type := mk {
  queue_id : string;
  queue_item_id : string;
  name : string;
  uri : string;
  duration : option Z;
  sort_index : Z;
  streamdetails : option StreamDetails.t;
  media_item : option MediaItem.t;
  media_type : MediaType;
}.
Definition set_sort_index (v : Z) (i : t) : t :=
  mk (queue_id i) (queue_item_id i) (name i) (uri i) (duration i) v
     (streamdetails i) (media_item i) (media_type i).
Definition set_queue_id (v : string) (i : t) : t :=
  mk v (queue_item_id i) (name i) (uri i) (duration i) (sort_index i)
     (streamdetails i) (media_item i) (media_type i).
Definition set_streamdetails (v : option StreamDetails.t) (i : t) : t :=
  mk (queue_id i) (queue_item_id i) (name i) (uri i) (duration i)
     (sort_index i) v (media_item i) (media_type i).
Definition set_media_item (v : option MediaItem.t) (i : t) : t :=
  mk (queue_id i) (queue_item_id i) (name i) (uri i) (duration i)
     (sort_index i) (streamdetails i) v (media_type i).
(** [QueueItem.from_media_item], given the fresh id of the new item. *)
Definition from_media_item (queue_id queue_item_id : string)
    (media_item : MediaItem.t) : t :=
  mk queue_id queue_item_id (MediaItem.name media_item)
     (MediaItem.uri media_item)
     (Some (MediaItem.duration media_item)) 0 None (Some media_item)
     (MediaItem.media_type media_item).
End QueueItem.

Module PlayLogEntry.
Record t : Type := mk {
  queue_item_id : string;
  duration : option Z;
  seconds_streamed : option Z;
}.
End PlayLogEntry.

(** A reference to a [QueueItem] object. *)
Definition loc : Type := nat.

Module PlayerQueue.
Record t : Type := mk {
  queue_id : string;
  active : bool;
  display_name : string;
  available : bool;
  items : Z;
  shuffle_enabled : bool;
  repeat_mode : RepeatMode;
  dont_stop_the_music_enabled : bool;
  current_index : option Z;
  index_in_buffer : option Z;
  elapsed_time : Z;
  state : PlayerState;
  current_item : option loc;
  next_item : option loc;
  radio_source : list MediaItem.t;
  enqueued_media_items : list MediaItem.t;
  flow_mode : bool;
  flow_mode_stream_log : list PlayLogEntry.t;
  next_track_enqueued : option string;
  resume_pos : Z;
}.

Definition set_items (v : Z) (q : t) : t :=
  mk (queue_id q) (active q) (display_name q) (available q) v
     (shuffle_enabled q) (repeat_mode q) (dont_stop_the_music_enabled q)
     (current_index q) (index_in_buffer q) (elapsed_time q) (state q)
     (current_item q) (next_item q) (radio_source q)
     (enqueued_media_items q) (flow_mode q) (flow_mode_stream_log q)
     (next_track_enqueued q) (resume_pos q).
Definition set_shuffle_enabled (v : bool) (q : t) : t :=
  mk (queue_id q) (active q) (display_name q) (available q) (items q)
     v (repeat_mode q) (dont_stop_the_music_enabled q)
     (current_index q) (index_in_buffer q) (elapsed_time q) (state q)
     (current_item q) (next_item q) (radio_source q)
     (enqueued_media_items q) (flow_mode q) (flow_mode_stream_log q)
     (next_track_enqueued q) (resume_pos q).
Definition set_repeat_mode (v : RepeatMode) (q : t) : t :=
  mk (queue_id q) (active q) (display_name q) (available q) (items q)
     (shuffle_enabled q) v (dont_stop_the_music_enabled q)
     (current_index q) (index_in_buffer q) (elapsed_time q) (state q)
     (current_item q) (next_item q) (radio_source q)
     (enqueued_media_items q) (flow_mode q) (flow_mode_stream_log q)
     (next_track_enqueued q) (resume_pos q).
Definition set_dont_stop_the_music_enabled (v : bool) (q : t) : t :=
  mk (queue_id q) (active q) (display_name q) (available q) (items q)
     (shuffle_enabled q) (repeat_mode q) v
     (current_index q) (index_in_buffer q) (elapsed_time q) (state q)
     (current_item q) (next_item q) (radio_source q)
     (enqueued_media_items q) (flow_mode q) (flow_mode_stream_log q)
     (next_track_enqueued q) (resume_pos q).
Definition set_current_index (v : option Z) (q : t) : t :=
  mk (queue_id q) (active q) (display_name q) (available q) (items q)
     (shuffle_enabled q) (repeat_mode q) (dont_stop_the_music_enabled q)
     v (index_in_buffer q) (elapsed_time q) (state q)
     (current_item q) (next_item q) (radio_source q)
     (enqueued_media_items q) (flow_mode q) (flow_mode_stream_log q)
     (next_track_enqueued q) (resume_pos q).
Definition set_index_in_buffer (v : option Z) (q : t) : t :=
  mk (queue_id q) (active q) (display_name q) (available q) (items q)
     (shuffle_enabled q) (repeat_mode q) (dont_stop_the_music_enabled q)
     (current_index q) v (elapsed_time q) (state q)
     (current_item q) (next_item q) (radio_source q)
     (enqueued_media_items q) (flow_mode q) (flow_mode_stream_log q)
     (next_track_enqueued q) (resume_pos q).
Definition set_elapsed_time (v : Z) (q : t) : t :=
  mk (queue_id q) (active q) (display_name q) (available q) (items q)
     (shuffle_enabled q) (repeat_mode q) (dont_stop_the_music_enabled q)
     (current_index q) (index_in_buffer q) v (state q)
     (current_item q) (next_item q) (radio_source q)
     (enqueued_media_items q) (flow_mode q) (flow_mode_stream_log q)
     (next_track_enqueued q) (resume_pos q).
Definition set_current_item (v : option loc) (q : t) : t :=
  mk (queue_id q) (active q) (display_name q) (available q) (items q)
     (shuffle_enabled q) (repeat_mode q) (dont_stop_the_music_enabled q)
     (current_index q) (index_in_buffer q) (elapsed_time q) (state q)
     v (next_item q) (radio_source q)
     (enqueued_media_items q) (flow_mode q) (flow_mode_stream_log q)
     (next_track_enqueued q) (resume_pos q).
Definition set_radio_source (v : list MediaItem.t) (q : t) : t :=
  mk (queue_id q) (active q) (display_name q) (available q) (items q)
     (shuffle_enabled q) (repeat_mode q) (dont_stop_the_music_enabled q)
     (current_index q) (index_in_buffer q) (elapsed_time q) (state q)
     (current_item q) (next_item q) v
     (enqueued_media_items q) (flow_mode q) (flow_mode_stream_log q)
     (next_track_enqueued q) (resume_pos q).
Definition set_enqueued_media_items (v : list MediaItem.t) (q : t) : t :=
  mk (queue_id q) (active q) (display_name q) (available q) (items q)
     (shuffle_enabled q) (repeat_mode q) (dont_stop_the_music_enabled q)
     (current_index q) (index_in_buffer q) (elapsed_time q) (state q)
     (current_item q) (next_item q) (radio_source q)
     v (flow_mode q) (flow_mode_stream_log q)
     (next_track_enqueued q) (resume_pos q).
Definition set_flow_mode (v : bool) (q : t) : t :=
  mk (queue_id q) (active q) (display_name q) (available q) (items q)
     (shuffle_enabled q) (repeat_mode q) (dont_stop_the_music_enabled q)
     (current_index q) (index_in_buffer q) (elapsed_time q) (state q)
     (current_item q) (next_item q) (radio_source q)
     (enqueued_media_items q) v (flow_mode_stream_log q)
     (next_track_enqueued q) (resume_pos q).
Definition set_flow_mode_stream_log (v : list PlayLogEntry.t) (q : t) : t :=
  mk (queue_id q) (active q) (display_name q) (available q) (items q)
     (shuffle_enabled q) (repeat_mode q) (dont_stop_the_music_enabled q)
     (current_index q) (index_in_buffer q) (elapsed_time q) (state q)
     (current_item q) (next_item q) (radio_source q)
     (enqueued_media_items q) (flow_mode q) v
     (next_track_enqueued q) (resume_pos q).
Definition set_next_track_enqueued (v : option string) (q : t) : t :=
  mk (queue_id q) (active q) (display_name q) (available q) (items q)
     (shuffle_enabled q) (repeat_mode q) (dont_stop_the_music_enabled q)
     (current_index q) (index_in_buffer q) (elapsed_time q) (state q)
     (current_item q) (next_item q) (radio_source q)
     (enqueued_media_items q) (flow_mode q) (flow_mode_stream_log q)
     v (resume_pos q).
Definition set_resume_pos (v : Z) (q : t) : t :=
  mk (queue_id q) (active q) (display_name q) (available q) (items q)
     (shuffle_enabled q) (repeat_mode q) (dont_stop_the_music_enabled q)
     (current_index q) (index_in_buffer q) (elapsed_time q) (state q)
     (current_item q) (next_item q) (radio_source q)
     (enqueued_media_items q) (flow_mode q) (flow_mode_stream_log q)
     (next_track_enqueued q) v.
End PlayerQueue.

(** The player as the player registry reports it. *)
Module Player.
Record t : Type := mk {
  player_id : string;
  display_name : string;
  available : bool;
  powered : bool;
  announcement_in_progress : bool;
  active_group : option string;
  synced_to : option string;
  corrected_elapsed_time : option Z;
}.
End Player.

(** ** The controller *)

(** What the controller hands to the event bus, the task scheduler and the
    logger. *)
Inductive Task : Type :=
  | CacheSetItems (queue_id : string) (items : list loc)
  | CacheSetState (queue_id : string)
  | StopTask (queue_id : string)
  | PlayMediaLater (queue_id : string) (item : loc) (debounce : bool)
  | FillRadioLater (queue_id : string)
  | MarkItemPlayed (item : MediaItem.t)
  | CmdPower (player_id : string) (powered : bool)
  | Sleep (seconds : Z).

Inductive LogRecord : Type :=
  | LogWarning (msg : string)
  | LogInfo (msg : string)
  | LogDebug (msg : string).

Record Controller : Type := mkController {
  _queues : gmap string PlayerQueue.t;
  _queue_items : gmap string (list loc);
  objects : loc → QueueItem.t;
  next_loc : loc;
  random_tape : list nat;
  events : list (EventType * string);
  tasks : list Task;
  logger : list LogRecord;
}.

Definition with_queues (v : gmap string PlayerQueue.t) (self : Controller) :=
  mkController v (_queue_items self) (objects self) (next_loc self)
    (random_tape self) (events self) (tasks self) (logger self).
Definition with_queue_items (v : gmap string (list loc)) (self : Controller) :=
  mkController (_queues self) v (objects self) (next_loc self)
    (random_tape self) (events self) (tasks self) (logger self).
Definition with_objects (v : loc → QueueItem.t) (self : Controller) :=
  mkController (_queues self) (_queue_items self) v (next_loc self)
    (random_tape self) (events self) (tasks self) (logger self).
Definition with_next_loc (v : loc) (self : Controller) :=
  mkController (_queues self) (_queue_items self) (objects self) v
    (random_tape self) (events self) (tasks self) (logger self).
Definition with_random_tape (v : list nat) (self : Controller) :=
  mkController (_queues self) (_queue_items self) (objects self)
    (next_loc self) v (events self) (tasks self) (logger self).
Definition with_events (v : list (EventType * string)) (self : Controller) :=
  mkController (_queues self) (_queue_items self) (objects self)
    (next_loc self) (random_tape self) v (tasks self) (logger self).
Definition with_tasks (v : list Task) (self : Controller) :=
  mkController (_queues self) (_queue_items self) (objects self)
    (next_loc self) (random_tape self) (events self) v (logger self).
Definition with_logger (v : list LogRecord) (self : Controller) :=
  mkController (_queues self) (_queue_items self) (objects self)
    (next_loc self) (random_tape self) (events self) (tasks self) v.

(** [d[key]] on the two dictionaries of the controller. *)
Definition queues_getitem (self : Controller) (queue_id : string)
  : result PlayerQueue.t :=
  match _queues self !! queue_id with
  | Some q => Ok q
  | None => Raise (KeyError queue_id)
  end.

Definition queue_items_getitem (self : Controller) (queue_id : string)
  : result (list loc) :=
  match _queue_items self !! queue_id with
  | Some l => Ok l
  | None => Raise (KeyError queue_id)
  end.

(** ** Read-only helper methods *)

(** The first position in [queue_items] of an item with the given id. *)
Fixpoint index_by_id_from (objs : loc → QueueItem.t) (index : Z)
    (queue_items : list loc) (queue_item_id : string) : option Z :=
  match queue_items with
  | [] => None
  | item :: rest =>
      if bool_decide (QueueItem.queue_item_id (objs item) = queue_item_id)
      then Some index
      else index_by_id_from objs (index + 1) rest queue_item_id
  end.

Definition index_by_id (self : Controller) (queue_id queue_item_id : string)
  : result (option Z) :=
  result_bind (queue_items_getitem self queue_id) (λ queue_items,
  Ok (index_by_id_from (objects self) 0 queue_items queue_item_id)).

(** [get_item] takes an index, an item id or [None]. *)
Inductive id_or_index : Type :=
  | ByIndex (index : Z)
  | ById (item_id : string).

Definition get_item (self : Controller) (queue_id : string)
    (item_id_or_index : option id_or_index) : result (option loc) :=
  match item_id_or_index with
  | None => Ok None
  | Some x =>
      result_bind (queue_items_getitem self queue_id) (λ queue_items,
      match x with
      | ByIndex i =>
          if i <? Py.len queue_items
          then result_bind (Py.getitem queue_items i) (λ r, Ok (Some r))
          else Ok None
      | ById s =>
          Ok (List.find
                (λ r, bool_decide (QueueItem.queue_item_id (objects self r) = s))
                queue_items)
      end)
  end.

(** [_get_next_index]: the next index of the queue, accounting for the
    repeat settings; [None] when there are no (more) items. *)
Definition _get_next_index (self : Controller) (queue_id : string)
    (cur_index : option Z) (is_skip allow_repeat : bool)
  : result (option Z) :=
  result_bind (queues_getitem self queue_id) (λ queue,
  result_bind (queue_items_getitem self queue_id) (λ queue_items,
  match queue_items, cur_index with
  | [], _ | _, None => Ok None
  | _ :: _, Some cur_index =>
      if bool_decide (PlayerQueue.repeat_mode queue = RepeatONE) && negb is_skip
      then Ok (if allow_repeat then Some cur_index else None)
      else if Py.len queue_items - 1 <=? cur_index
      then
        if allow_repeat && bool_decide (PlayerQueue.repeat_mode queue = RepeatALL)
        then Ok (Some 0)
        else Ok None
      else Ok (Some (cur_index + 1))
  end)).

(** ** The monad of methods with effects *)

Definition M (A : Type) : Type := Controller → Controller * result A.

Definition ret {A} (a : A) : M A := λ self, (self, Ok a).

Definition bind {A B} (m : M A) (k : A → M B) : M B :=
  λ self,
    match m self with
    | (self', Ok a) => k a self'
    | (self', Raise e) => (self', Raise e)
    end.

Definition raise {A} (e : exn) : M A := λ self, (self, Raise e).

(** Run a read-only method on the current controller. *)
Definition read {A} (f : Controller → result A) : M A :=
  λ self, (self, f self).

Definition modify (f : Controller → Controller) : M unit :=
  λ self, (f self, Ok tt).

(** [try: m  except E: handler], where [catches] tells the instances of [E]. *)
Definition try_except {A} (m : M A) (catches : exn → bool)
    (handler : exn → M A) : M A :=
  λ self,
    match m self with
    | (self', Raise e) =>
        if catches e then handler e self' else (self', Raise e)
    | r => r
    end.

#[global] Instance M_ret : MRet M := @ret.
#[global] Instance M_bind : MBind M := λ A B k m, bind m k.

(** [for x in l: body x] *)
Fixpoint for_each {A} (l : list A) (body : A → M unit) : M unit :=
  match l with
  | [] => ret tt
  | x :: l' => bind (body x) (λ _, for_each l' body)
  end.

(** *** Effects on the collaborators and on the queue objects *)

Definition signal_event (event : EventType) (object_id : string) : M unit :=
  modify (λ self, with_events (events self ++ [(event, object_id)]) self).

Definition create_task (t : Task) : M unit :=
  modify (λ self, with_tasks (tasks self ++ [t]) self).

Definition log (r : LogRecord) : M unit :=
  modify (λ self, with_logger (logger self ++ [r]) self).

(** [self._queues[queue_id].attr = v]: a [KeyError] when the queue is
    missing, else the queue object is updated in place. *)
Definition queue_setattr (queue_id : string)
    (set : PlayerQueue.t → PlayerQueue.t) : M unit :=
  λ self,
    match _queues self !! queue_id with
    | Some q => (with_queues (<[queue_id := set q]> (_queues self)) self, Ok tt)
    | None => (self, Raise (KeyError queue_id))
    end.

(** The object store with the object at [item] replaced by [v]. *)
Definition store_update (objs : loc → QueueItem.t) (item : loc)
    (v : QueueItem.t) : loc → QueueItem.t :=
  λ r, if bool_decide (r = item) then v else objs r.

(** [item.attr = v] on a queue item object. *)
Definition item_setattr (item : loc) (set : QueueItem.t → QueueItem.t)
  : M unit :=
  modify (λ self,
    with_objects (store_update (objects self) item (set (objects self item)))
      self).

(** *** [random.sample]

    The random source is a tape of numbers: each draw takes the next
    number [n] and picks position [n mod (remaining length)] of what is
    left of the population, so that the [k] picks are at distinct
    positions. *)
Fixpoint sample_draws {A} (tape : list nat) (pool : list A) (k : nat)
  : list A * list nat :=
  match k with
  | O => ([], tape)
  | S k' =>
      let j := (hd 0%nat tape `mod` length pool)%nat in
      match pool !! j with
      | None => ([], tape)
      | Some x =>
          let '(rest, tape') := sample_draws (tl tape) (delete j pool) k' in
          (x :: rest, tape')
      end
  end.

Definition random_sample {A} (population : list A) (k : Z) : M (list A) :=
  λ self,
    if (k <? 0) || (Py.len population <? k)
    then (self, Raise (ValueError "Sample larger than population or is negative"))
    else
      let '(picked, tape') :=
        sample_draws (random_tape self) population (Z.to_nat k) in
      (with_random_tape tape' self, Ok picked).

(** ** Main queue manipulation methods *)

(** [signal_update]: signal the changed state of the queue and save it. *)
Definition signal_update (queue_id : string) (items_changed : bool) : M unit :=
  _ ← read (λ self, queues_getitem self queue_id);
  (if items_changed then
     signal_event QUEUE_ITEMS_UPDATED queue_id ;;
     queue_items ← read (λ self, queue_items_getitem self queue_id);
     create_task (CacheSetItems queue_id queue_items)
   else ret tt) ;;
  signal_event QUEUE_UPDATED queue_id ;;
  create_task (CacheSetState queue_id).

(** [update_items]: replace the item list of the queue. *)
Definition update_items (queue_id : string) (queue_items : list loc) : M unit :=
  modify (λ self,
    with_queue_items (<[queue_id := queue_items]> (_queue_items self)) self) ;;
  stored ← read (λ self, queue_items_getitem self queue_id);
  queue_setattr queue_id (PlayerQueue.set_items (Py.len stored)) ;;
  signal_update queue_id true ;;
  queue_setattr queue_id (PlayerQueue.set_next_track_enqueued None).

(** [for index, item in enumerate(next_items):
       item.sort_index += insert_at_index + index] *)
Definition bump_sort_index (insert_at_index : Z) (entry : Z * loc) : M unit :=
  item_setattr entry.2 (λ i,
    QueueItem.set_sort_index
      (QueueItem.sort_index i + (insert_at_index + entry.1)) i).

(** [load]: load new items at an index. *)
Definition load (queue_id : string) (queue_items : list loc)
    (insert_at_index : Z) (keep_remaining keep_played shuffle : bool)
  : M unit :=
  prev_items ←
    (if keep_played then
       old ← read (λ self, queue_items_getitem self queue_id);
       ret (Py.slice_to old insert_at_index)
     else ret []);
  next_items ←
    (if keep_remaining then
       old ← read (λ self, queue_items_getitem self queue_id);
       ret (queue_items ++ Py.slice_from old insert_at_index)
     else ret queue_items);
  for_each (Py.enumerate next_items) (bump_sort_index insert_at_index) ;;
  next_items ←
    (if shuffle then random_sample next_items (Py.len next_items)
     else ret next_items);
  update_items queue_id (prev_items ++ next_items).

(** [list.sort(key=lambda x: x.sort_index)]: the sort is stable, so its
    result is that of a stable insertion sort. *)
Fixpoint insert_by_key (key : loc → Z) (x : loc) (l : list loc) : list loc :=
  match l with
  | [] => [x]
  | y :: l' =>
      if key x <=? key y then x :: y :: l'
      else y :: insert_by_key key x l'
  end.

Fixpoint sort_by_key (key : loc → Z) (l : list loc) : list loc :=
  match l with
  | [] => []
  | x :: l' => insert_by_key key x (sort_by_key key l')
  end.

Definition sort_index_of (self : Controller) (item : loc) : Z :=
  QueueItem.sort_index (objects self item).

(** [set_shuffle]: configure the shuffle setting of the queue. *)
Definition set_shuffle (queue_id : string) (shuffle_enabled : bool) : M unit :=
  queue ← read (λ self, queues_getitem self queue_id);
  if bool_decide (PlayerQueue.shuffle_enabled queue = shuffle_enabled)
  then ret tt
  else
    queue_setattr queue_id (PlayerQueue.set_shuffle_enabled shuffle_enabled) ;;
    queue_items ← read (λ self, queue_items_getitem self queue_id);
    let cur_index :=
      Py.or_ (PlayerQueue.index_in_buffer queue)
             (PlayerQueue.current_index queue) in
    let '(next_index, next_items) :=
      match cur_index with
      | Some cur_index =>
          (cur_index + 1, Py.slice_from queue_items (cur_index + 1))
      | None => (0, [])
      end in
    next_items ←
      (if shuffle_enabled then ret next_items
       else read (λ self, Ok (sort_by_key (sort_index_of self) next_items)));
    load queue_id next_items next_index false true shuffle_enabled.

(** [move_item]: move a queue item up or down the queue. *)
Definition move_item (queue_id queue_item_id : string) (pos_shift : Z)
  : M unit :=
  queue ← read (λ self, queues_getitem self queue_id);
  item_index ← read (λ self, index_by_id self queue_id queue_item_id);
  buffered ← read (λ _, Py.le item_index (PlayerQueue.index_in_buffer queue));
  if (buffered : bool) then
    raise (IndexError
             (from_option pretty "None" item_index
                +:+ " is already played/buffered"))
  else
    queue_items ← read (λ self, queue_items_getitem self queue_id);
    let new_index :=
      if (pos_shift =? 0) && bool_decide (PlayerQueue.state queue = PLAYING)
      then Py.or_int (PlayerQueue.current_index queue) 0 + 1
      else if pos_shift =? 0
      then Py.or_int (PlayerQueue.current_index queue) 0
      else default 0 item_index + pos_shift in
    if (new_index <? Py.or_int (PlayerQueue.current_index queue) 0)
       || (Py.len queue_items <? new_index)
    then ret tt
    else
      popped ← read (λ _, Py.pop queue_items (default 0 item_index));
      update_items queue_id (Py.insert popped.2 new_index popped.1).

(** [delete_item]: delete an item, given by id or by index. *)
Definition delete_item (queue_id : string) (item_id_or_index : id_or_index)
  : M unit :=
  item_index ←
    match item_id_or_index with
    | ById s => read (λ self, index_by_id self queue_id s)
    | ByIndex i => ret (Some i)
    end;
  queue ← read (λ self, queues_getitem self queue_id);
  buffered ←
    match PlayerQueue.index_in_buffer queue with
    | None => ret false
    | Some b => read (λ _, Py.le item_index (Some b))
    end;
  if (buffered : bool) then
    log (LogWarning "delete requested for item already loaded in buffer")
  else
    queue_items ← read (λ self, queue_items_getitem self queue_id);
    match item_index with
    | None =>
        raise (TypeError "'NoneType' object cannot be interpreted as an integer")
    | Some i =>
        popped ← read (λ _, Py.pop queue_items i);
        modify (λ self,
          with_queue_items (<[queue_id := popped.2]> (_queue_items self)) self) ;;
        update_items queue_id popped.2
    end.

(** [clear]: clear all items in the queue. *)
Definition clear (queue_id : string) : M unit :=
  queue ← read (λ self, queues_getitem self queue_id);
  queue_setattr queue_id (PlayerQueue.set_radio_source []) ;;
  (if bool_decide (PlayerQueue.state queue ≠ IDLE)
   then create_task (StopTask queue_id) else ret tt) ;;
  queue_setattr queue_id (PlayerQueue.set_current_index None) ;;
  queue_setattr queue_id (PlayerQueue.set_current_item None) ;;
  queue_setattr queue_id (PlayerQueue.set_elapsed_time 0) ;;
  queue_setattr queue_id (PlayerQueue.set_index_in_buffer None) ;;
  update_items queue_id [].

(** ** Flow mode: from the position in the stream to the queue item *)

(** The seconds a play log entry accounts for: what was streamed, or else
    the duration of the item, or else a week. *)
Definition play_log_seconds (play_log_entry : PlayLogEntry.t) : Z :=
  match PlayLogEntry.seconds_streamed play_log_entry with
  | Some s => s
  | None => Py.or_int (PlayLogEntry.duration play_log_entry) (3600 * 24 * 7)
  end.

(** The seconds skipped by a seek in the item found, from its stream
    details. *)
Definition track_sec_skipped (self : Controller) (queue_item : option loc)
  : Z :=
  match queue_item with
  | Some item =>
      match QueueItem.streamdetails (objects self item) with
      | Some sd => StreamDetails.seek_position sd
      | None => 0
      end
  | None => 0
  end.

(** The loop of [_get_flow_queue_stream_index] over the play log, from the
    values of [played_time], [queue_index] and [track_time] reached. *)
Fixpoint flow_stream_walk (self : Controller) (queue_id : string)
    (elapsed_time_queue_total played_time : Z) (queue_index : option Z)
    (track_time : Z) (play_log : list PlayLogEntry.t)
  : result (option Z * Z) :=
  match play_log with
  | [] => Ok (queue_index, track_time)
  | play_log_entry :: rest =>
      let queue_item_duration := play_log_seconds play_log_entry in
      if queue_item_duration + played_time <? elapsed_time_queue_total
      then
        flow_stream_walk self queue_id elapsed_time_queue_total
          (played_time + queue_item_duration) queue_index track_time rest
      else
        result_bind
          (index_by_id self queue_id
             (PlayLogEntry.queue_item_id play_log_entry)) (λ queue_index,
        result_bind
          (get_item self queue_id (ByIndex <$> queue_index)) (λ queue_item,
        Ok (queue_index,
            elapsed_time_queue_total + track_sec_skipped self queue_item
              - played_time)))
  end.

(** [_get_flow_queue_stream_index]: the current queue index and the
    elapsed time of the current track when flow mode is active. *)
Definition _get_flow_queue_stream_index (self : Controller)
    (queue : PlayerQueue.t) (player : Player.t) : result (option Z * Z) :=
  let elapsed_time_queue_total :=
    Py.or_int (Player.corrected_elapsed_time player) 0 in
  match PlayerQueue.current_index queue with
  | None => Ok (None, elapsed_time_queue_total)
  | Some current_index =>
      flow_stream_walk self (PlayerQueue.queue_id queue)
        elapsed_time_queue_total 0
        (Some (Py.or_int (Some current_index) 0)) 0
        (PlayerQueue.flow_mode_stream_log queue)
  end.

(** ** The deduplication guard of the preload

    The first two early returns of [_preload_next_item]: nothing is
    preloaded without a current and a next item, nor when the next item is
    the one already enqueued. *)
Definition preload_is_suppressed (self : Controller) (queue : PlayerQueue.t)
  : bool :=
  match PlayerQueue.current_item queue, PlayerQueue.next_item queue with
  | Some _, Some next_item =>
      bool_decide (PlayerQueue.next_track_enqueued queue
                   = Some (QueueItem.queue_item_id (objects self next_item)))
  | _, _ => true
  end.

(** ** Object creation *)

(** A new queue item object in the store. *)
Definition new_object (item : QueueItem.t) : M loc :=
  λ self,
    (with_next_loc (S (next_loc self))
       (with_objects (store_update (objects self) (next_loc self) item) self),
     Ok (next_loc self)).

Fixpoint new_objects (items : list QueueItem.t) : M (list loc) :=
  match items with
  | [] => ret []
  | i :: rest =>
      r ← new_object i;
      rs ← new_objects rest;
      ret (r :: rs)
  end.

(** [[f(x) for x in l]], stopping at the first exception. *)
Fixpoint result_map {A B} (f : A → result B) (l : list A) : result (list B) :=
  match l with
  | [] => Ok []
  | x :: l' =>
      result_bind (f x) (λ y,
      result_bind (result_map f l') (λ ys, Ok (y :: ys)))
  end.

Definition RADIO_TRACK_MAX_DURATION_SECS : Z := 20 * 60.

(** ** The collaborators

    What the controller reaches through [self.mass] and the models
    package. A call that can fail returns a [result]. *)
Record Collaborators {CachedState CachedItem SerializedMedia : Type} : Type :=
  mkCollaborators {
    (** The cache of persisted queues: the raw state and the raw items of
        a queue, and the decoders of the models package, which raise on
        data they cannot read. *)
    cache_get_state : string → option CachedState;
    cache_get_items : string → list CachedItem;
    PlayerQueue_from_cache : CachedState → result PlayerQueue.t;
    QueueItem_from_cache : CachedItem → result QueueItem.t;
    (** The player registry: [players.get(player_id, raise_unavailable)]. *)
    players_get : string → bool → result (option Player.t);
    (** The configuration: flow mode and crossfade of a player, the
        default enqueue option of a media type, a raw core value with its
        default. *)
    get_player_config_flow_mode : string → bool;
    get_player_config_crossfade : string → bool;
    get_default_enqueue_option : MediaType → result QueueOption;
    get_raw_core_config_value : string → string → string;
    (** The catalog. *)
    get_item_by_uri : string → result MediaItem.t;
    media_from_dict : SerializedMedia → result MediaItem.t;
    get_library_item_by_prov_id : MediaItem.t → result (option MediaItem.t);
    radio_mode_base_tracks : MediaItem.t → result (list MediaItem.t);
    similar_tracks : MediaItem.t → bool → result (list MediaItem.t);
    artists_tracks : MediaItem.t → bool → result (list MediaItem.t);
    artists_albums : MediaItem.t → bool → result (list MediaItem.t);
    albums_tracks : MediaItem.t → bool → result (list MediaItem.t);
    playlists_tracks : MediaItem.t → result (list MediaItem.t);
    (** The resume point of an audio book and the episodes of a podcast
        from a given episode on, which the controller works out from the
        providers and the play log. *)
    get_audiobook_resume_point : MediaItem.t → option string → result Z;
    get_next_podcast_episodes :
      option MediaItem.t → MediaItem.t + string → result (list MediaItem.t);
    (** The stream details resolver: the item, the seek position, the
        fade-in flag and the preference for the album loudness. *)
    get_stream_details :
      QueueItem.t → Z → option bool → bool → result StreamDetails.t;
    (** The clock-corrected elapsed time of a queue, the id given to the
        n-th queue item created, and the order in which a set of tracks is
        listed. *)
    corrected_elapsed_time : PlayerQueue.t → Z;
    new_queue_item_id : loc → string;
    set_listing : list MediaItem.t → list MediaItem.t;
  }.
Arguments Collaborators : clear implicits.

Definition CONF_DEFAULT_ENQUEUE_SELECT_ARTIST : string :=
  "default_enqueue_select_artist".
Definition CONF_DEFAULT_ENQUEUE_SELECT_ALBUM : string :=
  "default_enqueue_select_album".
Definition ENQUEUE_SELECT_ARTIST_DEFAULT_VALUE : string := "all_tracks".
Definition ENQUEUE_SELECT_ALBUM_DEFAULT_VALUE : string := "all_tracks".

(** ** Methods that call collaborators *)

Section PlayerQueuesController.

Set Default Proof Using "Type".

Context {CachedState CachedItem SerializedMedia : Type}.
Variable mass : Collaborators CachedState CachedItem SerializedMedia.

(** The update of a queue from its player ([on_player_update]), as far
    as registration needs it: it runs after the queue is stored. *)
Variable on_player_update : Player.t → M unit.

(** *** Restoring a queue at registration *)

(** The two local variables of [on_player_register]; [None] for
    [queue_items] is the unbound variable. *)
Record register_locals : Type := mk_register_locals {
  local_queue : option PlayerQueue.t;
  local_queue_items : option (list loc);
}.

Definition restore_failed (player : Player.t) (err : exn) : M unit :=
  log (LogWarning
         ("Failed to restore the queue(items) for "
            +:+ Player.display_name player)).

(** The [try] block that restores the previous state, with its handler
    [except Exception] run at the statement that raises. *)
Definition restore_previous_state (player : Player.t)
    (prev_state : CachedState) : M register_locals :=
  let queue_id := Player.player_id player in
  match PlayerQueue_from_cache mass prev_state with
  | Raise err =>
      restore_failed player err ;;
      ret (mk_register_locals None None)
  | Ok queue =>
      let prev_items := cache_get_items mass queue_id in
      match result_map (QueueItem_from_cache mass) prev_items with
      | Raise err =>
          restore_failed player err ;;
          ret (mk_register_locals (Some queue) None)
      | Ok decoded =>
          queue_items ← new_objects decoded;
          ret (mk_register_locals (Some queue) (Some queue_items))
      end
  end.

Definition empty_queue (player : Player.t) : PlayerQueue.t :=
  PlayerQueue.mk (Player.player_id player) false
    (Player.display_name player) (Player.available player) 0
    false RepeatOFF false None None 0 IDLE None None [] [] false [] None 0.

(** [on_player_register]: register the queue of a player. *)
Definition on_player_register (player : Player.t) : M unit :=
  let queue_id := Player.player_id player in
  locals ←
    match cache_get_state mass queue_id with
    | Some prev_state => restore_previous_state player prev_state
    | None => ret (mk_register_locals None None)
    end;
  let locals :=
    match local_queue locals with
    | None => mk_register_locals (Some (empty_queue player)) (Some [])
    | Some _ => locals
    end in
  match local_queue locals with
  | None => raise (UnboundLocalError "queue")
  | Some queue =>
      modify (λ self,
        with_queues (<[queue_id := queue]> (_queues self)) self) ;;
      match local_queue_items locals with
      | None => raise (UnboundLocalError "queue_items")
      | Some queue_items =>
          modify (λ self,
            with_queue_items
              (<[queue_id := queue_items]> (_queue_items self)) self) ;;
          on_player_update player ;;
          signal_event QUEUE_ADDED queue_id
      end
  end.

(** *** Radio tracks *)

(** The base tracks of the radio sources, without the tracks already
    collected. *)
Fixpoint collect_base_tracks (radio_items : list MediaItem.t)
    (available_base_tracks : list MediaItem.t) : M (list MediaItem.t) :=
  match radio_items with
  | [] => ret available_base_tracks
  | radio_item :: rest =>
      match radio_mode_base_tracks mass radio_item with
      | Ok tracks =>
          collect_base_tracks rest
            (available_base_tracks
               ++ filter (λ track,
                    ¬ MediaItem.mem track available_base_tracks) tracks)
      | Raise (UnsupportedFeaturedException msg) =>
          log (LogDebug ("Skip loading radio items for "
                           +:+ MediaItem.uri radio_item)) ;;
          collect_base_tracks rest available_base_tracks
      | Raise err => raise err
      end
  end.

Definition set_add (track : MediaItem.t) (s : list MediaItem.t)
  : list MediaItem.t :=
  if MediaItem.mem track s then s else s ++ [track].

(** The inner loop over the base tracks, for one value of
    [allow_lookup]; it stops once 50 tracks are gathered. *)
Fixpoint collect_dynamic_tracks (allow_lookup : bool)
    (base_tracks todo dynamic_tracks : list MediaItem.t)
  : result (list MediaItem.t) :=
  match todo with
  | [] => Ok dynamic_tracks
  | base_track :: rest =>
      result_bind (similar_tracks mass base_track allow_lookup) (λ tracks,
      let dynamic_tracks :=
        foldl (λ s track, set_add track s) dynamic_tracks
          (filter (λ track,
             ¬ MediaItem.mem track base_tracks
             ∧ MediaItem.duration track ≤ RADIO_TRACK_MAX_DURATION_SECS)
             tracks) in
      if 50 <=? Py.len dynamic_tracks then Ok dynamic_tracks
      else collect_dynamic_tracks allow_lookup base_tracks rest dynamic_tracks)
  end.

(** The pattern of one base track followed by two dynamic tracks, over
    the base tracks after the first. *)
Fixpoint interleave_base_tracks (base_tracks dynamic_tracks
    queue_tracks : list MediaItem.t) : M (list MediaItem.t) :=
  match base_tracks with
  | [] => ret queue_tracks
  | base_track :: rest =>
      let queue_tracks := queue_tracks ++ [base_track] in
      picked ←
        (if 2 <? Py.len dynamic_tracks
         then random_sample dynamic_tracks 2
         else ret dynamic_tracks);
      interleave_base_tracks rest dynamic_tracks (queue_tracks ++ picked)
  end.

(** [_get_radio_tracks]: the tracks of the radio mode of the queue;
    [None] is the [None] that the method returns without a radio source. *)
Definition _get_radio_tracks (queue_id : string)
    (is_initial_radio_mode : bool) : M (option (list MediaItem.t)) :=
  queue ← read (λ self, queues_getitem self queue_id);
  match PlayerQueue.radio_source queue with
  | [] => ret None
  | _ :: _ =>
      log (LogInfo ("Fetching radio tracks for queue "
                      +:+ PlayerQueue.display_name queue)) ;;
      let base_track_sample_size := 5 in
      radio_items ←
        random_sample (PlayerQueue.radio_source queue)
          (Py.len (PlayerQueue.radio_source queue));
      available_base_tracks ← collect_base_tracks radio_items [];
      match available_base_tracks with
      | [] =>
          raise (UnsupportedFeaturedException
                   "Radio mode not available for source items")
      | first_base :: _ =>
          base_tracks ←
            random_sample available_base_tracks
              (Z.min base_track_sample_size (Py.len available_base_tracks));
          dynamic_tracks ←
            read (λ _, collect_dynamic_tracks false base_tracks base_tracks []);
          dynamic_tracks ←
            match dynamic_tracks with
            | [] =>
                read (λ _,
                  collect_dynamic_tracks true base_tracks base_tracks [])
            | _ :: _ => ret dynamic_tracks
            end;
          let dynamic_tracks := set_listing mass dynamic_tracks in
          queue_tracks ←
            (if is_initial_radio_mode then
               head ← read (λ _, Py.getitem base_tracks 0);
               if 1 <? Py.len base_tracks
               then interleave_base_tracks (Py.slice_from base_tracks 1)
                      dynamic_tracks [head]
               else ret [head]
             else ret []);
          let remaining_dynamic_tracks :=
            filter (λ t, ¬ MediaItem.mem t queue_tracks) dynamic_tracks in
          match remaining_dynamic_tracks with
          | [] => ret (Some queue_tracks)
          | _ :: _ =>
              more ←
                random_sample remaining_dynamic_tracks
                  (Z.min (Py.len remaining_dynamic_tracks) 25);
              ret (Some (queue_tracks ++ more))
          end
      end
  end.

(** *** Playback commands *)

(** The albums of two media items are the same album. *)
Definition same_album (a b : option MediaItem.t) : bool :=
  match a, b with
  | Some a, Some b =>
      match MediaItem.album a, MediaItem.album b with
      | Some x, Some y => bool_decide (x = y)
      | _, _ => false
      end
  | _, _ => false
  end.

(** [_load_item]: try to load the stream details for the given queue item. *)
Definition _load_item (queue_item : loc) (next_index : option Z)
    (is_start : bool) (seek_position : Z) (fade_in : option bool) : M unit :=
  item ← read (λ self, Ok (objects self queue_item));
  let queue_id := QueueItem.queue_id item in
  prefer_album_loudness ←
    match next_index with
    | None => ret false
    | Some next_index =>
        next_item ←
          read (λ self, get_item self queue_id (Some (ByIndex next_index)));
        match next_item with
        | None => ret false
        | Some next_item =>
            read (λ self,
              Ok (same_album (QueueItem.media_item item)
                    (QueueItem.media_item (objects self next_item))))
        end
    end;
  match QueueItem.media_item item with
  | Some media_item =>
      library_item ← read (λ _, get_library_item_by_prov_id mass media_item);
      match library_item with
      | Some library_item =>
          item_setattr queue_item
            (QueueItem.set_media_item (Some library_item))
      | None =>
          if negb (MediaItem.image media_item)
             || String.prefix "ytmusic" (MediaItem.provider media_item)
          then
            full_item ← read (λ _, get_item_by_uri mass (QueueItem.uri item));
            item_setattr queue_item (QueueItem.set_media_item (Some full_item))
          else ret tt
      end
  | None => ret tt
  end ;;
  streamdetails ←
    read (λ self,
      get_stream_details mass (objects self queue_item) seek_position fade_in
        prefer_album_loudness);
  item_setattr queue_item (QueueItem.set_streamdetails (Some streamdetails)) ;;
  if get_player_config_crossfade mass queue_id then
    item_setattr queue_item
      (QueueItem.set_streamdetails
         (Some (StreamDetails.set_strip_silence (negb is_start) true
                  streamdetails)))
  else ret tt.

(** [play_index]: play the item at an index (or with an item id). *)
Definition play_index (queue_id : string) (index : id_or_index)
    (seek_position : Z) (fade_in : option bool) (debounce : bool)
  : M unit :=
  _ ← read (λ self, queues_getitem self queue_id);
  queue_setattr queue_id (PlayerQueue.set_resume_pos 0) ;;
  index ←
    match index with
    | ById s => read (λ self, index_by_id self queue_id s)
    | ByIndex i => ret (Some i)
    end;
  queue_item ← read (λ self, get_item self queue_id (ByIndex <$> index));
  match queue_item with
  | None =>
      raise (FileNotFoundError
               ("Unknown index/id: " +:+ from_option pretty "None" index))
  | Some queue_item =>
      queue_setattr queue_id (PlayerQueue.set_current_index index) ;;
      queue_setattr queue_id (PlayerQueue.set_index_in_buffer index) ;;
      queue_setattr queue_id (PlayerQueue.set_flow_mode_stream_log []) ;;
      queue_setattr queue_id
        (PlayerQueue.set_flow_mode
           (get_player_config_flow_mode mass queue_id)) ;;
      queue_setattr queue_id (PlayerQueue.set_current_item (Some queue_item)) ;;
      queue_setattr queue_id (PlayerQueue.set_next_track_enqueued None) ;;
      item ← read (λ self, Ok (objects self queue_item));
      let resume_position_ms :=
        match QueueItem.media_item item with
        | Some m => Py.or_int (MediaItem.resume_position_ms m) 0
        | None => 0
        end in
      let seek_position :=
        if (seek_position =? 0) && negb (resume_position_ms =? 0)
        then Z.max 0 (Z.quot (resume_position_ms - 500) 1000)
        else seek_position in
      next_index ← read (λ self, _get_next_index self queue_id index false false);
      _load_item queue_item next_index true seek_position fade_in ;;
      create_task (PlayMediaLater queue_id queue_item debounce) ;;
      signal_update queue_id false
  end.

(** [resume]: resume the queue from its resume position. *)
Definition resume (queue_id : string) (fade_in : option bool) : M unit :=
  queue ← read (λ self, queues_getitem self queue_id);
  queue_items ← read (λ self, queue_items_getitem self queue_id);
  let resume_item := PlayerQueue.current_item queue in
  let resume_pos :=
    if bool_decide (PlayerQueue.state queue = PLAYING)
    then corrected_elapsed_time mass queue
    else PlayerQueue.resume_pos queue in
  found ←
    match resume_item, PlayerQueue.current_index queue with
    | None, Some current_index =>
        if 0 <? Py.len queue_items then
          item ← read (λ self,
                   get_item self queue_id (Some (ByIndex current_index)));
          ret (item, 0)
        else ret (resume_item, resume_pos)
    | None, None =>
        if 0 <? Py.len queue_items then
          item ← read (λ self, get_item self queue_id (Some (ByIndex 0)));
          ret (item, 0)
        else ret (resume_item, resume_pos)
    | Some _, _ => ret (resume_item, resume_pos)
    end;
  match found.1 with
  | Some resume_item =>
      let resume_pos := if 10 <? found.2 then found.2 else 0 in
      queue_player ← read (λ _, players_get mass queue_id false);
      match queue_player with
      | None =>
          raise (AttributeError "'NoneType' object has no attribute 'powered'")
      | Some queue_player =>
          let fade_in :=
            match fade_in with
            | None =>
                if negb (Player.powered queue_player)
                then Some (0 <? resume_pos) else None
            | Some b => Some b
            end in
          item ← read (λ self, Ok (objects self resume_item));
          let resume_pos :=
            if bool_decide (QueueItem.media_type item = RADIO)
            then 0 else resume_pos in
          play_index queue_id (ById (QueueItem.queue_item_id item))
            resume_pos fade_in false
      end
  | None =>
      raise (QueueEmpty
               ("Resume queue requested but queue "
                  +:+ PlayerQueue.display_name queue +:+ " is empty"))
  end.

(** [transfer_queue]: transfer a queue to another queue. *)
Definition transfer_queue (source_queue_id target_queue_id : string)
    (auto_play : option bool) : M unit :=
  source_queue ← read (λ self, Ok (_queues self !! source_queue_id));
  match source_queue with
  | None =>
      raise (PlayerUnavailableError "Queue {source_queue_id} is not available")
  | Some source_queue =>
  target_queue ← read (λ self, Ok (_queues self !! target_queue_id));
  match target_queue with
  | None =>
      raise (PlayerUnavailableError "Queue {target_queue_id} is not available")
  | Some _ =>
  let auto_play :=
    match auto_play with
    | None => bool_decide (PlayerQueue.state source_queue = PLAYING)
    | Some b => b
    end in
  target_player ← read (λ _, players_get mass target_queue_id false);
  match target_player with
  | None =>
      raise (AttributeError
               "'NoneType' object has no attribute 'active_group'")
  | Some target_player =>
  match Player.active_group target_player, Player.synced_to target_player with
  | Some group, _ | None, Some group =>
      create_task (CmdPower group false) ;; create_task (Sleep 3)
  | None, None => ret tt
  end ;;
  source_items ← read (λ self, queue_items_getitem self source_queue_id);
  queue_setattr target_queue_id
    (PlayerQueue.set_repeat_mode (PlayerQueue.repeat_mode source_queue)) ;;
  queue_setattr target_queue_id
    (PlayerQueue.set_shuffle_enabled (PlayerQueue.shuffle_enabled source_queue)) ;;
  queue_setattr target_queue_id
    (PlayerQueue.set_dont_stop_the_music_enabled
       (PlayerQueue.dont_stop_the_music_enabled source_queue)) ;;
  queue_setattr target_queue_id
    (PlayerQueue.set_radio_source (PlayerQueue.radio_source source_queue)) ;;
  queue_setattr target_queue_id
    (PlayerQueue.set_enqueued_media_items
       (PlayerQueue.enqueued_media_items source_queue)) ;;
  queue_setattr target_queue_id
    (PlayerQueue.set_resume_pos (PlayerQueue.elapsed_time source_queue)) ;;
  queue_setattr target_queue_id
    (PlayerQueue.set_current_index (PlayerQueue.current_index source_queue)) ;;
  match PlayerQueue.current_item source_queue with
  | Some current_item =>
      queue_setattr target_queue_id
        (PlayerQueue.set_current_item (Some current_item)) ;;
      item_setattr current_item (QueueItem.set_queue_id target_queue_id)
  | None => ret tt
  end ;;
  clear source_queue_id ;;
  load target_queue_id source_items 0 false false false ;;
  for_each source_items (λ item,
    item_setattr item (QueueItem.set_queue_id target_queue_id)) ;;
  update_items target_queue_id source_items ;;
  if auto_play then resume target_queue_id None else ret tt
  end end end.

(** *** Enqueueing media *)

(** [random.shuffle(l)]: the list in a random order. *)
Definition random_shuffle {A} (l : list A) : M (list A) :=
  random_sample l (Py.len l).

(** The tracks of the albums of an artist, each track once. *)
Fixpoint collect_album_tracks (albums : list MediaItem.t)
    (all_items : list MediaItem.t) : result (list MediaItem.t) :=
  match albums with
  | [] => Ok all_items
  | library_album :: rest =>
      result_bind (albums_tracks mass library_album false) (λ tracks,
      collect_album_tracks rest
        (foldl (λ all_items album_track,
                  if MediaItem.mem album_track all_items then all_items
                  else all_items ++ [album_track])
           all_items tracks))
  end.

(** [get_artist_tracks]: the tracks for an artist, by user preference. *)
Definition get_artist_tracks (artist : MediaItem.t) : M (list MediaItem.t) :=
  let artist_items_conf :=
    get_raw_core_config_value mass CONF_DEFAULT_ENQUEUE_SELECT_ARTIST
      ENQUEUE_SELECT_ARTIST_DEFAULT_VALUE in
  log (LogDebug ("Fetching tracks to play for artist "
                   +:+ MediaItem.name artist)) ;;
  if bool_decide (artist_items_conf = "library_tracks")
     || bool_decide (artist_items_conf = "all_tracks")
  then
    all_items ←
      read (λ _,
        artists_tracks mass artist
          (bool_decide (artist_items_conf = "library_tracks")));
    random_shuffle all_items
  else if bool_decide (artist_items_conf = "library_album_tracks")
          || bool_decide (artist_items_conf = "all_album_tracks")
  then
    albums ←
      read (λ _,
        artists_albums mass artist
          (bool_decide (artist_items_conf = "library_album_tracks")));
    all_items ← read (λ _, collect_album_tracks albums []);
    random_shuffle all_items
  else ret [].

(** The loop of [get_album_tracks] and [get_playlist_tracks]: the
    available tracks, from the start item on when one is given. *)
Fixpoint tracks_from_start_item (start_item : option string)
    (start_item_found : bool) (tracks : list MediaItem.t)
  : list MediaItem.t :=
  match tracks with
  | [] => []
  | track :: rest =>
      if negb (MediaItem.available track)
      then tracks_from_start_item start_item start_item_found rest
      else
        let start_item_found :=
          start_item_found
          || bool_decide (start_item = Some (MediaItem.item_id track))
          || bool_decide (start_item = Some (MediaItem.uri track)) in
        if bool_decide (start_item ≠ None) && negb start_item_found
        then tracks_from_start_item start_item start_item_found rest
        else track :: tracks_from_start_item start_item start_item_found rest
  end.

(** [get_album_tracks]: the tracks for an album, by user preference. *)
Definition get_album_tracks (album : MediaItem.t)
    (start_item : option string) : M (list MediaItem.t) :=
  let album_items_conf :=
    get_raw_core_config_value mass CONF_DEFAULT_ENQUEUE_SELECT_ALBUM
      ENQUEUE_SELECT_ALBUM_DEFAULT_VALUE in
  log (LogDebug ("Fetching tracks to play for album "
                   +:+ MediaItem.name album)) ;;
  tracks ←
    read (λ _,
      albums_tracks mass album
        (bool_decide (album_items_conf = "library_tracks")));
  ret (tracks_from_start_item start_item false tracks).

(** [get_playlist_tracks]: the tracks for a playlist. *)
Definition get_playlist_tracks (playlist : MediaItem.t)
    (start_item : option string) : M (list MediaItem.t) :=
  log (LogDebug ("Fetching tracks to play for playlist "
                   +:+ MediaItem.name playlist)) ;;
  tracks ← read (λ _, playlists_tracks mass playlist);
  ret (tracks_from_start_item start_item false tracks).

(** [_resolve_media_items]: resolve/unwrap media items to enqueue. *)
Definition _resolve_media_items (media_item : MediaItem.t)
    (start_item : option string) : M (list MediaItem.t) :=
  match MediaItem.media_type media_item with
  | PLAYLIST =>
      create_task (MarkItemPlayed media_item) ;;
      get_playlist_tracks media_item start_item
  | ARTIST =>
      create_task (MarkItemPlayed media_item) ;;
      get_artist_tracks media_item
  | ALBUM =>
      create_task (MarkItemPlayed media_item) ;;
      get_album_tracks media_item start_item
  | AUDIOBOOK =>
      resume_point ←
        read (λ _, get_audiobook_resume_point mass media_item start_item);
      if resume_point =? 0 then ret [media_item]
      else ret [MediaItem.set_resume_position_ms (Some resume_point)
                  media_item]
  | PODCAST =>
      create_task (MarkItemPlayed media_item) ;;
      read (λ _,
        get_next_podcast_episodes mass (Some media_item)
          (match start_item with
           | Some s => if bool_decide (s = "") then inl media_item else inr s
           | None => inl media_item
           end))
  | PODCAST_EPISODE =>
      read (λ _, get_next_podcast_episodes mass None (inl media_item))
  | _ => ret [media_item]
  end.

(** What [play_media] is given to play: a uri, a serialized item or a
    media item. *)
Inductive media_ref : Type :=
  | MediaUri (uri : string)
  | MediaSerialized (d : SerializedMedia)
  | MediaObject (m : MediaItem.t).

(** The local variables that the loop over the given media updates. *)
Record resolve_locals : Type := mk_resolve_locals {
  local_option : option QueueOption;
  local_media_items : list (option MediaItem.t);
  local_radio_source : list MediaItem.t;
}.

(** A statement of the [try] block of the loop: when it raises a
    [MusicAssistantError], the handler logs the item as skipped and the
    loop goes on with the locals as they are; another exception leaves
    the method. *)
Definition or_skip {A} (locals : resolve_locals) (stmt : M A)
    (k : A → M resolve_locals) : M resolve_locals :=
  λ self,
    match stmt self with
    | (self', Ok a) => k a self'
    | (self', Raise err) =>
        if is_MusicAssistantError err
        then (log (LogWarning "Skipping item") ;; ret locals) self'
        else (self', Raise err)
    end.

Definition is_enqueued_media_type (t : MediaType) : bool :=
  match t with
  | TRACK | ALBUM | PLAYLIST | ARTIST => true
  | _ => false
  end.

(** [queue.enqueued_media_items.append(media_item)], keeping the last 10. *)
Definition remember_enqueued (media_item : MediaItem.t)
    (q : PlayerQueue.t) : PlayerQueue.t :=
  let l := PlayerQueue.enqueued_media_items q ++ [media_item] in
  PlayerQueue.set_enqueued_media_items
    (if 10 <? Py.len l then drop 1 l else l) q.

(** The body of the loop [for item in media]. *)
Definition resolve_media (queue_id : string) (radio_mode : bool)
    (start_item : option string) (locals : resolve_locals)
    (item : media_ref) : M resolve_locals :=
  or_skip locals
    (read (λ _,
       match item with
       | MediaUri uri => get_item_by_uri mass uri
       | MediaSerialized d => media_from_dict mass d
       | MediaObject m => Ok m
       end)) (λ media_item,
  or_skip locals
    (if is_enqueued_media_type (MediaItem.media_type media_item)
     then queue_setattr queue_id (remember_enqueued media_item)
     else ret tt) (λ _,
  or_skip locals
    (match local_option locals with
     | Some queue_opt => ret queue_opt
     | None =>
         read (λ _,
           get_default_enqueue_option mass (MediaItem.media_type media_item))
     end) (λ queue_opt,
  let was_unset := bool_decide (local_option locals = None) in
  let locals :=
    mk_resolve_locals (Some queue_opt) (local_media_items locals)
      (local_radio_source locals) in
  or_skip locals
    (if was_unset && bool_decide (queue_opt = REPLACE)
     then clear queue_id else ret tt) (λ _,
  if radio_mode then
    ret (mk_resolve_locals (Some queue_opt) (local_media_items locals)
           (local_radio_source locals ++ [media_item]))
  else
    or_skip locals (_resolve_media_items media_item start_item) (λ resolved,
    ret (mk_resolve_locals (Some queue_opt)
           (local_media_items locals ++ (Some <$> resolved))
           (local_radio_source locals))))))).

Fixpoint resolve_all_media (queue_id : string) (radio_mode : bool)
    (start_item : option string) (locals : resolve_locals)
    (media : list media_ref) : M resolve_locals :=
  match media with
  | [] => ret locals
  | item :: rest =>
      locals ← resolve_media queue_id radio_mode start_item locals item;
      resolve_all_media queue_id radio_mode start_item locals rest
  end.

Definition option_is_add_or_next (queue_opt : option QueueOption) : bool :=
  match queue_opt with
  | Some ADD | Some NEXT => true
  | _ => false
  end.

(** The first part of [play_media], up to the media items to enqueue:
    the guard on announcements, the clearing of a finished queue, the
    resolution of the given media and the radio tracks. [None] is the
    early return; the media items are [None] when [_get_radio_tracks]
    returned [None]. *)
Definition play_media_collect (queue_id : string) (media : list media_ref)
    (queue_opt : option QueueOption) (radio_mode : bool)
    (start_item : option string)
  : M (option (option QueueOption * option (list (option MediaItem.t)))) :=
  queue ← read (λ self, queues_getitem self queue_id);
  queue_player ← read (λ _, players_get mass queue_id true);
  match queue_player with
  | None =>
      raise (AttributeError
               "'NoneType' object has no attribute 'announcement_in_progress'")
  | Some queue_player =>
  if Player.announcement_in_progress queue_player then
    log (LogWarning "Ignore queue command: An announcement is in progress") ;;
    ret None
  else
    (if Py.truthy (PlayerQueue.current_index queue) then
       queue_items ← read (λ self, queue_items_getitem self queue_id);
       if Py.len queue_items - 1 <=? default 0 (PlayerQueue.current_index queue)
       then
         queue_setattr queue_id (PlayerQueue.set_current_index None) ;;
         modify (λ self,
           with_queue_items (<[queue_id := []]> (_queue_items self)) self)
       else ret tt
     else ret tt) ;;
    (if bool_decide (queue_opt = Some REPLACE)
     then clear queue_id else ret tt) ;;
    (if option_is_add_or_next queue_opt then ret tt
     else queue_setattr queue_id (PlayerQueue.set_enqueued_media_items [])) ;;
    locals ←
      resolve_all_media queue_id radio_mode start_item
        (mk_resolve_locals queue_opt [] []) media;
    let queue_opt := local_option locals in
    (if option_is_add_or_next queue_opt then
       queue ← read (λ self, queues_getitem self queue_id);
       queue_setattr queue_id
         (PlayerQueue.set_radio_source
            (PlayerQueue.radio_source queue ++ local_radio_source locals))
     else
       queue_setattr queue_id
         (PlayerQueue.set_radio_source (local_radio_source locals))) ;;
    if radio_mode then
      tracks ← _get_radio_tracks queue_id true;
      ret (Some (queue_opt, fmap (M := list) Some <$> tracks))
    else ret (Some (queue_opt, Some (local_media_items locals)))
  end.

(** [x and x.available] *)
Definition is_playable (x : option MediaItem.t) : bool :=
  match x with
  | Some m => MediaItem.available m
  | None => false
  end.

(** [[QueueItem.from_media_item(queue_id, x) for x in media_items
     if x and x.available]] *)
Fixpoint queue_items_from_media (queue_id : string)
    (media_items : list (option MediaItem.t)) : M (list loc) :=
  match media_items with
  | [] => ret []
  | Some m :: rest =>
      if MediaItem.available m then
        r ← (λ self,
               new_object
                 (QueueItem.from_media_item queue_id
                    (new_queue_item_id mass (next_loc self)) m) self);
        rs ← queue_items_from_media queue_id rest;
        ret (r :: rs)
      else queue_items_from_media queue_id rest
  | None :: rest => queue_items_from_media queue_id rest
  end.

(** The second part of [play_media]: the queue items of the playable
    media items are loaded into the queue as the option tells. *)
Definition play_media_enqueue (queue_id : string)
    (queue_opt : option QueueOption) (radio_mode : bool)
    (media_items : option (list (option MediaItem.t))) : M unit :=
  match media_items with
  | None => raise (TypeError "'NoneType' object is not iterable")
  | Some media_items =>
  queue_items ← queue_items_from_media queue_id media_items;
  match queue_items with
  | [] => raise (MediaNotFoundError "No playable items found")
  | _ :: _ =>
  queue ← read (λ self, queues_getitem self queue_id);
  let cur_index :=
    if bool_decide (PlayerQueue.state queue = PLAYING)
       || bool_decide (PlayerQueue.state queue = PAUSED)
    then Py.or_int (PlayerQueue.index_in_buffer queue) 0
    else Py.or_int (PlayerQueue.current_index queue) 0 in
  stored ← read (λ self, Ok (_queue_items self !! queue_id));
  let insert_at_index :=
    match stored with
    | Some (_ :: _) => cur_index + 1
    | _ => 0
    end in
  let shuffle :=
    PlayerQueue.shuffle_enabled queue && (1 <? Py.len queue_items)
    && negb radio_mode in
  match queue_opt with
  | Some REPLACE =>
      load queue_id queue_items 0 false false shuffle ;;
      play_index queue_id (ByIndex 0) 0 (Some false) false
  | Some NEXT =>
      load queue_id queue_items insert_at_index true true shuffle
  | Some REPLACE_NEXT =>
      load queue_id queue_items insert_at_index false true shuffle
  | Some PLAY =>
      load queue_id queue_items insert_at_index true true shuffle ;;
      stored ← read (λ self, queue_items_getitem self queue_id);
      let next_index := Z.min insert_at_index (Py.len stored - 1) in
      play_index queue_id (ByIndex next_index) 0 (Some false) false
  | Some ADD =>
      stored ← read (λ self, queue_items_getitem self queue_id);
      load queue_id queue_items
        (if PlayerQueue.shuffle_enabled queue
         then insert_at_index else Py.len stored)
        true true (PlayerQueue.shuffle_enabled queue) ;;
      queue ← read (λ self, queues_getitem self queue_id);
      match PlayerQueue.current_index queue with
      | None =>
          queue_setattr queue_id (PlayerQueue.set_current_index (Some 0)) ;;
          first ← read (λ self, get_item self queue_id (Some (ByIndex 0)));
          queue_setattr queue_id (PlayerQueue.set_current_item first) ;;
          queue_setattr queue_id
            (PlayerQueue.set_items (Py.len queue_items)) ;;
          signal_update queue_id false
      | Some _ => ret tt
      end
  | None => ret tt
  end
  end
  end.

(** [play_media]: play media item(s) on the given queue. *)
Definition play_media (queue_id : string) (media : list media_ref)
    (queue_opt : option QueueOption) (radio_mode : bool)
    (start_item : option string) : M unit :=
  collected ← play_media_collect queue_id media queue_opt radio_mode start_item;
  match collected with
  | None => ret tt
  | Some (queue_opt, media_items) =>
      play_media_enqueue queue_id queue_opt radio_mode media_items
  end.

(** *** Lookups of the API *)

(** [get]: the queue with the given id, or [None] if there is none. *)
Definition get (self : Controller) (queue_id : string)
  : option PlayerQueue.t :=
  _queues self !! queue_id.

(** [l[i:j]]: both bounds are clamped, and the slice is empty when the
    first bound is not before the second. *)
Definition slice_between {A} (l : list A) (i j : Z) : list A :=
  take (Py.bound (Py.len l) j - Py.bound (Py.len l) i)%nat
    (drop (Py.bound (Py.len l) i) l).

(** [items]: the items of a queue, [limit] of them from [offset] on. *)
Definition items (self : Controller) (queue_id : string) (limit offset : Z)
  : list loc :=
  match _queue_items self !! queue_id with
  | None => []
  | Some queue_items => slice_between queue_items offset (offset + limit)
  end.

(** *** Settings of a queue *)

(** [set_repeat]: configure the repeat setting of the queue. *)
Definition set_repeat (queue_id : string) (repeat_mode : RepeatMode)
  : M unit :=
  queue ← read (λ self, queues_getitem self queue_id);
  if bool_decide (PlayerQueue.repeat_mode queue = repeat_mode)
  then ret tt
  else
    queue_setattr queue_id (PlayerQueue.set_repeat_mode repeat_mode) ;;
    signal_update queue_id false.

(** For each music provider, whether the similar tracks are among the
    features it supports. *)
Variable similar_tracks_supported : list bool.

(** [set_dont_stop_the_music]: configure the setting that keeps the music
    going with a radio of the enqueued media when the queue ends. *)
Definition set_dont_stop_the_music (queue_id : string)
    (dont_stop_the_music_enabled : bool) : M unit :=
  let providers_available_with_similar_tracks :=
    existsb id similar_tracks_supported in
  if dont_stop_the_music_enabled
     && negb providers_available_with_similar_tracks
  then
    raise (UnsupportedFeaturedException
             "Don't stop the music is not supported by any of the available music providers")
  else
    _ ← read (λ self, queues_getitem self queue_id);
    queue_setattr queue_id
      (PlayerQueue.set_dont_stop_the_music_enabled
         dont_stop_the_music_enabled) ;;
    signal_update queue_id false ;;
    queue ← read (λ self, queues_getitem self queue_id);
    match PlayerQueue.current_index queue with
    | Some current_index =>
        if PlayerQueue.dont_stop_the_music_enabled queue
           && (0 <? Py.len (PlayerQueue.enqueued_media_items queue))
           && (PlayerQueue.items queue - current_index <=? 1)
        then
          queue_setattr queue_id
            (PlayerQueue.set_radio_source
               (PlayerQueue.enqueued_media_items queue)) ;;
          create_task (FillRadioLater queue_id)
        else ret tt
    | None => ret tt
    end.

(** [track_loaded_in_buffer]: a player has started loading a track in
    its buffer. *)
Definition track_loaded_in_buffer (queue_id item_id : string) : M unit :=
  queue ← read (λ self, Ok (get self queue_id));
  match queue with
  | None =>
      raise (PlayerUnavailableError
               ("PlayerQueue " +:+ queue_id +:+ " is not available"))
  | Some _ =>
      index ← read (λ self, index_by_id self queue_id item_id);
      queue_setattr queue_id (PlayerQueue.set_index_in_buffer index) ;;
      signal_update queue_id false
  end.

(** *** Commands that move in the queue *)

(** [play_index] on a position that may be [None], as [seek] calls it
    with the current index: [None] names no item. *)
Definition play_index_at (queue_id : string) (index : option Z)
    (seek_position : Z) (fade_in : option bool) (debounce : bool)
  : M unit :=
  match index with
  | Some index =>
      play_index queue_id (ByIndex index) seek_position fade_in debounce
  | None =>
      _ ← read (λ self, queues_getitem self queue_id);
      queue_setattr queue_id (PlayerQueue.set_resume_pos 0) ;;
      raise (FileNotFoundError "Unknown index/id: None")
  end.

Definition is_MediaNotFoundError (e : exn) : bool :=
  match e with
  | MediaNotFoundError _ => true
  | _ => false
  end.

(** The loop of [next], from the index [idx]. The [while True] runs for
    at most [fuel] rounds; [None] is a run that needs more. *)
Fixpoint next_from (fuel : nat) (queue_id display_name : string)
    (idx : option Z) : M (option unit) :=
  match fuel with
  | O => ret None
  | S fuel =>
      try_except
        (next_index ←
           read (λ self, _get_next_index self queue_id idx true true);
         match next_index with
         | Some next_index =>
             play_index queue_id (ByIndex next_index) 0 (Some false) true
         | None => ret tt
         end ;;
         ret (Some tt))
        is_MediaNotFoundError
        (λ _,
           log (LogWarning
                  ("Failed to fetch next track for queue "
                     +:+ display_name +:+ " - trying next item")) ;;
           match idx with
           | Some idx =>
               next_from fuel queue_id display_name (Some (idx + 1))
           | None =>
               raise (TypeError
                        "unsupported operand type(s) for +=: 'NoneType' and 'int'")
           end)
  end.

(** [next]: the next track command. *)
Definition next (fuel : nat) (queue_id : string) : M (option unit) :=
  queue ← read (λ self, Ok (get self queue_id));
  match queue with
  | None => ret (Some tt)
  | Some queue =>
      if negb (PlayerQueue.active queue) then ret (Some tt)
      else
        current ← read (λ self, queues_getitem self queue_id);
        next_from fuel queue_id (PlayerQueue.display_name queue)
          (PlayerQueue.current_index current)
  end.

(** [previous]: the previous track command. *)
Definition previous (queue_id : string) : M unit :=
  queue ← read (λ self, Ok (get self queue_id));
  match queue with
  | None => ret tt
  | Some queue =>
      if negb (PlayerQueue.active queue) then ret tt
      else
        current ← read (λ self, queues_getitem self queue_id);
        match PlayerQueue.current_index current with
        | None => ret tt
        | Some current_index =>
            play_index queue_id (ByIndex (Z.max (current_index - 1) 0))
              0 (Some false) true
        end
  end.

(** [seek]: seek to a position, in seconds, in the current item. *)
Definition seek (queue_id : string) (position : Z) : M unit :=
  queue ← read (λ self, Ok (get self queue_id));
  match queue with
  | None => ret tt
  | Some queue =>
      queue_player ← read (λ _, players_get mass queue_id true);
      match PlayerQueue.current_item queue with
      | None =>
          match queue_player with
          | Some queue_player =>
              raise (InvalidCommand
                       ("Queue " +:+ Player.display_name queue_player
                          +:+ " has no item(s) loaded."))
          | None =>
              raise (AttributeError
                       "'NoneType' object has no attribute 'display_name'")
          end
      | Some current_item =>
          item ← read (λ self, Ok (objects self current_item));
          if negb (Py.truthy (QueueItem.duration item)) then
            raise (InvalidCommand "Can not seek items without duration.")
          else
            let position := Z.max 0 position in
            if default 0 (QueueItem.duration item) <? position then
              raise (InvalidCommand "Can not seek outside of duration range.")
            else
              play_index_at queue_id (PlayerQueue.current_index queue)
                position (Some false) false
      end
  end.

(** [skip]: skip a number of seconds in the current item, back if
    negative. *)
Definition skip (queue_id : string) (seconds : Z) : M unit :=
  queue ← read (λ self, Ok (get self queue_id));
  match queue with
  | None => ret tt
  | Some queue =>
      if negb (PlayerQueue.active queue) then ret tt
      else
        current ← read (λ self, queues_getitem self queue_id);
        seek queue_id (PlayerQueue.elapsed_time current + seconds)
  end.

(** *** The next item *)

(** [queue_item.media_item.available = False], if the item has a media
    item. *)
Definition mark_unavailable (i : QueueItem.t) : QueueItem.t :=
  match QueueItem.media_item i with
  | Some m =>
      QueueItem.set_media_item
        (Some (MediaItem.mk (MediaItem.media_type m) (MediaItem.item_id m)
                 (MediaItem.provider m) (MediaItem.uri m) (MediaItem.name m)
                 false (MediaItem.duration m)
                 (MediaItem.resume_position_ms m) (MediaItem.album m)
                 (MediaItem.image m))) i
  | None => i
  end.

(** The loop of [load_next_item], at the round [idx]; [None] is a run
    that needs more than [fuel] rounds. *)
Fixpoint load_next_from (fuel : nat) (queue_id : string)
    (cur_index : option Z) (idx : Z) : M (option loc) :=
  match fuel with
  | O => ret None
  | S fuel =>
      position ←
        match cur_index with
        | Some cur_index => ret (cur_index + idx)
        | None =>
            raise (TypeError
                     "unsupported operand type(s) for +: 'NoneType' and 'int'")
        end;
      next_index ←
        read (λ self,
          _get_next_index self queue_id (Some position) false true);
      match next_index with
      | None => raise (QueueEmpty "No more tracks left in the queue.")
      | Some next_index =>
          queue_item ←
            read (λ self, get_item self queue_id (Some (ByIndex next_index)));
          match queue_item with
          | None => raise (QueueEmpty "No more tracks left in the queue.")
          | Some queue_item =>
              try_except
                (_load_item queue_item (Some next_index) false 0 (Some false) ;;
                 ret (Some queue_item))
                is_MediaNotFoundError
                (λ _,
                   log (LogDebug "Skipping unplayable item: None") ;;
                   item_setattr queue_item mark_unavailable ;;
                   load_next_from fuel queue_id cur_index (idx + 1))
          end
      end
  end.

(** [load_next_item]: the next item that a player can load into its
    buffer, with its stream details. *)
Definition load_next_item (fuel : nat) (queue_id current_item_id : string)
  : M (option loc) :=
  queue ← read (λ self, Ok (get self queue_id));
  match queue with
  | None =>
      raise (PlayerUnavailableError
               ("PlayerQueue " +:+ queue_id +:+ " is not available"))
  | Some _ =>
      cur_index ← read (λ self, index_by_id self queue_id current_item_id);
      load_next_from fuel queue_id cur_index 0
  end.

(** [_get_next_item]: the next item of the queue. The [while True] runs
    for at most [fuel] rounds; [None] is a run that needs more. *)
Fixpoint _get_next_item (fuel : nat) (self : Controller)
    (queue_id : string) (cur_index : option Z)
  : option (result (option loc)) :=
  match fuel with
  | O => None
  | S fuel =>
      match _get_next_index self queue_id cur_index false true with
      | Raise e => Some (Raise e)
      | Ok None => Some (Ok None)
      | Ok (Some next_index) =>
          match get_item self queue_id (Some (ByIndex next_index)) with
          | Raise e => Some (Raise e)
          | Ok None => _get_next_item fuel self queue_id cur_index
          | Ok (Some next_item) =>
              match QueueItem.media_item (objects self next_item) with
              | Some media_item =>
                  if negb (MediaItem.available media_item)
                  then _get_next_item fuel self queue_id cur_index
                  else Some (Ok (Some next_item))
              | None => Some (Ok (Some next_item))
              end
          end
      end
  end.

(** *** Refilling and clearing *)

(** [_fill_radio_tracks]: fill the queue with more radio tracks. *)
Definition _fill_radio_tracks (queue_id : string) : M unit :=
  log (LogDebug ("Filling radio tracks for queue " +:+ queue_id)) ;;
  tracks ← _get_radio_tracks queue_id false;
  match tracks with
  | None => raise (TypeError "'NoneType' object is not iterable")
  | Some tracks =>
      queue_items ← queue_items_from_media queue_id (Some <$> tracks);
      stored ← read (λ self, queue_items_getitem self queue_id);
      load queue_id queue_items (Py.len stored + 1) true true false
  end.

(** The rounds of [_check_clear_queue]: a second of sleep, then the
    checks that the queue is still at its end; [false] is the early
    return. *)
Fixpoint check_clear_rounds (rounds : nat) (queue : PlayerQueue.t)
  : M bool :=
  match rounds with
  | O => ret true
  | S rounds =>
      create_task (Sleep 1) ;;
      if bool_decide (PlayerQueue.state queue ≠ IDLE) then ret false
      else
        match PlayerQueue.next_item queue with
        | Some _ => ret false
        | None =>
            queue_items ←
              read (λ self,
                queue_items_getitem self (PlayerQueue.queue_id queue));
            if negb (Py.len queue_items - 1
                     <=? Py.or_int (PlayerQueue.current_index queue) 0)
            then ret false
            else check_clear_rounds rounds queue
        end
  end.

(** [_check_clear_queue]: clear the queue if it stays at its end. *)
Definition _check_clear_queue (queue : PlayerQueue.t) : M unit :=
  at_end ← check_clear_rounds 5 queue;
  if (at_end : bool) then
    log (LogInfo "End of queue reached, clearing items") ;;
    clear (PlayerQueue.queue_id queue)
  else ret tt.

(** *** Notions used in the statements *)

(** The marker of the next track already enqueued on the player, for a
    queue of the controller. *)
Definition next_track_enqueued_of (self : Controller) (queue_id : string)
  : option (option string) :=
  PlayerQueue.next_track_enqueued <$> _queues self !! queue_id.

(** The items of [l] come in ascending order of [key]. *)
Definition ascending (key : loc → Z) (l : list loc) : Prop :=
  StronglySorted (λ x y, key x ≤ key y) l.
Definition strictly_ascending (key : loc → Z) (l : list loc) : Prop :=
  StronglySorted (λ x y, key x < key y) l.

(** The seconds of the play log entries already played in full. *)
Definition played_seconds (play_log : list PlayLogEntry.t) : Z :=
  foldr (λ e acc, play_log_seconds e + acc) 0 play_log.

(** Every entry of [play_log] is played in full at the elapsed time
    [elapsed], given the seconds [played] before it. *)
Fixpoint all_played (elapsed played : Z) (play_log : list PlayLogEntry.t)
  : Prop :=
  match play_log with
  | [] => True
  | e :: rest =>
      play_log_seconds e + played < elapsed
      ∧ all_played elapsed (played + play_log_seconds e) rest
  end.

(** [m] leaves the marker of [queue_id] reset when it returns. *)
Definition resets {A} (queue_id : string) (m : M A) : Prop :=
  ∀ self self' a,
    m self = (self', Ok a) →
    next_track_enqueued_of self' queue_id = Some None.

(** The marker of a queue of the controller follows its item list
    through [m]: however [m] ends, the queue is still there, a marker
    that was reset is still reset, and if the item list is not what it
    was, the marker is reset. *)
Definition marker_follows_items {A} (queue_id : string) (m : M A) : Prop :=
  ∀ self self' r,
    m self = (self', r) →
    is_Some (_queues self !! queue_id) →
    is_Some (_queues self' !! queue_id)
    ∧ (next_track_enqueued_of self queue_id = Some None →
       next_track_enqueued_of self' queue_id = Some None)
    ∧ (_queue_items self' !! queue_id ≠ _queue_items self !! queue_id →
       next_track_enqueued_of self' queue_id = Some None).

(** [m] leaves the part [view] of the controller as it is, however it
    ends. *)
Definition unchanged {V A} (view : Controller → V) (m : M A) : Prop :=
  ∀ self self' r, m self = (self', r) → view self' = view self.

(** The count [items] of every queue of the controller is the length of
    its item list. *)
Definition items_in_step (self : Controller) : Prop :=
  ∀ queue_id queue queue_items,
    _queues self !! queue_id = Some queue →
    _queue_items self !! queue_id = Some queue_items →
    PlayerQueue.items queue = Py.len queue_items.

(** Parts of the controller that statements speak of: the queues and
    their item lists; all but the queue item objects; the item lists and
    the repeat mode of each queue. *)
Definition queues_and_items (self : Controller)
  : gmap string PlayerQueue.t * gmap string (list loc) :=
  (_queues self, _queue_items self).

Definition all_but_objects (self : Controller) :=
  (_queues self, _queue_items self, next_loc self, random_tape self,
   events self, tasks self, logger self).

Definition items_and_repeat_modes (self : Controller)
  : gmap string (list loc) * gmap string RepeatMode :=
  (_queue_items self, PlayerQueue.repeat_mode <$> _queues self).

(** The queue as [play_index] leaves it when it starts the item
    [queue_item] at [index]. *)
Definition started_at (flow_mode : bool) (index : Z) (queue_item : loc)
    (queue : PlayerQueue.t) : PlayerQueue.t :=
  PlayerQueue.set_next_track_enqueued None
    (PlayerQueue.set_current_item (Some queue_item)
       (PlayerQueue.set_flow_mode flow_mode
          (PlayerQueue.set_flow_mode_stream_log []
             (PlayerQueue.set_index_in_buffer (Some index)
                (PlayerQueue.set_current_index (Some index)
                   (PlayerQueue.set_resume_pos 0 queue)))))).

(** [m] keeps the property [I] of the controller, however it ends. *)
Definition preserves {A} (I : Controller → Prop) (m : M A) : Prop :=
  ∀ self self' r, m self = (self', r) → I self → I self'.

(** *** Example data *)

Definition example_item (queue_item_id : string) (sort_index : Z)
  : QueueItem.t :=
  QueueItem.mk "player1" queue_item_id queue_item_id
    ("library://track/" +:+ queue_item_id) (Some 200) sort_index
    None None TRACK.

(** Four items a, b, c, d at the references 0 to 3, then a new item e. *)
Definition example_objects : loc → QueueItem.t :=
  λ r,
    match r with
    | 0%nat => example_item "a" 0
    | 1%nat => example_item "b" 1
    | 2%nat => example_item "c" 2
    | 3%nat => example_item "d" 3
    | _ => example_item "e" 0
    end.

Definition example_queue (current_index index_in_buffer : option Z)
    (shuffle_enabled : bool) (play_log : list PlayLogEntry.t)
  : PlayerQueue.t :=
  PlayerQueue.mk "player1" true "Player 1" true 4 shuffle_enabled RepeatOFF
    false current_index index_in_buffer 0 PLAYING None None [] [] true
    play_log (Some "b") 0.

Definition example_controller (queue : PlayerQueue.t)
    (queue_items : list loc) (tape : list nat) : Controller :=
  mkController {["player1" := queue]} {["player1" := queue_items]}
    example_objects 5%nat tape [] [] [].

Definition example_play_log : list PlayLogEntry.t :=
  [PlayLogEntry.mk "a" (Some 200) (Some 180);
   PlayLogEntry.mk "b" (Some 200) (Some 200)].

Definition example_player (announcing : bool) (elapsed : option Z)
  : Player.t :=
  Player.mk "player1" "Player 1" true true announcing None None elapsed.

Definition example_track (uri : string) : MediaItem.t :=
  MediaItem.mk TRACK uri "library" uri uri true 180 None None true.

(** Collaborators for the examples. A cached entry is [None] when it is
    unreadable. *)
Definition example_from_cache {A} (cached : option A) : result A :=
  match cached with
  | Some a => Ok a
  | None => Raise (ValueError "invalid value in cached snapshot")
  end.

(** A catalog that knows no uri, with the base tracks b0 to b5 for every
    radio source and the tracks [similar] similar to every track; a
    registry where every player is available and not announcing; a cache
    with the given state and items. *)
Definition example_mass (cached_state : option (option PlayerQueue.t))
    (cached_items : list (option QueueItem.t)) (similar : list string)
  : Collaborators (option PlayerQueue.t) (option QueueItem.t) unit :=
  {| cache_get_state := λ _, cached_state;
     cache_get_items := λ _, cached_items;
     PlayerQueue_from_cache := example_from_cache;
     QueueItem_from_cache := example_from_cache;
     players_get := λ player_id _,
       Ok (Some (Player.mk player_id "Player" true true false None None None));
     get_player_config_flow_mode := λ _, false;
     get_player_config_crossfade := λ _, false;
     get_default_enqueue_option := λ _, Ok PLAY;
     get_raw_core_config_value := λ _ default, default;
     get_item_by_uri := λ _, Raise (MediaNotFoundError "item not found");
     media_from_dict := λ _, Raise (MediaNotFoundError "item not found");
     get_library_item_by_prov_id := λ _, Ok None;
     radio_mode_base_tracks := λ _,
       Ok (example_track <$> ["b0"; "b1"; "b2"; "b3"; "b4"; "b5"]);
     similar_tracks := λ _ _, Ok (example_track <$> similar);
     artists_tracks := λ _ _, Ok [];
     artists_albums := λ _ _, Ok [];
     albums_tracks := λ _ _, Ok [];
     playlists_tracks := λ _, Ok [];
     get_audiobook_resume_point := λ _ _, Ok 0;
     get_next_podcast_episodes := λ _ _, Ok [];
     get_stream_details := λ _ seek_position _ _,
       Ok (StreamDetails.mk seek_position None false false);
     corrected_elapsed_time := PlayerQueue.elapsed_time;
     new_queue_item_id := λ n, "item" +:+ pretty n;
     set_listing := id |}.

(** A queue in radio mode on the source [seeds]. *)
Definition example_radio_controller (seeds : list MediaItem.t)
    (tape : list nat) : Controller :=
  mkController
    {["player1" :=
        PlayerQueue.mk "player1" true "Player 1" true 0 false RepeatOFF
          false None None 0 IDLE None None seeds [] false [] None 0]}
    {["player1" := []]} example_objects 5%nat tape [] [] [].

(** The items a, b, c, d after a shuffle behind the first item: the sort
    indexes are those that [load] left, the order is shuffled. *)
Definition example_shuffled_objects : loc → QueueItem.t :=
  λ r,
    match r with
    | 0%nat => example_item "a" 0
    | 1%nat => example_item "b" 2
    | 2%nat => example_item "c" 4
    | 3%nat => example_item "d" 6
    | _ => example_item "e" 0
    end.

Definition example_shuffled_controller : Controller :=
  mkController
    {["player1" := example_queue (Some 0) (Some 0) true []]}
    {["player1" := [0; 3; 1; 2]%nat]}
    example_shuffled_objects 5%nat [] [] [] [].

(** Six items a to f at the references 0 to 5, numbered in this order;
    the queue plays a, without shuffle. *)
Definition example_album_objects : loc → QueueItem.t :=
  λ r,
    match r with
    | 0%nat => example_item "a" 0
    | 1%nat => example_item "b" 1
    | 2%nat => example_item "c" 2
    | 3%nat => example_item "d" 3
    | 4%nat => example_item "e" 4
    | 5%nat => example_item "f" 5
    | _ => example_item "g" 0
    end.

Definition example_album_controller (tape : list nat) : Controller :=
  mkController
    {["player1" := example_queue (Some 0) (Some 0) false []]}
    {["player1" := [0; 1; 2; 3; 4; 5]%nat]}
    example_album_objects 7%nat tape [] [] [].

(** Two queues, for a transfer from the first to the second. *)
Definition example_two_queues : Controller :=
  mkController
    {["player1" := example_queue (Some 1) (Some 1) false [];
      "player2" :=
        PlayerQueue.mk "player2" true "Player 2" true 0 false RepeatOFF
          false None None 0 IDLE None None [] [] false [] (Some "x") 0]}
    {["player1" := [0; 1; 2; 3]%nat; "player2" := []]}
    example_objects 5%nat [] [] [] [].

(** The queue a, b, c, d at the given position, with the given repeat
    mode and player state. *)
Definition example_queue_at (repeat_mode : RepeatMode) (state : PlayerState)
    (current_index : option Z) (current_item : option loc)
    (elapsed_time : Z) : PlayerQueue.t :=
  PlayerQueue.mk "player1" true "Player 1" true 4 false repeat_mode false
    current_index current_index elapsed_time state current_item None [] []
    false [] None 0.

(** The queue a, b, c, d playing b, 150 seconds into the item. *)
Definition example_playing : Controller :=
  example_controller
    (example_queue_at RepeatOFF PLAYING (Some 1) (Some 1%nat) 150)
    [0; 1; 2; 3]%nat [].

(** The queue a, b, c, d, idle at its last item. *)
Definition example_finished : Controller :=
  example_controller
    (example_queue_at RepeatOFF IDLE (Some 3) (Some 3%nat) 0)
    [0; 1; 2; 3]%nat [].

(** The tracks t1 to t4 of an album or a playlist; t2 is not available. *)
Definition example_album_tracks : list MediaItem.t :=
  [example_track "t1";
   MediaItem.mk TRACK "t2" "library" "t2" "t2" false 180 None None true;
   example_track "t3";
   example_track "t4"].

(** The collaborators of the examples, with a catalog where every album
    and every playlist has the given tracks. *)
Definition example_album_mass (tracks : list MediaItem.t)
  : Collaborators (option PlayerQueue.t) (option QueueItem.t) unit :=
  let base := example_mass None [] [] in
  {| cache_get_state := cache_get_state base;
     cache_get_items := cache_get_items base;
     PlayerQueue_from_cache := PlayerQueue_from_cache base;
     QueueItem_from_cache := QueueItem_from_cache base;
     players_get := players_get base;
     get_player_config_flow_mode := get_player_config_flow_mode base;
     get_player_config_crossfade := get_player_config_crossfade base;
     get_default_enqueue_option := get_default_enqueue_option base;
     get_raw_core_config_value := get_raw_core_config_value base;
     get_item_by_uri := get_item_by_uri base;
     media_from_dict := media_from_dict base;
     get_library_item_by_prov_id := get_library_item_by_prov_id base;
     radio_mode_base_tracks := radio_mode_base_tracks base;
     similar_tracks := similar_tracks base;
     artists_tracks := artists_tracks base;
     artists_albums := artists_albums base;
     albums_tracks := λ _ _, Ok tracks;
     playlists_tracks := λ _, Ok tracks;
     get_audiobook_resume_point := get_audiobook_resume_point base;
     get_next_podcast_episodes := get_next_podcast_episodes base;
     get_stream_details := get_stream_details base;
     corrected_elapsed_time := corrected_elapsed_time base;
     new_queue_item_id := new_queue_item_id base;
     set_listing := set_listing base |}.

(** The queue a, b, c, d playing a, where the media item of b is not
    available. *)
Definition example_unavailable : Controller :=
  mkController
    {["player1" := example_queue_at RepeatOFF PLAYING (Some 0) (Some 0%nat) 0]}
    {["player1" := [0; 1; 2; 3]%nat]}
    (λ r,
       match r with
       | 1%nat =>
           QueueItem.mk "player1" "b" "b" "library://track/b" (Some 200) 1
             None
             (Some (MediaItem.mk TRACK "b" "library" "b" "b" false 180 None
                      None true))
             TRACK
       | _ => example_objects r
       end)
    5%nat [] [] [] [].

(** * Properties *)

(** ** Python lists *)

Lemma bound_nonneg (n i : Z) :
  0 ≤ i → 0 ≤ n → Py.bound n i = Z.to_nat (Z.min n i).
Proof.
  intros Hi Hn. unfold Py.bound.
  destruct (Z.ltb_spec i 0); [lia|]. f_equal. lia.
Qed.

Lemma slice_to_nonneg {A} (l : list A) (i : Z) :
  0 ≤ i → Py.slice_to l i = take (Z.to_nat i) l.
Proof.
  intros Hi. unfold Py.slice_to, Py.len.
  rewrite bound_nonneg by lia.
  destruct (Z.le_gt_cases (Z.of_nat (length l)) i).
  - rewrite Z.min_l by lia. rewrite Nat2Z.id.
    rewrite !take_ge by lia. done.
  - rewrite Z.min_r by lia. done.
Qed.

Lemma slice_from_nonneg {A} (l : list A) (i : Z) :
  0 ≤ i → Py.slice_from l i = drop (Z.to_nat i) l.
Proof.
  intros Hi. unfold Py.slice_from, Py.len.
  rewrite bound_nonneg by lia.
  destruct (Z.le_gt_cases (Z.of_nat (length l)) i).
  - rewrite Z.min_l by lia. rewrite Nat2Z.id.
    rewrite !drop_ge by lia. done.
  - rewrite Z.min_r by lia. done.
Qed.

(** ** Index resolution *)

(** C1, amended: [_get_next_index] follows the repeat semantics, where
    the end of the queue is every index at or past the last one. With an
    empty item list or no current index it returns none; with repeat-one
    and no explicit skip it returns the current index if repeats are
    allowed, else none; at or past the last index it returns 0 if repeats
    are allowed and the mode is repeat-all, else none; before the last
    index it returns the current index plus one. *)
Theorem get_next_index_repeat_semantics (self : Controller)
    (queue_id : string) (queue : PlayerQueue.t) (queue_items : list loc)
    (cur_index : option Z) (is_skip allow_repeat : bool) :
  _queues self !! queue_id = Some queue →
  _queue_items self !! queue_id = Some queue_items →
  (queue_items = [] ∨ cur_index = None →
     _get_next_index self queue_id cur_index is_skip allow_repeat = Ok None)
  ∧ ∀ i : Z,
      queue_items ≠ [] → cur_index = Some i →
      (PlayerQueue.repeat_mode queue = RepeatONE → is_skip = false →
         _get_next_index self queue_id cur_index is_skip allow_repeat
         = Ok (if allow_repeat then Some i else None))
      ∧ (PlayerQueue.repeat_mode queue ≠ RepeatONE ∨ is_skip = true →
         Py.len queue_items - 1 ≤ i →
         _get_next_index self queue_id cur_index is_skip allow_repeat
         = Ok (if allow_repeat
                  && bool_decide (PlayerQueue.repeat_mode queue = RepeatALL)
               then Some 0 else None))
      ∧ (PlayerQueue.repeat_mode queue ≠ RepeatONE ∨ is_skip = true →
         i < Py.len queue_items - 1 →
         _get_next_index self queue_id cur_index is_skip allow_repeat
         = Ok (Some (i + 1))).
Proof.
  intros Hq Hitems.
  unfold _get_next_index, queues_getitem, queue_items_getitem.
  rewrite Hq, Hitems. simpl. split.
  - intros [-> | ->]; [done|]. by destruct queue_items.
  - intros i Hne ->. destruct queue_items as [|x l]; [done|].
    split; [|split].
    + intros -> ->. done.
    + intros Hmode Hlast.
      replace (bool_decide (PlayerQueue.repeat_mode queue = RepeatONE)
               && negb is_skip) with false.
      2:{ destruct Hmode as [Hmode | ->].
          - by rewrite bool_decide_eq_false_2.
          - by rewrite andb_false_r. }
      destruct (Z.leb_spec (Py.len (x :: l) - 1) i); [|lia].
      by destruct (allow_repeat && _).
    + intros Hmode Hlast.
      replace (bool_decide (PlayerQueue.repeat_mode queue = RepeatONE)
               && negb is_skip) with false.
      2:{ destruct Hmode as [Hmode | ->].
          - by rewrite bool_decide_eq_false_2.
          - by rewrite andb_false_r. }
      destruct (Z.leb_spec (Py.len (x :: l) - 1) i); [lia|]. done.
Qed.

(** ** Items in the player's buffer *)

Lemma index_by_id_from_found (objs : loc → QueueItem.t) (start : Z)
    (queue_items : list loc) (i : nat) (item : loc) :
  queue_items !! i = Some item →
  ∃ j, index_by_id_from objs start queue_items
         (QueueItem.queue_item_id (objs item)) = Some j
       ∧ start ≤ j ≤ start + Z.of_nat i.
Proof.
  revert start i. induction queue_items as [|x l IH]; intros start i Hi.
  - done.
  - simpl. case_bool_decide as Hx.
    + exists start. split; [done|lia].
    + destruct i as [|i]; simpl in Hi.
      * simplify_eq.
      * destruct (IH (start + 1) i Hi) as (j & Hj & Hle).
        exists j. split; [done|lia].
Qed.

Lemma index_by_id_from_absent (objs : loc → QueueItem.t) (start : Z)
    (queue_items : list loc) (queue_item_id : string) :
  (∀ item, item ∈ queue_items →
     QueueItem.queue_item_id (objs item) ≠ queue_item_id) →
  index_by_id_from objs start queue_items queue_item_id = None.
Proof.
  revert start. induction queue_items as [|x l IH]; intros start Habs.
  - done.
  - simpl. rewrite bool_decide_eq_false_2.
    + apply IH. intros item Hin. apply Habs. by right.
    + apply Habs. by left.
Qed.

(** C2: on a queue whose [index_in_buffer] is set, an item at an index
    not after [index_in_buffer] can be neither moved nor deleted, and the
    item list stays as it is: [move_item] raises the "already
    played/buffered" [IndexError] and leaves the controller untouched;
    [delete_item], given the item's id or its index, logs a warning and
    returns with nothing but the log changed. *)
Theorem buffered_item_is_not_moved_or_deleted (self : Controller)
    (queue_id : string) (queue : PlayerQueue.t) (queue_items : list loc)
    (buffered : Z) (i : nat) (item : loc) :
  _queues self !! queue_id = Some queue →
  _queue_items self !! queue_id = Some queue_items →
  PlayerQueue.index_in_buffer queue = Some buffered →
  queue_items !! i = Some item →
  Z.of_nat i ≤ buffered →
  (∀ pos_shift : Z,
     ∃ j : Z,
       move_item queue_id (QueueItem.queue_item_id (objects self item))
         pos_shift self
       = (self, Raise (IndexError (pretty j +:+ " is already played/buffered"))))
  ∧ (∀ target : id_or_index,
       target = ById (QueueItem.queue_item_id (objects self item))
       ∨ target = ByIndex (Z.of_nat i) →
       ∃ self' : Controller,
         delete_item queue_id target self = (self', Ok tt)
         ∧ _queue_items self' = _queue_items self
         ∧ _queues self' = _queues self
         ∧ objects self' = objects self
         ∧ logger self'
           = logger self
             ++ [LogWarning "delete requested for item already loaded in buffer"]).
Proof.
  intros Hq Hitems Hbuf Hi Hle.
  destruct (index_by_id_from_found (objects self) 0 queue_items i item Hi)
    as (j & Hj & Hjle).
  split.
  - intros pos_shift. exists j.
    unfold move_item, mbind, M_bind, bind, read, raise.
    unfold queues_getitem, index_by_id, queue_items_getitem.
    rewrite Hq, Hitems. simpl. rewrite Hj, Hbuf. simpl.
    destruct (Z.leb_spec j buffered); [done|lia].
  - intros target Htarget.
    eexists. unfold delete_item, mbind, M_bind, bind, read, ret, log, modify.
    unfold queues_getitem, index_by_id, queue_items_getitem.
    destruct Htarget as [-> | ->]; rewrite ?Hitems; simpl;
      rewrite ?Hj, Hq; simpl; rewrite Hbuf; simpl.
    + destruct (Z.leb_spec j buffered); [|lia]. done.
    + destruct (Z.leb_spec (Z.of_nat i) buffered); [|lia]. done.
Qed.

(** C9: the guard of [move_item] compares the index of the item with
    [index_in_buffer] and needs both: when [index_in_buffer] is none, or
    when no item of the list has the given id, [move_item] raises the
    [TypeError] of the comparison and changes nothing. *)
Theorem move_item_compares_with_none (self : Controller)
    (queue_id : string) (queue : PlayerQueue.t) (queue_items : list loc)
    (queue_item_id : string) (pos_shift : Z) :
  _queues self !! queue_id = Some queue →
  _queue_items self !! queue_id = Some queue_items →
  PlayerQueue.index_in_buffer queue = None
  ∨ (∀ item, item ∈ queue_items →
       QueueItem.queue_item_id (objects self item) ≠ queue_item_id) →
  ∃ msg : string,
    move_item queue_id queue_item_id pos_shift self
    = (self, Raise (TypeError msg)).
Proof.
  intros Hq Hitems Hnone.
  unfold move_item, mbind, M_bind, bind, read, raise.
  unfold queues_getitem, index_by_id, queue_items_getitem.
  rewrite Hq, Hitems. simpl.
  destruct Hnone as [Hbuf | Habs].
  - rewrite Hbuf.
    destruct (index_by_id_from _ _ _ _); simpl; eauto.
  - rewrite (index_by_id_from_absent _ _ _ _ Habs). simpl. eauto.
Qed.

(** ** The flow-mode stream translation *)

Lemma index_by_id_from_Some (objs : loc → QueueItem.t) (start : Z)
    (queue_items : list loc) (queue_item_id : string) (j : Z) :
  index_by_id_from objs start queue_items queue_item_id = Some j →
  start ≤ j < start + Py.len queue_items
  ∧ ∃ item, queue_items !! Z.to_nat (j - start) = Some item
            ∧ QueueItem.queue_item_id (objs item) = queue_item_id.
Proof.
  unfold Py.len. revert start.
  induction queue_items as [|x l IH]; intros start Hj; [done|].
  simpl in Hj. case_bool_decide as Hx.
  - simplify_eq. split; [simpl; lia|].
    exists x. by rewrite Z.sub_diag.
  - destruct (IH _ Hj) as (Hrange & item & Hitem & Hid).
    split; [simpl length; lia|].
    exists item. split; [|done].
    replace (Z.to_nat (j - start)) with (S (Z.to_nat (j - (start + 1))))
      by lia. done.
Qed.

Lemma get_item_of_index (self : Controller) (queue_id : string)
    (queue_items : list loc) (queue_item_id : string) :
  _queue_items self !! queue_id = Some queue_items →
  get_item self queue_id
    (ByIndex <$> index_by_id_from (objects self) 0 queue_items queue_item_id)
  = Ok (index_by_id_from (objects self) 0 queue_items queue_item_id
          ≫= λ j, queue_items !! Z.to_nat j).
Proof.
  intros Hitems.
  destruct (index_by_id_from _ _ _ _) as [j|] eqn:Hj; [|done].
  destruct (index_by_id_from_Some _ _ _ _ _ Hj)
    as (Hrange & item & Hitem & _).
  rewrite Z.sub_0_r in Hitem. simpl.
  unfold get_item, queue_items_getitem. rewrite Hitems. simpl.
  destruct (Z.ltb_spec j (Py.len queue_items)); [|lia].
  unfold Py.getitem.
  assert (Hj0 : (j <? 0) = false) by (apply Z.ltb_ge; lia).
  assert (Hjn : (Py.len queue_items <=? j) = false) by (apply Z.leb_gt; lia).
  rewrite Hj0. simpl. rewrite Hj0, Hjn, Hitem. done.
Qed.

Lemma flow_stream_walk_finds (self : Controller) (queue_id : string)
    (queue_items : list loc) (elapsed : Z) (entry : PlayLogEntry.t)
    (rest : list PlayLogEntry.t) (played_log : list PlayLogEntry.t) :
  _queue_items self !! queue_id = Some queue_items →
  ∀ (played : Z) (queue_index : option Z) (track_time : Z),
    all_played elapsed played played_log →
    elapsed ≤ play_log_seconds entry + (played + played_seconds played_log) →
    flow_stream_walk self queue_id elapsed played queue_index track_time
      (played_log ++ entry :: rest)
    = Ok (index_by_id_from (objects self) 0 queue_items
            (PlayLogEntry.queue_item_id entry),
          elapsed
          + track_sec_skipped self
              (index_by_id_from (objects self) 0 queue_items
                 (PlayLogEntry.queue_item_id entry)
                 ≫= λ j, queue_items !! Z.to_nat j)
          - (played + played_seconds played_log)).
Proof.
  intros Hitems.
  induction played_log as [|e l IH]; intros played queue_index track_time.
  - intros _ Hle. simpl in *.
    destruct (Z.ltb_spec (play_log_seconds entry + played) elapsed); [lia|].
    unfold index_by_id, queue_items_getitem. rewrite Hitems. simpl.
    rewrite (get_item_of_index _ _ _ _ Hitems). simpl.
    by rewrite Z.add_0_r.
  - intros [Hlt Hall] Hle. simpl in *.
    destruct (Z.ltb_spec (play_log_seconds e + played) elapsed); [|lia].
    rewrite IH; [|done|lia]. do 3 f_equal. lia.
Qed.

(** C3, amended: when the queue has a current index,
    [_get_flow_queue_stream_index] walks the play log in order, adding
    the seconds of each entry played in full to the played time, and
    returns for the first entry whose boundary the elapsed time does not
    exceed the index of that entry's item, with the elapsed time of the
    track = elapsed - played + the seconds skipped by a seek in that
    item. (Without a current index the log is not walked: the method
    returns none and the total elapsed time.) *)
Theorem flow_stream_index_walks_the_log (self : Controller)
    (queue : PlayerQueue.t) (player : Player.t) (current_index : Z)
    (queue_items : list loc) (elapsed : Z)
    (played_log : list PlayLogEntry.t) (entry : PlayLogEntry.t)
    (rest : list PlayLogEntry.t) :
  PlayerQueue.current_index queue = Some current_index →
  _queue_items self !! PlayerQueue.queue_id queue = Some queue_items →
  Py.or_int (Player.corrected_elapsed_time player) 0 = elapsed →
  PlayerQueue.flow_mode_stream_log queue = played_log ++ entry :: rest →
  all_played elapsed 0 played_log →
  elapsed ≤ play_log_seconds entry + played_seconds played_log →
  ∃ (queue_index : option Z) (queue_item : option loc),
    index_by_id self (PlayerQueue.queue_id queue)
      (PlayLogEntry.queue_item_id entry) = Ok queue_index
    ∧ queue_item = queue_index ≫= (λ j, queue_items !! Z.to_nat j)
    ∧ _get_flow_queue_stream_index self queue player
      = Ok (queue_index,
            elapsed - played_seconds played_log
            + track_sec_skipped self queue_item).
Proof.
  intros Hcur Hitems Helapsed Hlog Hall Hle.
  eexists _, _. split; [|split; [reflexivity|]].
  - unfold index_by_id, queue_items_getitem. rewrite Hitems. done.
  - unfold _get_flow_queue_stream_index. rewrite Hcur, Helapsed, Hlog.
    rewrite (flow_stream_walk_finds _ _ _ _ _ _ _ Hitems); [|done|lia].
    do 2 f_equal. lia.
Qed.

(** ** Loading items *)

(** A full sample of a population is a permutation of it. *)
Lemma sample_draws_full {A} (pool : list A) :
  ∀ tape : list nat,
    (sample_draws tape pool (length pool)).1 ≡ₚ pool.
Proof.
  remember (length pool) as n eqn:Hn. revert pool Hn.
  induction n as [|n IH]; intros pool Hn tape.
  - destruct pool; [done|discriminate].
  - simpl.
    assert (Hlt : (hd 0%nat tape `mod` length pool < length pool)%nat).
    { apply Nat.mod_upper_bound. lia. }
    rewrite <- Hn.
    destruct (lookup_lt_is_Some_2 pool _ Hlt) as [x Hx].
    rewrite Hn, Hx.
    specialize (IH (delete (hd 0%nat tape `mod` length pool)%nat pool)).
    rewrite length_delete in IH by eauto.
    specialize (IH ltac:(lia) (tl tape)).
    destruct (sample_draws (tl tape) _ n) as [rest tape'] eqn:Hrest.
    simpl in *. rewrite IH. symmetry. by apply delete_Permutation.
Qed.

Lemma random_sample_all {A} (population : list A) (self : Controller) :
  ∃ (picked : list A) (tape' : list nat),
    random_sample population (Py.len population) self
    = (with_random_tape tape' self, Ok picked)
    ∧ picked ≡ₚ population.
Proof.
  unfold random_sample, Py.len.
  replace (Z.of_nat (length population) <? 0) with false
    by (symmetry; apply Z.ltb_ge; lia).
  rewrite Z.ltb_irrefl. simpl. rewrite Nat2Z.id.
  pose proof (sample_draws_full population (random_tape self)) as Hperm.
  destruct (sample_draws _ _ _) as [picked tape'].
  by exists picked, tape'.
Qed.

(** The loop of [load] over the enumerated items changes the objects
    only: the items outside the list keep their object; an item that
    occurs once gets its position (and the insert index) added to its
    sort index; nothing but the sort index changes. *)
Lemma bump_sort_indexes (insert_at_index : Z) (next_items : list loc) :
  ∀ (start : Z) (self : Controller),
    ∃ objs' : loc → QueueItem.t,
      for_each (Py.enumerate_from start next_items)
        (bump_sort_index insert_at_index) self
      = (with_objects objs' self, Ok tt)
      ∧ (∀ item, item ∉ next_items → objs' item = objects self item)
      ∧ (∀ item, QueueItem.queue_item_id (objs' item)
                 = QueueItem.queue_item_id (objects self item))
      ∧ (NoDup next_items →
         ∀ (i : nat) item, next_items !! i = Some item →
           QueueItem.sort_index (objs' item)
           = QueueItem.sort_index (objects self item)
             + (insert_at_index + (start + Z.of_nat i))).
Proof.
  induction next_items as [|x l IH]; intros start self.
  - exists (objects self). split; [by destruct self|]. done.
  - simpl. unfold bind at 1.
    unfold bump_sort_index at 1, item_setattr, modify. simpl.
    destruct (IH (start + 1)
                (with_objects
                   (store_update (objects self) x
                      (QueueItem.set_sort_index
                         (QueueItem.sort_index (objects self x)
                          + (insert_at_index + start)) (objects self x)))
                   self))
      as (objs' & Hrun & Hout & Hid & Hin).
    exists objs'. split; [|split; [|split]].
    + rewrite Hrun. done.
    + intros item Hitem. apply not_elem_of_cons in Hitem as [Hne Hitem].
      rewrite Hout by done. simpl. unfold store_update.
      rewrite bool_decide_eq_false_2 by done. done.
    + intros item. rewrite Hid. simpl. unfold store_update.
      by case_bool_decide; subst.
    + intros Hnodup i item Hi. apply NoDup_cons in Hnodup as [Hx Hnodup].
      destruct i as [|i]; simpl in Hi.
      * simplify_eq. rewrite Hout by done. simpl. unfold store_update.
        rewrite bool_decide_eq_true_2 by done. simpl. lia.
      * rewrite (Hin Hnodup i item Hi). simpl. unfold store_update.
        rewrite bool_decide_eq_false_2.
        2:{ intros ->. apply Hx. by eapply list_elem_of_lookup_2. }
        lia.
Qed.

(** [update_items] on a queue of the controller: the item list is
    replaced, the item count follows, the marker of the enqueued next
    track is reset, and the objects and the random source are kept. *)
Lemma update_items_spec (self : Controller) (queue_id : string)
    (queue : PlayerQueue.t) (queue_items : list loc) :
  _queues self !! queue_id = Some queue →
  ∃ self' : Controller,
    update_items queue_id queue_items self = (self', Ok tt)
    ∧ _queue_items self' = <[queue_id := queue_items]> (_queue_items self)
    ∧ _queues self'
      = <[queue_id :=
            PlayerQueue.set_next_track_enqueued None
              (PlayerQueue.set_items (Py.len queue_items) queue)]>
          (_queues self)
    ∧ objects self' = objects self
    ∧ random_tape self' = random_tape self
    ∧ logger self' = logger self.
Proof.
  intros Hq. eexists.
  unfold update_items, signal_update, signal_event, create_task.
  unfold mbind, M_bind, bind, read, modify, ret, queue_setattr.
  unfold queues_getitem, queue_items_getitem. simpl.
  rewrite lookup_insert_eq. simpl. rewrite Hq. simpl.
  repeat (rewrite lookup_insert_eq; simpl).
  split; [reflexivity|]. simpl.
  rewrite insert_insert_eq. done.
Qed.

(** What [load] does on a queue of the controller: the items before the
    insert index are kept if asked, the batch is the given items followed
    (if asked) by the old items from the insert index on, the sort index
    of each item of the batch grows by its position in the batch plus the
    insert index, and the batch is stored after the kept items, in order
    or (with [shuffle]) permuted as a whole. *)
Lemma load_spec (self : Controller) (queue_id : string)
    (queue : PlayerQueue.t) (old new : list loc) (insert_at_index : Z)
    (keep_remaining keep_played shuffle : bool) :
  _queues self !! queue_id = Some queue →
  _queue_items self !! queue_id = Some old →
  ∃ (self' : Controller) (next_items : list loc),
    load queue_id new insert_at_index keep_remaining keep_played shuffle self
    = (self', Ok tt)
    ∧ _queue_items self'
      = <[queue_id :=
            (if keep_played then Py.slice_to old insert_at_index else [])
            ++ next_items]> (_queue_items self)
    ∧ (if shuffle
       then next_items
            ≡ₚ (if keep_remaining
                then new ++ Py.slice_from old insert_at_index else new)
       else next_items
            = (if keep_remaining
               then new ++ Py.slice_from old insert_at_index else new))
    ∧ _queues self'
    = <[queue_id :=
          PlayerQueue.set_next_track_enqueued None
            (PlayerQueue.set_items
               (Py.len
                  ((if keep_played
                    then Py.slice_to old insert_at_index else [])
                   ++ next_items)) queue)]> (_queues self)
    ∧ (∀ item,
         item ∉ (if keep_remaining
                 then new ++ Py.slice_from old insert_at_index else new) →
         objects self' item = objects self item)
    ∧ (∀ item, QueueItem.queue_item_id (objects self' item)
               = QueueItem.queue_item_id (objects self item))
    ∧ (NoDup (if keep_remaining
              then new ++ Py.slice_from old insert_at_index else new) →
       ∀ (i : nat) item,
         (if keep_remaining
          then new ++ Py.slice_from old insert_at_index else new) !! i
         = Some item →
         QueueItem.sort_index (objects self' item)
         = QueueItem.sort_index (objects self item)
           + (insert_at_index + Z.of_nat i)).
Proof.
  intros Hq Hitems.
  set (prev := if keep_played then Py.slice_to old insert_at_index else []).
  set (batch := if keep_remaining
                then new ++ Py.slice_from old insert_at_index else new).
  destruct (bump_sort_indexes insert_at_index batch 0 self)
    as (objs' & Hbump & Hout & Hid & Hin).
  assert (Hprefix :
    load queue_id new insert_at_index keep_remaining keep_played shuffle
      self
    = ((if shuffle then random_sample batch (Py.len batch) else ret batch)
       ≫= λ next_items, update_items queue_id (prev ++ next_items))
        (with_objects objs' self)).
  { unfold load, mbind, M_bind, bind, read, ret.
    unfold queue_items_getitem. subst prev batch.
    destruct keep_played, keep_remaining; rewrite ?Hitems; simpl;
      unfold Py.enumerate; rewrite Hbump; done. }
  rewrite Hprefix. clear Hprefix.
  unfold mbind, M_bind, bind.
  destruct shuffle.
  - destruct (random_sample_all batch (with_objects objs' self))
      as (picked & tape' & Hsample & Hperm).
    rewrite Hsample.
    destruct (update_items_spec
                (with_random_tape tape' (with_objects objs' self))
                queue_id queue (prev ++ picked) Hq)
      as (self' & Hrun & Hi' & Hq' & Ho' & _).
    exists self', picked. rewrite Hrun.
    split; [done|]. split; [done|]. split; [done|].
    split; [exact Hq'|].
    rewrite Ho'. simpl. split; [done|]. split; [done|].
    intros Hnodup i item Hi. rewrite (Hin Hnodup i item Hi). lia.
  - unfold ret.
    destruct (update_items_spec (with_objects objs' self)
                queue_id queue (prev ++ batch) Hq)
      as (self' & Hrun & Hi' & Hq' & Ho' & _).
    exists self', batch. rewrite Hrun.
    split; [done|]. split; [done|]. split; [done|].
    split; [exact Hq'|].
    rewrite Ho'. simpl. split; [done|]. split; [done|].
    intros Hnodup i item Hi. rewrite (Hin Hnodup i item Hi). lia.
Qed.

(** C4, amended: on a queue of the controller, [load] with
    [keep_remaining] and [keep_played] and an insert index [k] (not
    negative) stores a list whose first [k] items are the old items
    before [k], untouched when they do not occur again after them; what
    follows is the new batch and then the old items from [k] on, in this
    order without [shuffle], and with [shuffle] a permutation of the two
    together (the same multiset: the old tail is shuffled along with the
    new items). *)
Theorem load_keeps_played_and_remaining (self : Controller)
    (queue_id : string) (queue : PlayerQueue.t) (old new : list loc)
    (k : Z) (shuffle : bool) :
  _queues self !! queue_id = Some queue →
  _queue_items self !! queue_id = Some old →
  0 ≤ k →
  ∃ (self' : Controller) (tail : list loc),
    load queue_id new k true true shuffle self = (self', Ok tt)
    ∧ _queue_items self' !! queue_id
      = Some (take (Z.to_nat k) old ++ tail)
    ∧ (shuffle = false → tail = new ++ drop (Z.to_nat k) old)
    ∧ (shuffle = true → tail ≡ₚ new ++ drop (Z.to_nat k) old)
    ∧ (∀ item, item ∉ new ++ drop (Z.to_nat k) old →
         objects self' item = objects self item).
Proof.
  intros Hq Hitems Hk.
  destruct (load_spec self queue_id queue old new k true true shuffle
              Hq Hitems)
    as (self' & tail & Hrun & Hi' & Htail & _ & Hout & _).
  rewrite slice_to_nonneg in Hi' by done.
  rewrite slice_from_nonneg in Htail, Hout by done.
  exists self', tail. split; [done|].
  split; [by rewrite Hi', lookup_insert_eq|].
  split; [by intros ->|]. split; [by intros ->|]. done.
Qed.

(** ** Shuffle *)

Lemma insert_by_key_perm (key : loc → Z) (x : loc) (l : list loc) :
  insert_by_key key x l ≡ₚ x :: l.
Proof.
  induction l as [|y l IH]; [done|]. simpl.
  destruct (key x <=? key y); [done|].
  rewrite IH. apply perm_swap.
Qed.

Lemma sort_by_key_perm (key : loc → Z) (l : list loc) :
  sort_by_key key l ≡ₚ l.
Proof.
  induction l as [|x l IH]; [done|]. simpl.
  by rewrite insert_by_key_perm, IH.
Qed.

Lemma insert_by_key_ascending (key : loc → Z) (x : loc) (l : list loc) :
  ascending key l → ascending key (insert_by_key key x l).
Proof.
  unfold ascending. induction 1 as [|y l Hl IH Hy]; simpl.
  - repeat constructor.
  - destruct (Z.leb_spec (key x) (key y)) as [Hle | Hgt].
    + constructor; [by constructor|].
      constructor; [done|].
      eapply Forall_impl; [exact Hy|]. simpl. intros z Hz. lia.
    + constructor; [done|].
      rewrite insert_by_key_perm. constructor; [lia|done].
Qed.

Lemma sort_by_key_ascending (key : loc → Z) (l : list loc) :
  ascending key (sort_by_key key l).
Proof.
  induction l as [|x l IH]; simpl.
  - constructor.
  - by apply insert_by_key_ascending.
Qed.

(** An ascending arrangement of items whose keys differ is unique. *)
Lemma ascending_perm_unique (key : loc → Z) (original : list loc) :
  strictly_ascending key original →
  ∀ l, ascending key l → l ≡ₚ original → l = original.
Proof.
  unfold ascending, strictly_ascending.
  induction 1 as [|a o Ho IH Ha]; intros l Hl Hperm.
  - by apply Permutation_nil_r.
  - destruct l as [|y l].
    { by apply Permutation_nil_cons in Hperm. }
    apply StronglySorted_inv in Hl as [Hl Hy].
    assert (y = a) as ->.
    { assert (Hyin : y ∈ a :: o) by (rewrite <- Hperm; by left).
      assert (Hain : a ∈ y :: l) by (rewrite Hperm; by left).
      apply elem_of_cons in Hyin as [-> | Hyin]; [done|].
      apply elem_of_cons in Hain as [-> | Hain]; [done|].
      rewrite Forall_forall in Ha, Hy.
      specialize (Ha y Hyin). specialize (Hy a Hain). lia. }
    f_equal. apply IH; [done|]. by apply Permutation_cons_inv in Hperm.
Qed.

(** Adding to ascending keys the position in the list makes them
    strictly ascending. *)
Lemma ascending_bumped (key key' : loc → Z) (l : list loc) :
  ascending key l →
  ∀ c : Z,
    (∀ (i : nat) item, l !! i = Some item →
       key' item = key item + (c + Z.of_nat i)) →
    strictly_ascending key' l.
Proof.
  unfold ascending, strictly_ascending.
  induction 1 as [|x l Hl IH Hx]; intros c Hkey.
  - constructor.
  - constructor.
    + apply (IH (c + 1)). intros i item Hi.
      rewrite (Hkey (S i) item Hi). lia.
    + rewrite Forall_forall in Hx. apply Forall_forall. intros z Hz.
      apply list_elem_of_lookup in Hz as [i Hi].
      rewrite (Hkey 0%nat x eq_refl), (Hkey (S i) z Hi).
      specialize (Hx z (list_elem_of_lookup_2 _ _ _ Hi)). lia.
Qed.

(** What [set_shuffle] does when it changes the setting of a queue with
    a buffered or current position [cur]: the items up to [cur] stay, the
    remaining items are sorted by sort index when the shuffle is disabled
    and permuted when it is enabled, and each of them (if they are
    distinct objects) gets its position before the permutation, counted
    from [cur + 1], added to its sort index. *)
Lemma set_shuffle_spec (self : Controller) (queue_id : string)
    (queue : PlayerQueue.t) (queue_items : list loc) (cur : Z)
    (shuffle_enabled : bool) :
  _queues self !! queue_id = Some queue →
  _queue_items self !! queue_id = Some queue_items →
  PlayerQueue.shuffle_enabled queue = negb shuffle_enabled →
  Py.or_ (PlayerQueue.index_in_buffer queue)
         (PlayerQueue.current_index queue) = Some cur →
  0 ≤ cur →
  ∃ (self' : Controller) (remaining : list loc),
    set_shuffle queue_id shuffle_enabled self = (self', Ok tt)
    ∧ _queue_items self'
      = <[queue_id := take (Z.to_nat (cur + 1)) queue_items ++ remaining]>
          (_queue_items self)
    ∧ (if shuffle_enabled
       then remaining ≡ₚ drop (Z.to_nat (cur + 1)) queue_items
       else remaining
            = sort_by_key (sort_index_of self)
                (drop (Z.to_nat (cur + 1)) queue_items))
    ∧ _queues self'
      = <[queue_id :=
            PlayerQueue.set_next_track_enqueued None
              (PlayerQueue.set_items
                 (Py.len (take (Z.to_nat (cur + 1)) queue_items ++ remaining))
                 (PlayerQueue.set_shuffle_enabled shuffle_enabled queue))]>
          (_queues self)
    ∧ (NoDup (drop (Z.to_nat (cur + 1)) queue_items) →
       ∀ (i : nat) item,
         (if shuffle_enabled
          then drop (Z.to_nat (cur + 1)) queue_items
          else sort_by_key (sort_index_of self)
                 (drop (Z.to_nat (cur + 1)) queue_items)) !! i = Some item →
         sort_index_of self' item
         = sort_index_of self item + (cur + 1 + Z.of_nat i)).
Proof.
  intros Hq Hitems Hshuffle Hcur Hpos.
  set (self1 :=
         with_queues
           (<[queue_id :=
                PlayerQueue.set_shuffle_enabled shuffle_enabled queue]>
              (_queues self)) self).
  set (batch :=
         if shuffle_enabled then drop (Z.to_nat (cur + 1)) queue_items
         else sort_by_key (sort_index_of self)
                (drop (Z.to_nat (cur + 1)) queue_items)).
  assert (Hbatch : batch ≡ₚ drop (Z.to_nat (cur + 1)) queue_items).
  { subst batch. destruct shuffle_enabled; [done|apply sort_by_key_perm]. }
  destruct (load_spec self1 queue_id
              (PlayerQueue.set_shuffle_enabled shuffle_enabled queue)
              queue_items batch (cur + 1) false true shuffle_enabled)
    as (self' & tail & Hrun & Hi' & Htail & Hq' & _ & _ & Hsort).
  { subst self1. simpl. by rewrite lookup_insert_eq. }
  { done. }
  rewrite slice_to_nonneg in Hi', Hq' by lia.
  exists self', tail. split; [|split; [|split; [|split]]].
  - unfold set_shuffle, mbind, M_bind, bind, read, ret, queue_setattr.
    unfold queues_getitem, queue_items_getitem.
    rewrite Hq. simpl. rewrite Hshuffle.
    rewrite bool_decide_eq_false_2 by (by destruct shuffle_enabled).
    rewrite Hq. simpl. rewrite Hitems. simpl. rewrite Hcur.
    rewrite slice_from_nonneg by lia.
    subst batch. destruct shuffle_enabled; exact Hrun.
  - exact Hi'.
  - subst batch. by destruct shuffle_enabled.
  - rewrite Hq'. subst self1. simpl. by rewrite insert_insert_eq.
  - intros Hnodup i item Hi. unfold sort_index_of.
    rewrite (Hsort ltac:(by rewrite Hbatch) i item Hi). done.
Qed.

(** Disabling shuffle on a queue with a buffered or current position
    [cur] (the items of the queue being distinct objects) keeps the items
    up to that position and puts the remaining items in ascending
    [sort_index] order: they are the same items, ascending by the sort
    indexes they had and by the ones they have afterwards; and whenever
    the sort indexes increase strictly along an order of the remaining
    items, the remaining items are back in exactly that order. *)
Theorem disabling_shuffle_restores_sort_order (self : Controller)
    (queue_id : string) (queue : PlayerQueue.t) (queue_items : list loc)
    (cur : Z) :
  _queues self !! queue_id = Some queue →
  _queue_items self !! queue_id = Some queue_items →
  PlayerQueue.shuffle_enabled queue = true →
  Py.or_ (PlayerQueue.index_in_buffer queue)
         (PlayerQueue.current_index queue) = Some cur →
  0 ≤ cur →
  NoDup queue_items →
  ∃ (self' : Controller) (remaining : list loc),
    set_shuffle queue_id false self = (self', Ok tt)
    ∧ _queue_items self' !! queue_id
      = Some (take (Z.to_nat (cur + 1)) queue_items ++ remaining)
    ∧ remaining ≡ₚ drop (Z.to_nat (cur + 1)) queue_items
    ∧ ascending (sort_index_of self) remaining
    ∧ strictly_ascending (sort_index_of self') remaining
    ∧ (∀ original : list loc,
         original ≡ₚ drop (Z.to_nat (cur + 1)) queue_items →
         strictly_ascending (sort_index_of self) original →
         remaining = original).
Proof.
  intros Hq Hitems Hshuffle Hcur Hpos Hnodup.
  destruct (set_shuffle_spec self queue_id queue queue_items cur false
              Hq Hitems Hshuffle Hcur Hpos)
    as (self' & remaining & Hrun & Hi' & -> & _ & Hsort).
  assert (Hnodup' : NoDup (drop (Z.to_nat (cur + 1)) queue_items)).
  { rewrite <- (take_drop (Z.to_nat (cur + 1))) in Hnodup.
    by apply NoDup_app in Hnodup as (_ & _ & ?). }
  eexists self', _. split; [exact Hrun|].
  split; [by rewrite Hi', lookup_insert_eq|].
  split; [apply sort_by_key_perm|].
  split; [apply sort_by_key_ascending|].
  split.
  - eapply (ascending_bumped _ _ _ (sort_by_key_ascending _ _) (cur + 1)).
    exact (Hsort Hnodup').
  - intros original Horig Hstrict.
    apply (ascending_perm_unique _ _ Hstrict).
    + apply sort_by_key_ascending.
    + by rewrite sort_by_key_perm, Horig.
Qed.

(** Enabling and then disabling shuffle at the same position gives back
    the item list, when the sort indexes of the remaining items were
    ascending, as [load] leaves them. *)
Lemma shuffle_round_trip (self : Controller) (queue_id : string)
    (queue : PlayerQueue.t) (queue_items : list loc) (cur : Z) :
  _queues self !! queue_id = Some queue →
  _queue_items self !! queue_id = Some queue_items →
  PlayerQueue.shuffle_enabled queue = false →
  Py.or_ (PlayerQueue.index_in_buffer queue)
         (PlayerQueue.current_index queue) = Some cur →
  0 ≤ cur →
  NoDup queue_items →
  ascending (sort_index_of self) (drop (Z.to_nat (cur + 1)) queue_items) →
  ∃ self1 self2 : Controller,
    set_shuffle queue_id true self = (self1, Ok tt)
    ∧ set_shuffle queue_id false self1 = (self2, Ok tt)
    ∧ _queue_items self2 !! queue_id = Some queue_items.
Proof.
  intros Hq Hitems Hshuffle Hcur Hpos Hnodup Hasc.
  set (n := Z.to_nat (cur + 1)).
  assert (Hnodup' : NoDup (drop n queue_items)).
  { rewrite <- (take_drop n) in Hnodup.
    by apply NoDup_app in Hnodup as (_ & _ & ?). }
  destruct (set_shuffle_spec self queue_id queue queue_items cur true
              Hq Hitems Hshuffle Hcur Hpos)
    as (self1 & shuffled & Hrun1 & Hi1 & Hperm1 & Hq1 & Hsort1).
  fold n in Hi1, Hperm1, Hq1, Hsort1.
  assert (Hstrict : strictly_ascending (sort_index_of self1)
                      (drop n queue_items)).
  { eapply (ascending_bumped _ _ _ Hasc (cur + 1)). exact (Hsort1 Hnodup'). }
  assert (Htake : take n (take n queue_items ++ shuffled) = take n queue_items
                  ∧ drop n (take n queue_items ++ shuffled) = shuffled).
  { destruct (decide (n ≤ length queue_items)%nat) as [Hle|Hgt].
    - rewrite take_app_length', drop_app_length' by (rewrite length_take; lia).
      done.
    - assert (shuffled = []) as ->.
      { apply Permutation_nil_r. rewrite Hperm1, drop_ge by lia. done. }
      rewrite app_nil_r, take_take, drop_ge by (rewrite length_take; lia).
      rewrite Nat.min_id. done. }
  destruct Htake as [Htake Hdrop].
  destruct (set_shuffle_spec self1 queue_id
              (PlayerQueue.set_next_track_enqueued None
                 (PlayerQueue.set_items
                    (Py.len (take n queue_items ++ shuffled))
                    (PlayerQueue.set_shuffle_enabled true queue)))
              (take n queue_items ++ shuffled) cur false)
    as (self2 & remaining & Hrun2 & Hi2 & Hrem & _).
  { by rewrite Hq1, lookup_insert_eq. }
  { by rewrite Hi1, lookup_insert_eq. }
  { done. }
  { done. }
  { done. }
  fold n in Hi2, Hrem. rewrite Htake in Hi2. rewrite Hdrop in Hrem.
  exists self1, self2. split; [done|]. split; [done|].
  rewrite Hi2, lookup_insert_eq. f_equal.
  rewrite <- (take_drop n queue_items) at 2. f_equal.
  rewrite Hrem. apply (ascending_perm_unique _ _ Hstrict).
  - apply sort_by_key_ascending.
  - by rewrite sort_by_key_perm.
Qed.

(** ** The marker of the enqueued next track *)

Lemma follows_bind {A B} (queue_id : string) (m : M A) (k : A → M B) :
  marker_follows_items queue_id m →
  (∀ a, marker_follows_items queue_id (k a)) →
  marker_follows_items queue_id (m ≫= k).
Proof.
  intros Hm Hk self self' r. unfold mbind, M_bind, bind.
  destruct (m self) as [self1 [a|e]] eqn:Hrun; intros Heq Hsome.
  - destruct (Hm _ _ _ Hrun Hsome) as (Hsome1 & Hkeep1 & Hnew1).
    destruct (Hk a _ _ _ Heq Hsome1) as (Hsome2 & Hkeep2 & Hnew2).
    split; [done|]. split; [by auto|].
    intros Hne.
    destruct (decide (_queue_items self1 !! queue_id
                      = _queue_items self !! queue_id)) as [Heq1|Hne1].
    + apply Hnew2. by rewrite Heq1.
    + by auto.
  - simplify_eq. by eapply Hm.
Qed.

Lemma follows_ret {A} (queue_id : string) (a : A) :
  marker_follows_items queue_id (ret a).
Proof. intros self self' r Heq. unfold ret in Heq. by simplify_eq. Qed.

Lemma follows_raise {A} (queue_id : string) (e : exn) :
  marker_follows_items queue_id (raise (A := A) e).
Proof. intros self self' r Heq. unfold raise in Heq. by simplify_eq. Qed.

Lemma follows_read {A} (queue_id : string) (f : Controller → result A) :
  marker_follows_items queue_id (read f).
Proof. intros self self' r Heq. unfold read in Heq. by simplify_eq. Qed.

Lemma follows_modify (queue_id : string) (f : Controller → Controller) :
  (∀ self, _queues (f self) = _queues self
           ∧ _queue_items (f self) = _queue_items self) →
  marker_follows_items queue_id (modify f).
Proof.
  intros Hf self self' r Heq. unfold modify in Heq. simplify_eq.
  unfold next_track_enqueued_of. destruct (Hf self) as [-> ->]. done.
Qed.

Lemma follows_queue_setattr (queue_id target : string)
    (set : PlayerQueue.t → PlayerQueue.t) :
  (∀ q, PlayerQueue.next_track_enqueued q = None →
        PlayerQueue.next_track_enqueued (set q) = None) →
  marker_follows_items queue_id (queue_setattr target set).
Proof.
  intros Hset self self' r Heq Hsome. unfold queue_setattr in Heq.
  unfold next_track_enqueued_of.
  destruct (_queues self !! target) as [q|] eqn:Hq; simplify_eq; [|done].
  simpl. destruct (decide (target = queue_id)) as [->|Hne].
  - rewrite Hq, lookup_insert_eq. simpl.
    split; [done|]. split; [|done]. intros [= Hnone]. by rewrite Hset.
  - by rewrite lookup_insert_ne.
Qed.

Lemma follows_for_each {A} (queue_id : string) (l : list A)
    (body : A → M unit) :
  (∀ x, marker_follows_items queue_id (body x)) →
  marker_follows_items queue_id (for_each l body).
Proof.
  intros Hbody. induction l as [|x l IH]; simpl.
  - apply follows_ret.
  - apply (follows_bind (B := unit)); [done|]. intros _. exact IH.
Qed.

Lemma follows_random_sample {A} (queue_id : string) (l : list A) (k : Z) :
  marker_follows_items queue_id (random_sample l k).
Proof.
  intros self self' r Heq. unfold random_sample in Heq.
  destruct ((k <? 0) || (Py.len l <? k)); simplify_eq; [done|].
  destruct (sample_draws _ _ _). by simplify_eq.
Qed.

Create HintDb follows discriminated.

Ltac follows_step :=
  first
    [ solve [auto 1 with follows nocore]
    | apply follows_ret
    | apply follows_raise
    | apply follows_read
    | apply follows_random_sample
    | apply follows_modify; by intros []
    | apply follows_queue_setattr; by intros []
    | apply follows_for_each; intros ?
    | apply follows_bind; [|intros ?]
    | match goal with
      | |- marker_follows_items _ (if ?b then _ else _) => destruct b
      | |- marker_follows_items _ (match ?x with _ => _ end) => destruct x
      end ].

Ltac follows_auto := repeat follows_step.

Lemma signal_update_follows (queue_id target : string) (b : bool) :
  marker_follows_items queue_id (signal_update target b).
Proof.
  unfold signal_update, signal_event, create_task. follows_auto.
Qed.
#[local] Hint Resolve signal_update_follows : follows.

(** [update_items] stores the new list and, on a queue of the
    controller, never fails to reset the marker. *)
Lemma update_items_follows (queue_id target : string) (l : list loc) :
  marker_follows_items queue_id (update_items target l).
Proof.
  intros self self' r Heq Hsome.
  destruct (decide (target = queue_id)) as [->|Hne].
  - destruct Hsome as [queue Hq].
    destruct (update_items_spec self queue_id queue l Hq)
      as (self1 & Hrun & _ & Hq' & _).
    rewrite Hrun in Heq. simplify_eq.
    unfold next_track_enqueued_of. rewrite Hq', lookup_insert_eq. done.
  - assert (Hframe : _queue_items self' !! queue_id
                     = _queue_items self !! queue_id
                     ∧ _queues self' !! queue_id = _queues self !! queue_id).
    { revert Heq.
      unfold update_items, signal_update, signal_event, create_task.
      unfold mbind, M_bind, bind, read, modify, ret, queue_setattr.
      unfold queues_getitem, queue_items_getitem. simpl.
      rewrite lookup_insert_eq. simpl.
      destruct (_queues self !! target) as [q|] eqn:Hq; simpl.
      - repeat (rewrite lookup_insert_eq; simpl).
        intros. simplify_eq. simpl. by rewrite !lookup_insert_ne.
      - intros. simplify_eq. simpl. by rewrite lookup_insert_ne. }
    destruct Hframe as [Hi Hq]. unfold next_track_enqueued_of.
    rewrite Hi, Hq. done.
Qed.
#[local] Hint Resolve update_items_follows : follows.

Lemma load_follows (queue_id target : string) (l : list loc) (k : Z)
    (keep_remaining keep_played shuffle : bool) :
  marker_follows_items queue_id
    (load target l k keep_remaining keep_played shuffle).
Proof. unfold load, bump_sort_index, item_setattr. follows_auto. Qed.
#[local] Hint Resolve load_follows : follows.

Lemma clear_follows (queue_id target : string) :
  marker_follows_items queue_id (clear target).
Proof. unfold clear, create_task. follows_auto. Qed.
#[local] Hint Resolve clear_follows : follows.

Lemma set_shuffle_follows (queue_id target : string) (b : bool) :
  marker_follows_items queue_id (set_shuffle target b).
Proof. unfold set_shuffle. follows_auto. Qed.

Lemma move_item_follows (queue_id target queue_item_id : string)
    (pos_shift : Z) :
  marker_follows_items queue_id (move_item target queue_item_id pos_shift).
Proof. unfold move_item. follows_auto. Qed.
#[local] Hint Resolve move_item_follows : follows.

(** In [delete_item] the stored list is popped in place just before
    [update_items] runs on it. *)
Lemma pop_then_update_follows (queue_id target : string) (l : list loc) :
  marker_follows_items queue_id
    (modify (λ self,
       with_queue_items (<[target := l]> (_queue_items self)) self) ;;
     update_items target l).
Proof.
  intros self self' r Heq Hsome.
  assert (Heq' : update_items target l self = (self', r)).
  { rewrite <- Heq.
    unfold update_items, mbind, M_bind, bind, modify. simpl.
    by rewrite insert_insert_eq. }
  by eapply update_items_follows.
Qed.
#[local] Hint Resolve pop_then_update_follows : follows.

Lemma delete_item_follows (queue_id target : string)
    (item_id_or_index : id_or_index) :
  marker_follows_items queue_id (delete_item target item_id_or_index).
Proof. unfold delete_item, log. follows_auto. Qed.
#[local] Hint Resolve delete_item_follows : follows.

Lemma _load_item_follows (queue_id : string) (queue_item : loc)
    (next_index : option Z) (is_start : bool) (seek_position : Z)
    (fade_in : option bool) :
  marker_follows_items queue_id
    (_load_item queue_item next_index is_start seek_position fade_in).
Proof. unfold _load_item, item_setattr. follows_auto. Qed.
#[local] Hint Resolve _load_item_follows : follows.

Lemma play_index_follows (queue_id target : string)
    (index : id_or_index) (seek_position : Z) (fade_in : option bool)
    (debounce : bool) :
  marker_follows_items queue_id
    (play_index target index seek_position fade_in debounce).
Proof. unfold play_index, create_task. follows_auto. Qed.
#[local] Hint Resolve play_index_follows : follows.

Lemma resume_follows (queue_id target : string) (fade_in : option bool) :
  marker_follows_items queue_id (resume target fade_in).
Proof. unfold resume. follows_auto. Qed.
#[local] Hint Resolve resume_follows : follows.

Lemma transfer_queue_follows (queue_id source_queue_id target_queue_id :
    string) (auto_play : option bool) :
  marker_follows_items queue_id
    (transfer_queue source_queue_id target_queue_id auto_play).
Proof.
  unfold transfer_queue, item_setattr, create_task. follows_auto.
Qed.

Lemma resets_bind {A B} (queue_id : string) (m : M A) (k : A → M B) :
  (∀ a, resets queue_id (k a)) → resets queue_id (m ≫= k).
Proof.
  intros Hk self self' b. unfold mbind, M_bind, bind.
  destruct (m self) as [self1 [a|e]]; intros Heq; [|done].
  by eapply Hk.
Qed.

Lemma update_items_resets (queue_id : string) (l : list loc) :
  resets queue_id (update_items queue_id l).
Proof.
  unfold update_items. do 4 (apply resets_bind; intros ?).
  intros self self' u Heq. unfold queue_setattr in Heq.
  destruct (_queues self !! queue_id) as [q|]; simplify_eq.
  unfold next_track_enqueued_of. simpl. by rewrite lookup_insert_eq.
Qed.

Lemma load_resets (queue_id : string) (l : list loc) (k : Z)
    (keep_remaining keep_played shuffle : bool) :
  resets queue_id (load queue_id l k keep_remaining keep_played shuffle).
Proof.
  unfold load. do 4 (apply resets_bind; intros ?).
  apply update_items_resets.
Qed.

Lemma clear_resets (queue_id : string) :
  resets queue_id (clear queue_id).
Proof.
  unfold clear. do 7 (apply resets_bind; intros ?).
  apply update_items_resets.
Qed.


(** With the marker reset, the preload is never held back by the
    marker: only a missing current or next item holds it back. *)
Lemma reset_marker_does_not_suppress_preload (self : Controller)
    (queue : PlayerQueue.t) :
  PlayerQueue.next_track_enqueued queue = None →
  preload_is_suppressed self queue = true →
  PlayerQueue.current_item queue = None
  ∨ PlayerQueue.next_item queue = None.
Proof.
  intros Hnone. unfold preload_is_suppressed. rewrite Hnone.
  destruct (PlayerQueue.current_item queue); [|by left].
  destruct (PlayerQueue.next_item queue); [|by right].
  by rewrite bool_decide_eq_false_2.
Qed.

(** ** Restoring a queue at registration *)

(** A snapshot whose state cannot be read: the handler logs a warning,
    and the registration goes on with an empty queue. *)
Lemma register_with_unreadable_state (self : Controller)
    (player : Player.t) (prev_state : CachedState) (err : exn) :
  cache_get_state mass (Player.player_id player) = Some prev_state →
  PlayerQueue_from_cache mass prev_state = Raise err →
  on_player_register player self
  = (on_player_update player ;;
     signal_event QUEUE_ADDED (Player.player_id player))
      (mkController
         (<[Player.player_id player := empty_queue player]> (_queues self))
         (<[Player.player_id player := []]> (_queue_items self))
         (objects self) (next_loc self) (random_tape self) (events self)
         (tasks self)
         (logger self
            ++ [LogWarning ("Failed to restore the queue(items) for "
                              +:+ Player.display_name player)])).
Proof.
  intros Hstate Hbad.
  unfold on_player_register, restore_previous_state, restore_failed, log.
  unfold mbind, M_bind, bind, modify, ret. rewrite Hstate, Hbad. done.
Qed.

(** A snapshot whose state can be read but whose items cannot: the
    handler logs the warning, the restored queue is kept and stored, and
    the registration raises on the item list that was never assigned. *)
Lemma register_with_unreadable_items (self : Controller)
    (player : Player.t) (prev_state : CachedState) (queue : PlayerQueue.t)
    (err : exn) :
  cache_get_state mass (Player.player_id player) = Some prev_state →
  PlayerQueue_from_cache mass prev_state = Ok queue →
  result_map (QueueItem_from_cache mass)
    (cache_get_items mass (Player.player_id player))
  = Raise err →
  on_player_register player self
  = (mkController
       (<[Player.player_id player := queue]> (_queues self))
       (_queue_items self) (objects self) (next_loc self)
       (random_tape self) (events self) (tasks self)
       (logger self
          ++ [LogWarning ("Failed to restore the queue(items) for "
                            +:+ Player.display_name player)]),
     Raise (UnboundLocalError "queue_items")).
Proof.
  intros Hstate Hqueue Hbad.
  unfold on_player_register, restore_previous_state, restore_failed, log.
  unfold mbind, M_bind, bind, modify, ret, raise.
  rewrite Hstate, Hqueue, Hbad. done.
Qed.

(** ** Enqueueing media *)

Lemma queue_items_from_media_unplayable (self : Controller)
    (queue_id : string) (media_items : list (option MediaItem.t)) :
  Forall (λ x, is_playable x = false) media_items →
  queue_items_from_media queue_id media_items self = (self, Ok []).
Proof.
  induction 1 as [|x l Hx Hl IH]; [done|].
  simpl. destruct x as [m|]; simpl in Hx; [rewrite Hx|]; exact IH.
Qed.

(** Once the media are resolved and expanded, [play_media] fails with
    "not found" when none of the resulting items is playable. *)
Lemma play_media_without_playable_items (self self1 : Controller)
    (queue_id : string) (media : list media_ref)
    (queue_opt queue_opt' : option QueueOption) (radio_mode : bool)
    (start_item : option string)
    (media_items : list (option MediaItem.t)) :
  play_media_collect queue_id media queue_opt radio_mode start_item self
  = (self1, Ok (Some (queue_opt', Some media_items))) →
  Forall (λ x, is_playable x = false) media_items →
  play_media queue_id media queue_opt radio_mode start_item self
  = (self1, Raise (MediaNotFoundError "No playable items found")).
Proof.
  intros Hcollect Hnone.
  unfold play_media, mbind, M_bind, bind. rewrite Hcollect.
  unfold play_media_enqueue, mbind, M_bind, bind.
  by rewrite queue_items_from_media_unplayable.
Qed.

(** In radio mode without a radio source, [_get_radio_tracks] returns
    [None] and [play_media] fails on iterating it. *)
Lemma play_media_without_radio_tracks (self self1 : Controller)
    (queue_id : string) (media : list media_ref)
    (queue_opt queue_opt' : option QueueOption) (radio_mode : bool)
    (start_item : option string) :
  play_media_collect queue_id media queue_opt radio_mode start_item self
  = (self1, Ok (Some (queue_opt', None))) →
  play_media queue_id media queue_opt radio_mode start_item self
  = (self1, Raise (TypeError "'NoneType' object is not iterable")).
Proof.
  intros Hcollect.
  unfold play_media, mbind, M_bind, bind. by rewrite Hcollect.
Qed.

(** ** Radio tracks *)

(** With at most two dynamic tracks, the interleaving appends all of
    them after every base track it is given, whatever was appended
    before. *)
Lemma interleave_with_few_dynamic_tracks (self : Controller)
    (dynamic_tracks : list MediaItem.t) :
  Py.len dynamic_tracks ≤ 2 →
  ∀ base_tracks queue_tracks,
    interleave_base_tracks base_tracks dynamic_tracks queue_tracks self
    = (self,
       Ok (queue_tracks
             ++ concat ((λ base_track, base_track :: dynamic_tracks)
                          <$> base_tracks))).
Proof.
  intros Hfew. induction base_tracks as [|b l IH]; intros queue_tracks.
  - simpl. unfold ret. by rewrite app_nil_r.
  - simpl. unfold mbind, M_bind, bind.
    destruct (Z.ltb_spec 2 (Py.len dynamic_tracks)); [lia|].
    unfold ret. rewrite IH. by rewrite <- !app_assoc.
Qed.

(** ** Looking up items *)

(** [index_by_id] finds the first item with the id. *)
Lemma index_by_id_from_first (objs : loc → QueueItem.t) (start : Z)
    (queue_items : list loc) (queue_item_id : string) (j : Z) :
  index_by_id_from objs start queue_items queue_item_id = Some j →
  ∀ (k : nat) item,
    (k < Z.to_nat (j - start))%nat → queue_items !! k = Some item →
    QueueItem.queue_item_id (objs item) ≠ queue_item_id.
Proof.
  revert start. induction queue_items as [|x l IH]; intros start Hj k item Hk Hi.
  - done.
  - simpl in Hj. case_bool_decide as Hx.
    + simplify_eq. lia.
    + destruct k as [|k]; simpl in Hi; [by simplify_eq|].
      apply (IH _ Hj k item); [|done].
      pose proof (index_by_id_from_Some _ _ _ _ _ Hj) as [Hrange _]. lia.
Qed.

Lemma index_by_id_from_None (objs : loc → QueueItem.t) (start : Z)
    (queue_items : list loc) (queue_item_id : string) :
  index_by_id_from objs start queue_items queue_item_id = None →
  ∀ item, item ∈ queue_items →
    QueueItem.queue_item_id (objs item) ≠ queue_item_id.
Proof.
  revert start. induction queue_items as [|x l IH]; intros start Hnone item Hin.
  - by apply elem_of_nil in Hin.
  - simpl in Hnone. case_bool_decide as Hx; [done|].
    apply elem_of_cons in Hin as [->|Hin]; [done|]. by eapply IH.
Qed.

(** The search of [get_item] by id stops at the item that [index_by_id]
    counts up to. *)
Lemma find_by_id_from (objs : loc → QueueItem.t) (start : Z)
    (queue_items : list loc) (queue_item_id : string) :
  List.find (λ r, bool_decide (QueueItem.queue_item_id (objs r) = queue_item_id))
    queue_items
  = index_by_id_from objs start queue_items queue_item_id
      ≫= λ j, queue_items !! Z.to_nat (j - start).
Proof.
  revert start. induction queue_items as [|x l IH]; intros start; [done|].
  simpl. case_bool_decide as Hx.
  - simpl. by rewrite Z.sub_diag.
  - rewrite (IH (start + 1)).
    destruct (index_by_id_from objs (start + 1) l queue_item_id) as [j|] eqn:Hj;
      [|done].
    simpl. pose proof (index_by_id_from_Some _ _ _ _ _ Hj) as [Hrange _].
    replace (Z.to_nat (j - start)) with (S (Z.to_nat (j - (start + 1))))
      by lia. done.
Qed.

(** Looking an item up by its id and looking it up at the index that
    [index_by_id] gives for the id are the same: when the index is [j],
    it is within the list, the item at [j] has the id and is the one
    [get_item] returns, and no item before it has the id; when there is
    no index, no item has the id and [get_item] returns none. *)
Theorem get_item_by_id_is_the_item_at_index_by_id (self : Controller)
    (queue_id : string) (queue_items : list loc) (queue_item_id : string) :
  _queue_items self !! queue_id = Some queue_items →
  ∃ index : option Z,
    index_by_id self queue_id queue_item_id = Ok index
    ∧ get_item self queue_id (Some (ById queue_item_id))
      = get_item self queue_id (ByIndex <$> index)
    ∧ match index with
      | Some j =>
          0 ≤ j < Py.len queue_items
          ∧ (∃ item,
               queue_items !! Z.to_nat j = Some item
               ∧ get_item self queue_id (Some (ById queue_item_id))
                 = Ok (Some item)
               ∧ QueueItem.queue_item_id (objects self item) = queue_item_id)
          ∧ (∀ (k : nat) item,
               (k < Z.to_nat j)%nat → queue_items !! k = Some item →
               QueueItem.queue_item_id (objects self item) ≠ queue_item_id)
      | None =>
          get_item self queue_id (Some (ById queue_item_id)) = Ok None
          ∧ (∀ item, item ∈ queue_items →
               QueueItem.queue_item_id (objects self item) ≠ queue_item_id)
      end.
Proof.
  intros Hitems.
  exists (index_by_id_from (objects self) 0 queue_items queue_item_id).
  assert (Hfind :
    get_item self queue_id (Some (ById queue_item_id))
    = Ok (index_by_id_from (objects self) 0 queue_items queue_item_id
            ≫= λ j, queue_items !! Z.to_nat j)).
  { unfold get_item, queue_items_getitem. rewrite Hitems. simpl.
    rewrite (find_by_id_from _ 0). f_equal.
    destruct (index_by_id_from _ _ _ _); [|done]. simpl.
    by rewrite Z.sub_0_r. }
  split; [|split].
  - unfold index_by_id, queue_items_getitem. by rewrite Hitems.
  - rewrite Hfind. symmetry. by apply get_item_of_index.
  - destruct (index_by_id_from _ _ _ _) as [j|] eqn:Hj.
    + destruct (index_by_id_from_Some _ _ _ _ _ Hj)
        as (Hrange & item & Hitem & Hid).
      rewrite Z.sub_0_r in Hitem.
      split; [lia|]. split.
      * exists item. rewrite Hfind. simpl. by rewrite Hitem.
      * intros k item' Hk. apply (index_by_id_from_first _ _ _ _ _ Hj).
        by rewrite Z.sub_0_r.
    + split; [done|]. by eapply index_by_id_from_None.
Qed.

(** [l[i]] for an index within the list, counted from the start or (if
    negative) from the end. *)
Lemma getitem_within {A} (l : list A) (i : Z) :
  - Py.len l ≤ i < Py.len l →
  ∃ x, l !! Z.to_nat (if i <? 0 then i + Py.len l else i) = Some x
       ∧ Py.getitem l i = Ok x.
Proof.
  intros Hi. unfold Py.getitem.
  set (j := if i <? 0 then i + Py.len l else i).
  assert (Hj : 0 ≤ j < Py.len l).
  { subst j. destruct (Z.ltb_spec i 0); lia. }
  assert (Hj0 : (j <? 0) = false) by (apply Z.ltb_ge; lia).
  assert (Hjn : (Py.len l <=? j) = false) by (apply Z.leb_gt; lia).
  rewrite Hj0, Hjn. simpl.
  destruct (lookup_lt_is_Some_2 l (Z.to_nat j)) as [x Hx].
  { unfold Py.len in Hj. lia. }
  exists x. by rewrite Hx.
Qed.

(** [get_item] at an index outside the list: an index at or past the
    length gives none; a negative index counts from the end, as Python
    list indexes do, down to minus the length; below that the lookup
    raises an [IndexError]. Without an id or index, it gives none even
    for a queue that is not there. *)
Theorem get_item_index_bounds (self : Controller) (queue_id : string)
    (queue_items : list loc) :
  _queue_items self !! queue_id = Some queue_items →
  (∀ i, Py.len queue_items ≤ i →
     get_item self queue_id (Some (ByIndex i)) = Ok None)
  ∧ (∀ i, 0 ≤ i < Py.len queue_items →
       get_item self queue_id (Some (ByIndex i))
       = Ok (queue_items !! Z.to_nat i)
       ∧ is_Some (queue_items !! Z.to_nat i))
  ∧ (∀ i, - Py.len queue_items ≤ i < 0 →
       get_item self queue_id (Some (ByIndex i))
       = Ok (queue_items !! Z.to_nat (i + Py.len queue_items))
       ∧ is_Some (queue_items !! Z.to_nat (i + Py.len queue_items)))
  ∧ (∀ i, i < - Py.len queue_items →
       get_item self queue_id (Some (ByIndex i))
       = Raise (IndexError "list index out of range"))
  ∧ (∀ other, get_item self other None = Ok None).
Proof.
  intros Hitems. unfold get_item, queue_items_getitem. rewrite Hitems. simpl.
  split; [|split; [|split; [|split]]].
  - intros i Hi. destruct (Z.ltb_spec i (Py.len queue_items)); [lia|done].
  - intros i Hi. destruct (Z.ltb_spec i (Py.len queue_items)); [|lia].
    destruct (getitem_within queue_items i ltac:(lia)) as (x & Hx & ->).
    destruct (Z.ltb_spec i 0); [lia|]. rewrite Hx. simpl. eauto.
  - intros i Hi. destruct (Z.ltb_spec i (Py.len queue_items)); [|lia].
    destruct (getitem_within queue_items i ltac:(lia)) as (x & Hx & ->).
    destruct (Z.ltb_spec i 0); [|lia]. rewrite Hx. simpl. eauto.
  - intros i Hi.
    assert (0 ≤ Py.len queue_items) by (unfold Py.len; lia).
    destruct (Z.ltb_spec i (Py.len queue_items)); [|lia].
    unfold Py.getitem. destruct (Z.ltb_spec i 0); [|lia].
    destruct (Z.ltb_spec (i + Py.len queue_items) 0); [|lia]. done.
  - done.
Qed.

Lemma slice_between_nonneg {A} (l : list A) (offset limit : Z) :
  0 ≤ offset → 0 ≤ limit →
  slice_between l offset (offset + limit)
  = take (Z.to_nat limit) (drop (Z.to_nat offset) l).
Proof.
  intros Ho Hl. unfold slice_between, Py.len.
  rewrite !bound_nonneg by lia.
  destruct (Z.le_gt_cases (Z.of_nat (length l)) offset) as [Hge|Hlt].
  - rewrite !drop_ge by lia. by rewrite !take_nil.
  - rewrite (Z.min_r _ offset) by lia.
    destruct (Z.le_gt_cases (Z.of_nat (length l)) (offset + limit)).
    + rewrite Z.min_l by lia.
      rewrite !take_ge; [done| |]; rewrite length_drop; lia.
    + rewrite Z.min_r by lia. f_equal. lia.
Qed.

(** [items] returns the page of at most [limit] items that starts at
    [offset] (both not negative): pages that follow one another add up to
    one larger page, in order, and the page of the whole length at offset
    0 is the item list. *)
Theorem items_pages_follow_one_another (self : Controller)
    (queue_id : string) (queue_items : list loc) (limit limit' offset : Z) :
  _queue_items self !! queue_id = Some queue_items →
  0 ≤ offset → 0 ≤ limit → 0 ≤ limit' →
  items self queue_id limit offset
  = take (Z.to_nat limit) (drop (Z.to_nat offset) queue_items)
  ∧ Py.len (items self queue_id limit offset) ≤ limit
  ∧ items self queue_id limit offset
    ++ items self queue_id limit' (offset + limit)
    = items self queue_id (limit + limit') offset
  ∧ items self queue_id (Py.len queue_items) 0 = queue_items.
Proof.
  intros Hitems Ho Hl Hl'. unfold items. rewrite Hitems.
  rewrite !slice_between_nonneg by (unfold Py.len; lia).
  split; [done|]. split; [|split].
  - unfold Py.len. rewrite length_take. lia.
  - rewrite !Z2Nat.inj_add by lia.
    rewrite <- drop_drop. by rewrite take_take_drop.
  - unfold Py.len. rewrite Nat2Z.id. simpl. by rewrite take_ge.
Qed.

(** ** Settings of a queue *)

(** Setting the repeat mode twice is setting it once: the second call
    finds the mode set and changes nothing, sends no event and saves
    nothing (and on a queue that is not there both fail alike). *)
Theorem set_repeat_twice_is_once (queue_id : string)
    (repeat_mode : RepeatMode) (self : Controller) :
  (set_repeat queue_id repeat_mode ;; set_repeat queue_id repeat_mode) self
  = set_repeat queue_id repeat_mode self.
Proof.
  unfold set_repeat, signal_update, signal_event, create_task.
  unfold mbind, M_bind, bind, read, modify, ret, queue_setattr.
  unfold queues_getitem.
  destruct (_queues self !! queue_id) as [queue|] eqn:Hq; simpl; [|done].
  case_bool_decide as Hmode; simpl.
  - rewrite Hq. simpl. by rewrite bool_decide_eq_true_2.
  - rewrite Hq. simpl. repeat (rewrite lookup_insert_eq; simpl).
    by rewrite bool_decide_eq_true_2.
Qed.

(** The repeat mode set with [set_repeat] decides what follows the last
    item: at an index at or past the last one, the next index is none
    with repeat off, the same index with repeat-one (none on an explicit
    skip) and 0 with repeat-all. The item list is not touched. *)
Theorem set_repeat_decides_what_follows_the_last_item (self : Controller)
    (queue_id : string) (queue : PlayerQueue.t) (queue_items : list loc)
    (repeat_mode : RepeatMode) (i : Z) :
  _queues self !! queue_id = Some queue →
  _queue_items self !! queue_id = Some queue_items →
  queue_items ≠ [] →
  Py.len queue_items - 1 ≤ i →
  ∃ self' : Controller,
    set_repeat queue_id repeat_mode self = (self', Ok tt)
    ∧ _queue_items self' = _queue_items self
    ∧ PlayerQueue.repeat_mode <$> _queues self' !! queue_id = Some repeat_mode
    ∧ _get_next_index self' queue_id (Some i) false true
      = Ok (match repeat_mode with
            | RepeatOFF => None
            | RepeatONE => Some i
            | RepeatALL => Some 0
            end)
    ∧ _get_next_index self' queue_id (Some i) true true
      = Ok (match repeat_mode with
            | RepeatALL => Some 0
            | _ => None
            end).
Proof.
  intros Hq Hitems Hne Hlast.
  assert (Hnext : ∀ (self' : Controller) (queue' : PlayerQueue.t),
            _queues self' !! queue_id = Some queue' →
            _queue_items self' = _queue_items self →
            PlayerQueue.repeat_mode queue' = repeat_mode →
            _get_next_index self' queue_id (Some i) false true
            = Ok (match repeat_mode with
                  | RepeatOFF => None
                  | RepeatONE => Some i
                  | RepeatALL => Some 0
                  end)
            ∧ _get_next_index self' queue_id (Some i) true true
              = Ok (match repeat_mode with
                    | RepeatALL => Some 0
                    | _ => None
                    end)).
  { intros self' queue' Hq' Hi' Hmode.
    unfold _get_next_index, queues_getitem, queue_items_getitem.
    rewrite Hq', Hi', Hitems. simpl.
    destruct queue_items as [|x l]; [done|]. rewrite Hmode.
    destruct (Z.leb_spec (Py.len (x :: l) - 1) i); [|lia].
    by destruct repeat_mode. }
  unfold set_repeat, signal_update, signal_event, create_task.
  unfold mbind, M_bind, bind, read, modify, ret, queue_setattr.
  unfold queues_getitem. rewrite Hq. simpl.
  case_bool_decide as Hmode; simpl.
  - exists self. split; [done|]. split; [done|].
    split; [by rewrite Hq; simpl; rewrite Hmode|]. by eapply Hnext.
  - rewrite Hq. simpl. repeat (rewrite lookup_insert_eq; simpl).
    eexists. split; [reflexivity|]. simpl. split; [done|].
    rewrite lookup_insert_eq. split; [done|].
    eapply Hnext; [by simpl; rewrite lookup_insert_eq|done|done].
Qed.

(** ** The buffer of the player *)


(** ** What a method leaves unchanged *)

Lemma unchanged_bind {V A B} (view : Controller → V) (m : M A)
    (k : A → M B) :
  unchanged view m → (∀ a, unchanged view (k a)) →
  unchanged view (m ≫= k).
Proof.
  intros Hm Hk self self' r. unfold mbind, M_bind, bind.
  destruct (m self) as [self1 [a|e]] eqn:Hrun; intros Heq.
  - rewrite (Hk a _ _ _ Heq). by eapply Hm.
  - simplify_eq. by eapply Hm.
Qed.

Lemma unchanged_ret {V A} (view : Controller → V) (a : A) :
  unchanged view (ret a).
Proof. intros self self' r Heq. unfold ret in Heq. by simplify_eq. Qed.

Lemma unchanged_raise {V A} (view : Controller → V) (e : exn) :
  unchanged view (raise (A := A) e).
Proof. intros self self' r Heq. unfold raise in Heq. by simplify_eq. Qed.

Lemma unchanged_read {V A} (view : Controller → V)
    (f : Controller → result A) :
  unchanged view (read f).
Proof. intros self self' r Heq. unfold read in Heq. by simplify_eq. Qed.

Lemma unchanged_modify {V} (view : Controller → V)
    (f : Controller → Controller) :
  (∀ self, view (f self) = view self) → unchanged view (modify f).
Proof. intros Hf self self' r Heq. unfold modify in Heq. by simplify_eq. Qed.

Lemma unchanged_try_except {V A} (view : Controller → V) (m : M A)
    (catches : exn → bool) (handler : exn → M A) :
  unchanged view m → (∀ e, unchanged view (handler e)) →
  unchanged view (try_except m catches handler).
Proof.
  intros Hm Hh self self' r. unfold try_except.
  destruct (m self) as [self1 [a|e]] eqn:Hrun; intros Heq.
  - simplify_eq. by eapply Hm.
  - destruct (catches e).
    + rewrite (Hh e _ _ _ Heq). by eapply Hm.
    + simplify_eq. by eapply Hm.
Qed.

Lemma unchanged_for_each {V A} (view : Controller → V) (l : list A)
    (body : A → M unit) :
  (∀ x, unchanged view (body x)) → unchanged view (for_each l body).
Proof.
  intros Hbody. induction l as [|x l IH]; simpl.
  - apply unchanged_ret.
  - apply (unchanged_bind (B := unit)); [done|]. intros _. exact IH.
Qed.

Lemma unchanged_random_sample {V A} (view : Controller → V) (l : list A)
    (k : Z) :
  (∀ self tape, view (with_random_tape tape self) = view self) →
  unchanged view (random_sample l k).
Proof.
  intros Hview self self' r Heq. unfold random_sample in Heq.
  destruct ((k <? 0) || (Py.len l <? k)); simplify_eq; [done|].
  destruct (sample_draws _ _ _). by simplify_eq.
Qed.

Lemma unchanged_queue_setattr {V} (view : Controller → V)
    (target : string) (set : PlayerQueue.t → PlayerQueue.t) :
  (∀ self q, _queues self !! target = Some q →
     view (with_queues (<[target := set q]> (_queues self)) self)
     = view self) →
  unchanged view (queue_setattr target set).
Proof.
  intros Hset self self' r Heq. unfold queue_setattr in Heq.
  destruct (_queues self !! target) as [q|] eqn:Hq; simplify_eq; [|done].
  by apply Hset.
Qed.

(** Setting an attribute other than the repeat mode. *)
Lemma unchanged_repeat_modes_setattr (target : string)
    (set : PlayerQueue.t → PlayerQueue.t) :
  (∀ q, PlayerQueue.repeat_mode (set q) = PlayerQueue.repeat_mode q) →
  unchanged items_and_repeat_modes (queue_setattr target set).
Proof.
  intros Hset. apply unchanged_queue_setattr. intros self q Hq.
  unfold items_and_repeat_modes. simpl. f_equal.
  rewrite fmap_insert. apply insert_id.
  by rewrite lookup_fmap, Hq, Hset.
Qed.

Create HintDb unchanged discriminated.

Ltac unchanged_step :=
  first
    [ solve [auto 1 with unchanged nocore]
    | apply unchanged_ret
    | apply unchanged_raise
    | apply unchanged_read
    | apply unchanged_modify; by intros []
    | apply unchanged_random_sample; by intros []
    | apply unchanged_repeat_modes_setattr; by intros []
    | apply unchanged_for_each; intros ?
    | apply unchanged_try_except; [|intros ?]
    | apply unchanged_bind; [|intros ?]
    | match goal with
      | |- unchanged _ (if ?b then _ else _) => destruct b
      | |- unchanged _ (match ?x with _ => _ end) => destruct x
      end ].

Ltac unchanged_auto := repeat unchanged_step.

(** [_load_item] works on the queue item objects only. *)
Lemma _load_item_unchanged (queue_item : loc) (next_index : option Z)
    (is_start : bool) (seek_position : Z) (fade_in : option bool) :
  unchanged all_but_objects
    (_load_item queue_item next_index is_start seek_position fade_in).
Proof. unfold _load_item, item_setattr. unchanged_auto. Qed.

Lemma signal_update_unchanged (queue_id : string) (items_changed : bool) :
  unchanged (λ self, (_queues self, _queue_items self, objects self))
    (signal_update queue_id items_changed).
Proof. unfold signal_update, signal_event, create_task. unchanged_auto. Qed.

Lemma signal_update_keeps_repeat_modes (queue_id : string)
    (items_changed : bool) :
  unchanged items_and_repeat_modes (signal_update queue_id items_changed).
Proof. unfold signal_update, signal_event, create_task. unchanged_auto. Qed.
#[local] Hint Resolve signal_update_keeps_repeat_modes : unchanged.

Lemma _load_item_keeps_repeat_modes (queue_item : loc)
    (next_index : option Z) (is_start : bool) (seek_position : Z)
    (fade_in : option bool) :
  unchanged items_and_repeat_modes
    (_load_item queue_item next_index is_start seek_position fade_in).
Proof. unfold _load_item, item_setattr. unchanged_auto. Qed.
#[local] Hint Resolve _load_item_keeps_repeat_modes : unchanged.

(** [play_index] changes neither an item list nor a repeat mode,
    however it ends. *)
Lemma play_index_keeps_repeat_modes (queue_id : string)
    (index : id_or_index) (seek_position : Z) (fade_in : option bool)
    (debounce : bool) :
  unchanged items_and_repeat_modes
    (play_index queue_id index seek_position fade_in debounce).
Proof. unfold play_index, create_task. unchanged_auto. Qed.
#[local] Hint Resolve play_index_keeps_repeat_modes : unchanged.

(** When [_load_item] returns, the item has its stream details; and
    however it ends, only the object of the item may have changed, and
    not its id. *)
Lemma _load_item_loads (queue_item : loc) (next_index : option Z)
    (is_start : bool) (seek_position : Z) (fade_in : option bool)
    (self self' : Controller) (r : result unit) :
  _load_item queue_item next_index is_start seek_position fade_in self
  = (self', r) →
  (r = Ok tt → is_Some (QueueItem.streamdetails (objects self' queue_item)))
  ∧ (∀ other, other ≠ queue_item → objects self' other = objects self other)
  ∧ QueueItem.queue_item_id (objects self' queue_item)
    = QueueItem.queue_item_id (objects self queue_item).
Proof.
  unfold _load_item, item_setattr.
  unfold mbind, M_bind, bind, read, modify, ret.
  intros Heq.
  repeat (simplify_eq; simpl in *;
          match goal with
          | H : context [match ?x with _ => _ end] |- _ =>
              destruct x eqn:?
          end);
    simplify_eq; simpl; unfold store_update;
    repeat split; try done; eauto;
    try (intros other Hother; by rewrite ?bool_decide_eq_false_2);
    rewrite ?bool_decide_eq_true_2 by done; simpl; eauto.
Qed.

(** ** Playing an item *)

(** What [play_index] does on a queue of the controller, for an index
    at which there is an item: the queue is set to the item before the
    item is loaded; if the loading fails, the exception leaves the method
    and nothing is scheduled or signalled. *)
Lemma play_index_runs (self : Controller) (queue_id : string)
    (queue : PlayerQueue.t) (queue_items : list loc) (i : Z) (item : loc)
    (seek_position : Z) (fade_in : option bool) (debounce : bool) :
  _queues self !! queue_id = Some queue →
  _queue_items self !! queue_id = Some queue_items →
  get_item self queue_id (Some (ByIndex i)) = Ok (Some item) →
  ∃ (self' : Controller) (r : result unit),
    play_index queue_id (ByIndex i) seek_position fade_in debounce self
    = (self', r)
    ∧ _queue_items self' = _queue_items self
    ∧ _queues self'
      = <[queue_id :=
            started_at (get_player_config_flow_mode mass queue_id) i item
              queue]> (_queues self)
    ∧ match r with
      | Ok _ =>
          tasks self'
          = tasks self ++ [PlayMediaLater queue_id item debounce;
                           CacheSetState queue_id]
          ∧ events self' = events self ++ [(QUEUE_UPDATED, queue_id)]
          ∧ is_Some (QueueItem.streamdetails (objects self' item))
      | Raise _ => tasks self' = tasks self ∧ events self' = events self
      end.
Proof.
  intros Hq Hitems Hitem.
  unfold play_index.
  unfold mbind, M_bind, bind, read, ret, raise, queue_setattr.
  unfold queues_getitem. rewrite Hq. simpl.
  unfold get_item, queue_items_getitem in Hitem |- *.
  rewrite Hitems in Hitem. simpl in Hitem |- *.
  rewrite Hitems. simpl. rewrite Hitem.
  repeat (simpl; rewrite lookup_insert_eq).
  simpl. rewrite !insert_insert_eq.
  match goal with
  | |- context [_get_next_index ?s queue_id (Some i) false false] =>
      destruct (_get_next_index s queue_id (Some i) false false)
        as [next_index|e] eqn:Hnext
  end.
  2:{ exfalso. revert Hnext.
      unfold _get_next_index, queues_getitem, queue_items_getitem. simpl.
      rewrite lookup_insert_eq, Hitems. simpl.
      destruct queue_items; [done|]. by repeat case_match. }
  match goal with
  | |- context [_load_item item next_index true ?sp fade_in ?s] =>
      destruct (_load_item item next_index true sp fade_in s)
        as [self1 [[]|e]] eqn:Hload;
      pose proof (_load_item_unchanged _ _ _ _ _ _ _ _ Hload) as Hsame;
      pose proof (_load_item_loads _ _ _ _ _ _ _ _ Hload) as (Hsd & _)
  end.
  - unfold all_but_objects in Hsame. simpl in Hsame. simplify_eq.
    unfold create_task, signal_update, signal_event, modify.
    unfold mbind, M_bind, bind, read, ret, queues_getitem. simpl.
    match goal with H : _queues self1 = _ |- _ => rewrite H end.
    rewrite lookup_insert_eq. simpl.
    eexists _, _. split; [reflexivity|]. simpl.
    split; [congruence|]. split; [done|].
    split; [|split]; [by rewrite <- app_assoc; f_equal; congruence
                     |congruence|by apply Hsd].
  - unfold all_but_objects in Hsame. simpl in Hsame. simplify_eq.
    eexists _, _. split; [reflexivity|]. simpl.
    unfold started_at. split; [congruence|]. split; [congruence|].
    split; congruence.
Qed.

(** [play_index] at an index within the item list points the queue at
    the item there before it loads it: whether the loading succeeds or
    raises, the current index and the buffered index are the index, the
    current item is the item, the resume position is 0, the play log of
    the flow mode is empty and no next track counts as enqueued; the item
    list is untouched. The play request for the player is scheduled, and
    the update signalled, only when the item was loaded, and then the item
    has its stream details. At an index at or past the length there is no
    item: the method raises [FileNotFoundError], having only reset the
    resume position. *)
Theorem play_index_points_the_queue_at_the_item (self : Controller)
    (queue_id : string) (queue : PlayerQueue.t) (queue_items : list loc)
    (i : Z) (seek_position : Z) (fade_in : option bool) (debounce : bool) :
  _queues self !! queue_id = Some queue →
  _queue_items self !! queue_id = Some queue_items →
  (∀ item, 0 ≤ i → queue_items !! Z.to_nat i = Some item →
     ∃ (self' : Controller) (r : result unit) (queue' : PlayerQueue.t),
       play_index queue_id (ByIndex i) seek_position fade_in debounce self
       = (self', r)
       ∧ _queue_items self' = _queue_items self
       ∧ _queues self' !! queue_id = Some queue'
       ∧ PlayerQueue.current_index queue' = Some i
       ∧ PlayerQueue.index_in_buffer queue' = Some i
       ∧ PlayerQueue.current_item queue' = Some item
       ∧ PlayerQueue.resume_pos queue' = 0
       ∧ PlayerQueue.flow_mode_stream_log queue' = []
       ∧ PlayerQueue.next_track_enqueued queue' = None
       ∧ (r = Ok tt →
          tasks self'
          = tasks self ++ [PlayMediaLater queue_id item debounce;
                           CacheSetState queue_id]
          ∧ is_Some (QueueItem.streamdetails (objects self' item)))
       ∧ (r ≠ Ok tt → tasks self' = tasks self ∧ events self' = events self))
  ∧ (Py.len queue_items ≤ i →
     play_index queue_id (ByIndex i) seek_position fade_in debounce self
     = (with_queues
          (<[queue_id := PlayerQueue.set_resume_pos 0 queue]> (_queues self))
          self,
        Raise (FileNotFoundError ("Unknown index/id: " +:+ pretty i)))).
Proof.
  intros Hq Hitems. split.
  - intros item Hi Hitem.
    assert (Hlen : i < Py.len queue_items).
    { apply lookup_lt_Some in Hitem. unfold Py.len. lia. }
    assert (Hget : get_item self queue_id (Some (ByIndex i)) = Ok (Some item)).
    { unfold get_item, queue_items_getitem. rewrite Hitems. simpl.
      destruct (Z.ltb_spec i (Py.len queue_items)); [|lia].
      destruct (getitem_within queue_items i ltac:(lia)) as (x & Hx & ->).
      destruct (Z.ltb_spec i 0); [lia|]. simpl. congruence. }
    destruct (play_index_runs self queue_id queue queue_items i item
                seek_position fade_in debounce Hq Hitems Hget)
      as (self' & r & Hrun & Hi' & Hq' & Hr).
    exists self', r, (started_at (get_player_config_flow_mode mass queue_id)
                        i item queue).
    split; [done|]. split; [done|].
    split; [by rewrite Hq', lookup_insert_eq|].
    do 6 (split; [done|]). split.
    + intros ->. destruct Hr as (Ht & _ & Hsd). done.
    + intros Hr'. destruct r as [[]|e]; [done|]. done.
  - intros Hpast.
    unfold play_index.
    unfold mbind, M_bind, bind, read, ret, raise, queue_setattr.
    unfold queues_getitem, get_item, queue_items_getitem.
    rewrite Hq. simpl. rewrite Hitems. simpl.
    destruct (Z.ltb_spec i (Py.len queue_items)); [lia|]. done.
Qed.

(** [previous] goes back one item and never before the first: on an
    active queue with the current index [c], it starts the item at the
    larger of [c - 1] and 0 (this index becomes the current and the
    buffered index, whether the item loads or not) and schedules the play
    request, debounced, when it has loaded; the item list is untouched. On
    a queue that is not active, that is not there or that has no current
    index, it does nothing. *)
Theorem previous_goes_back_one_item (self : Controller) (queue_id : string)
    (queue : PlayerQueue.t) (queue_items : list loc) :
  _queues self !! queue_id = Some queue →
  _queue_items self !! queue_id = Some queue_items →
  (PlayerQueue.active queue = false ∨ PlayerQueue.current_index queue = None →
     previous queue_id self = (self, Ok tt))
  ∧ (∀ (c : Z) (item : loc),
       PlayerQueue.active queue = true →
       PlayerQueue.current_index queue = Some c →
       queue_items !! Z.to_nat (Z.max (c - 1) 0) = Some item →
       ∃ (self' : Controller) (r : result unit),
         previous queue_id self = (self', r)
         ∧ _queue_items self' = _queue_items self
         ∧ PlayerQueue.current_index <$> _queues self' !! queue_id
           = Some (Some (Z.max (c - 1) 0))
         ∧ PlayerQueue.index_in_buffer <$> _queues self' !! queue_id
           = Some (Some (Z.max (c - 1) 0))
         ∧ PlayerQueue.current_item <$> _queues self' !! queue_id
           = Some (Some item)
         ∧ (r = Ok tt →
            tasks self'
            = tasks self ++ [PlayMediaLater queue_id item true;
                             CacheSetState queue_id])).
Proof.
  intros Hq Hitems. split.
  - intros Hnot. unfold previous, get, mbind, M_bind, bind, read, ret.
    unfold queues_getitem. rewrite Hq. simpl.
    destruct (PlayerQueue.active queue); simpl; [|done].
    rewrite Hq. simpl. by destruct Hnot as [?| ->].
  - intros c item Hactive Hcur Hitem.
    set (j := Z.max (c - 1) 0) in *.
    assert (Hlen : j < Py.len queue_items).
    { apply lookup_lt_Some in Hitem. unfold Py.len. lia. }
    assert (Hget : get_item self queue_id (Some (ByIndex j)) = Ok (Some item)).
    { unfold get_item, queue_items_getitem. rewrite Hitems. simpl.
      destruct (Z.ltb_spec j (Py.len queue_items)); [|lia].
      destruct (getitem_within queue_items j ltac:(lia)) as (x & Hx & ->).
      destruct (Z.ltb_spec j 0); [lia|]. simpl. congruence. }
    destruct (play_index_runs self queue_id queue queue_items j item
                0 (Some false) true Hq Hitems Hget)
      as (self' & r & Hrun & Hi' & Hq' & Hr).
    exists self', r. split.
    { unfold previous, get, mbind, M_bind, bind, read, ret.
      unfold queues_getitem. rewrite Hq. simpl. rewrite Hactive. simpl.
      rewrite Hq. simpl. rewrite Hcur. exact Hrun. }
    split; [done|]. rewrite Hq', lookup_insert_eq. simpl.
    do 3 (split; [done|]).
    intros ->. by destruct Hr as (Ht & _).
Qed.



(** ** The next track *)

(** An index below minus the length is no index of the list: the lookup
    of [play_index] raises before anything is loaded. *)
Lemma play_index_below_the_list (self : Controller) (queue_id : string)
    (queue_items : list loc) (i : Z) (seek_position : Z)
    (fade_in : option bool) (debounce : bool) :
  _queue_items self !! queue_id = Some queue_items →
  i < - Py.len queue_items →
  ∃ e, (play_index queue_id (ByIndex i) seek_position fade_in debounce
          self).2 = Raise e
       ∧ is_MediaNotFoundError e = false.
Proof.
  intros Hitems Hi.
  assert (0 ≤ Py.len queue_items) by (unfold Py.len; lia).
  unfold play_index.
  unfold mbind, M_bind, bind, read, ret, raise, queue_setattr.
  unfold queues_getitem, get_item, queue_items_getitem.
  destruct (_queues self !! queue_id) as [queue|] eqn:Hq; simpl.
  - rewrite ?Hq. simpl. rewrite Hitems. simpl.
    destruct (Z.ltb_spec i (Py.len queue_items)); [|lia].
    unfold Py.getitem. destruct (Z.ltb_spec i 0); [|lia].
    destruct (Z.ltb_spec (i + Py.len queue_items) 0); [|lia]. simpl.
    eauto.
  - eauto.
Qed.

(** The rounds of [next] come to an end when the queue does not repeat
    all: each round that fails on an item that cannot be loaded moves one
    index up, towards the end of the list. *)
Lemma next_from_ends (queue_id display_name : string)
    (queue_items : list loc) (mode : RepeatMode) :
  mode ≠ RepeatALL →
  ∀ (fuel : nat) (c : Z) (self : Controller),
    _queue_items self !! queue_id = Some queue_items →
    PlayerQueue.repeat_mode <$> _queues self !! queue_id = Some mode →
    (c < - Py.len queue_items - 1 → (0 < fuel)%nat) →
    (- Py.len queue_items - 1 ≤ c →
       (Z.to_nat (Py.len queue_items - 1 - c) < fuel)%nat) →
    (next_from fuel queue_id display_name (Some c) self).2 ≠ Ok None.
Proof.
  intros Hmode. induction fuel as [|fuel IH]; intros c self Hitems Hq Hlow Hhigh.
  { destruct (Z.lt_ge_cases c (- Py.len queue_items - 1)) as [Hc|Hc].
    - specialize (Hlow Hc). lia.
    - specialize (Hhigh Hc). lia. }
  destruct (_queues self !! queue_id) as [queue|] eqn:Hqueue; [|done].
  simpl in Hq. simplify_eq.
  simpl. unfold try_except, mbind, M_bind, bind, read, ret.
  unfold _get_next_index at 1, queues_getitem, queue_items_getitem.
  rewrite Hqueue, Hitems. simpl.
  destruct queue_items as [|x l] eqn:Hl; [done|]. rewrite <- Hl in *.
  rewrite andb_false_r.
  destruct (Z.leb_spec (Py.len queue_items - 1) c) as [Hend|Hmore].
  { rewrite bool_decide_eq_false_2 by done. subst. simpl. done. }
  destruct (bool_decide (PlayerQueue.repeat_mode queue = RepeatALL)) eqn:Hall.
  { by apply bool_decide_eq_true_1 in Hall. }
  clear Hall. subst queue_items. set (queue_items := x :: l) in *.
  destruct (play_index queue_id (ByIndex (c + 1)) 0 (Some false) true self)
    as [self1 [[]|e]] eqn:Hplay; simpl; [done|].
  destruct (is_MediaNotFoundError e) eqn:Hcaught; [|done].
  pose proof (play_index_keeps_repeat_modes _ _ _ _ _ _ _ _ Hplay) as Hsame.
  unfold items_and_repeat_modes in Hsame. simplify_eq.
  destruct (Z.lt_ge_cases c (- Py.len queue_items - 1)) as [Hc|Hc].
  { destruct (play_index_below_the_list self queue_id queue_items (c + 1)
                0 (Some false) true Hitems ltac:(lia)) as (e' & He' & Hno).
    rewrite Hplay in He'. simpl in He'. simplify_eq. congruence. }
  specialize (Hhigh Hc).
  unfold log, modify. simpl.
  apply IH.
  - simpl. congruence.
  - simpl. rewrite <- lookup_fmap.
    match goal with H : _ <$> _queues self1 = _ |- _ => rewrite H end.
    by rewrite lookup_fmap, Hqueue.
  - lia.
  - lia.
Qed.


(** [_get_next_item] answers in its first round or never: when there is
    no next index it returns none; when the item at the next index has no
    media item or an available one it returns this item; and when the
    item at the next index is marked unavailable the loop tries the same
    index again, so that no number of rounds gives a result. *)
Theorem get_next_item_answers_at_once_or_never (self : Controller)
    (queue_id : string) (cur_index : option Z) :
  (_get_next_index self queue_id cur_index false true = Ok None →
     ∀ fuel, _get_next_item (S fuel) self queue_id cur_index = Some (Ok None))
  ∧ (∀ (next_index : Z) (next_item : loc),
       _get_next_index self queue_id cur_index false true
       = Ok (Some next_index) →
       get_item self queue_id (Some (ByIndex next_index))
       = Ok (Some next_item) →
       (QueueItem.media_item (objects self next_item) = None
        ∨ (∃ m, QueueItem.media_item (objects self next_item) = Some m
                ∧ MediaItem.available m = true) →
          ∀ fuel,
            _get_next_item (S fuel) self queue_id cur_index
            = Some (Ok (Some next_item)))
       ∧ (∀ m, QueueItem.media_item (objects self next_item) = Some m →
            MediaItem.available m = false →
            ∀ fuel, _get_next_item fuel self queue_id cur_index = None)).
Proof.
  split.
  - intros Hnone fuel. cbn [_get_next_item]. by rewrite Hnone.
  - intros next_index next_item Hnext Hitem. split.
    + intros Hok fuel. cbn [_get_next_item]. rewrite Hnext, Hitem.
      destruct Hok as [-> | (m & -> & ->)]; done.
    + intros m Hm Hunavailable fuel.
      induction fuel as [|fuel IH]; [done|].
      cbn [_get_next_item]. by rewrite Hnext, Hitem, Hm, Hunavailable.
Qed.

(** ** The next item for the buffer of the player *)

(** [_load_item], a log entry and the marking of an item leave the
    queues and their item lists alone. *)
Lemma _load_item_keeps_queues (queue_item : loc) (next_index : option Z)
    (is_start : bool) (seek_position : Z) (fade_in : option bool) :
  unchanged queues_and_items
    (_load_item queue_item next_index is_start seek_position fade_in).
Proof. unfold _load_item, item_setattr. unchanged_auto. Qed.

(** What the rounds of [load_next_item] keep and give, from the round
    [idx] on: the queues and the item lists stay; an item that is returned
    is an item of the list, at an index after the current one unless the
    queue repeats, and it has its stream details; and the rounds come to
    an end when the queue does not repeat all. *)
Lemma load_next_from_runs (queue_id : string) (queue : PlayerQueue.t)
    (queue_items : list loc) (c : Z) :
  0 ≤ c →
  ∀ (fuel : nat) (idx : Z) (self self' : Controller)
    (r : result (option loc)),
    _queues self !! queue_id = Some queue →
    _queue_items self !! queue_id = Some queue_items →
    0 ≤ idx →
    load_next_from fuel queue_id (Some c) idx self = (self', r) →
    queues_and_items self' = queues_and_items self
    ∧ (∀ item, r = Ok (Some item) →
         is_Some (QueueItem.streamdetails (objects self' item))
         ∧ ∃ k : nat,
             queue_items !! k = Some item
             ∧ (PlayerQueue.repeat_mode queue = RepeatOFF →
                c + idx < Z.of_nat k))
    ∧ (PlayerQueue.repeat_mode queue ≠ RepeatALL →
       (Z.to_nat (Py.len queue_items - (c + idx)) < fuel)%nat →
       r ≠ Ok None).
Proof.
  intros Hc.
  induction fuel as [|fuel IH]; intros idx self self' r Hq Hitems Hidx Hrun.
  { simpl in Hrun. unfold ret in Hrun. simplify_eq.
    split; [done|]. split; [done|]. lia. }
  simpl in Hrun.
  unfold mbind, M_bind, bind, read, ret, raise in Hrun.
  unfold _get_next_index at 1 in Hrun.
  unfold queues_getitem, queue_items_getitem in Hrun.
  rewrite Hq, Hitems in Hrun. simpl in Hrun.
  destruct queue_items as [|x l] eqn:Hl.
  { simplify_eq. split; [done|]. split; done. }
  rewrite <- Hl in *.
  assert (Hlen : 0 < Py.len queue_items) by (subst; unfold Py.len; simpl; lia).
  set (position := c + idx) in *.
  set (next :=
         if bool_decide (PlayerQueue.repeat_mode queue = RepeatONE) && true
         then Ok (Some position)
         else if Py.len queue_items - 1 <=? position
              then if bool_decide (PlayerQueue.repeat_mode queue = RepeatALL)
                   then Ok (Some 0) else Ok None
              else Ok (Some (position + 1))) in *.
  assert (Hnext :
    next = Ok None
    ∨ ∃ n, next = Ok (Some n) ∧ 0 ≤ n
           ∧ (PlayerQueue.repeat_mode queue = RepeatOFF → position < n)
           ∧ (PlayerQueue.repeat_mode queue ≠ RepeatALL → position ≤ n)).
  { subst next. destruct (PlayerQueue.repeat_mode queue) eqn:Hmode; simpl.
    - destruct (Z.leb_spec (Py.len queue_items - 1) position); [by left|].
      right. eexists. split; [done|]. split; [lia|]. split; intros; lia.
    - right. eexists. split; [done|]. split; [lia|]. split; [done|]. intros; lia.
    - destruct (Z.leb_spec (Py.len queue_items - 1) position).
      + right. eexists. split; [done|]. split; [lia|]. split; done.
      + right. eexists. split; [done|]. split; [lia|]. split; [done|]. done. }
  destruct Hnext as [Hnone | (n & Hn & Hn0 & Hoff & Hnotall)];
    [rewrite Hnone in Hrun | rewrite Hn in Hrun]; simpl in Hrun.
  { simplify_eq. split; [done|]. split; done. }
  unfold get_item, queue_items_getitem in Hrun. rewrite Hitems in Hrun.
  simpl in Hrun.
  destruct (Z.ltb_spec n (Py.len queue_items)) as [Hin|Hout]; simpl in Hrun.
  2:{ simplify_eq. split; [done|]. split; done. }
  destruct (getitem_within queue_items n ltac:(lia)) as (item & Hitem & Hget).
  destruct (Z.ltb_spec n 0); [lia|].
  rewrite Hget in Hrun. simpl in Hrun.
  unfold try_except, mbind, M_bind, bind, ret in Hrun.
  destruct (_load_item item (Some n) false 0 (Some false) self)
    as [self1 [[]|e]] eqn:Hload.
  - simplify_eq.
    pose proof (_load_item_keeps_queues _ _ _ _ _ _ _ _ Hload) as Hsame.
    pose proof (_load_item_loads _ _ _ _ _ _ _ _ Hload) as (Hsd & _).
    split; [done|]. split; [|done].
    intros item' [= <-]. split; [by apply Hsd|].
    exists (Z.to_nat n). split; [done|]. intros Hmode.
    specialize (Hoff Hmode). lia.
  - pose proof (_load_item_keeps_queues _ _ _ _ _ _ _ _ Hload) as Hsame.
    destruct (is_MediaNotFoundError e) eqn:Hcaught.
    2:{ injection Hrun as <- <-. split; [done|]. split; done. }
    unfold log, item_setattr, modify in Hrun. simpl in Hrun.
    injection Hsame as Hqueues Hlists.
    match type of Hrun with
    | load_next_from _ _ _ _ ?s = _ =>
        assert (Hq1 : _queues s !! queue_id = Some queue)
          by (simpl; congruence);
        assert (Hitems1 : _queue_items s !! queue_id = Some queue_items)
          by (simpl; congruence)
    end.
    destruct (IH (idx + 1) _ _ _ Hq1 Hitems1 ltac:(lia) Hrun)
      as (Hkeep & Hitem' & Hends).
    split; [|split].
    + rewrite Hkeep. unfold queues_and_items. simpl. congruence.
    + intros item' Hr. destruct (Hitem' item' Hr) as (Hsd & k & Hk & Hoff').
      split; [done|]. exists k. split; [done|].
      intros Hmode. specialize (Hoff' Hmode). lia.
    + intros Hmode Hfuel. apply Hends; [done|].
      specialize (Hnotall Hmode). lia.
Qed.

(** [load_next_item] ends on a queue that does not repeat all: with one
    round more than the queue has items, it has returned or raised. When
    it returns an item, the item is an item of the queue, it has its
    stream details loaded, and without repeat it stands after the current
    item; the queues and their item lists are as they were. *)
Theorem load_next_item_gives_a_loaded_item_of_the_queue (self : Controller)
    (queue_id : string) (queue : PlayerQueue.t) (queue_items : list loc)
    (current_item_id : string) :
  _queues self !! queue_id = Some queue →
  _queue_items self !! queue_id = Some queue_items →
  ∀ (fuel : nat) (self' : Controller) (r : result (option loc)),
    load_next_item fuel queue_id current_item_id self = (self', r) →
    _queues self' = _queues self
    ∧ _queue_items self' = _queue_items self
    ∧ (∀ item, r = Ok (Some item) →
         is_Some (QueueItem.streamdetails (objects self' item))
         ∧ ∃ (c : Z) (k : nat),
             index_by_id self queue_id current_item_id = Ok (Some c)
             ∧ queue_items !! k = Some item
             ∧ (PlayerQueue.repeat_mode queue = RepeatOFF → c < Z.of_nat k))
    ∧ (PlayerQueue.repeat_mode queue ≠ RepeatALL →
       (length queue_items < fuel)%nat →
       r ≠ Ok None).
Proof.
  intros Hq Hitems fuel self' r.
  unfold load_next_item, get, mbind, M_bind, bind, read, raise.
  unfold index_by_id at 1, queue_items_getitem.
  rewrite Hq, Hitems. simpl.
  destruct (index_by_id_from (objects self) 0 queue_items current_item_id)
    as [c|] eqn:Hc.
  - destruct (index_by_id_from_Some _ _ _ _ _ Hc) as (Hrange & _).
    intros Hrun.
    destruct (load_next_from_runs queue_id queue queue_items c ltac:(lia)
                fuel 0 self self' r Hq Hitems ltac:(lia) Hrun)
      as (Hkeep & Hitem & Hends).
    unfold queues_and_items in Hkeep. simplify_eq.
    split; [done|]. split; [done|]. split.
    + intros item Hr. destruct (Hitem item Hr) as (Hsd & k & Hk & Hoff).
      split; [done|]. exists c, k.
      split; [by unfold index_by_id, queue_items_getitem; rewrite Hitems; simpl; rewrite Hc|].
      split; [done|]. intros Hmode. specialize (Hoff Hmode). lia.
    + intros Hmode Hfuel. apply Hends; [done|]. unfold Py.len. lia.
  - intros Hrun. destruct fuel as [|fuel]; simpl in Hrun.
    + unfold ret in Hrun. simplify_eq.
      split; [done|]. split; [done|]. split; [done|]. lia.
    + unfold mbind, M_bind, bind, raise in Hrun. simplify_eq.
      split; [done|]. split; [done|]. split; done.
Qed.

(** The errors of [load_next_item]: for a queue that is not there it
    raises [PlayerUnavailableError]; for a current item that is not in the
    queue it fails on adding to the index that was not found; and after
    the last item of a queue without repeat it raises [QueueEmpty]. The
    controller is as it was in each case. *)
Theorem load_next_item_raises_at_the_end_of_the_queue (self : Controller)
    (queue_id current_item_id : string) (fuel : nat) :
  (_queues self !! queue_id = None →
     load_next_item fuel queue_id current_item_id self
     = (self, Raise (PlayerUnavailableError
                       ("PlayerQueue " +:+ queue_id +:+ " is not available"))))
  ∧ (∀ queue queue_items,
       _queues self !! queue_id = Some queue →
       _queue_items self !! queue_id = Some queue_items →
       ((∀ item, item ∈ queue_items →
           QueueItem.queue_item_id (objects self item) ≠ current_item_id) →
        ∃ msg,
          load_next_item (S fuel) queue_id current_item_id self
          = (self, Raise (TypeError msg)))
       ∧ (∀ c,
            index_by_id self queue_id current_item_id = Ok (Some c) →
            PlayerQueue.repeat_mode queue = RepeatOFF →
            Py.len queue_items - 1 ≤ c →
            load_next_item (S fuel) queue_id current_item_id self
            = (self, Raise (QueueEmpty "No more tracks left in the queue.")))).
Proof.
  split.
  - intros Hq. unfold load_next_item, get, mbind, M_bind, bind, read, raise.
    by rewrite Hq.
  - intros queue queue_items Hq Hitems. split.
    + intros Habs. eexists.
      unfold load_next_item, get, mbind, M_bind, bind, read, raise.
      unfold index_by_id, queue_items_getitem. rewrite Hq, Hitems. simpl.
      rewrite (index_by_id_from_absent _ _ _ _ Habs). done.
    + intros c Hc Hmode Hlast.
      unfold load_next_item, get, mbind, M_bind, bind, read, raise.
      rewrite Hq. simpl. rewrite Hc. simpl.
      unfold mbind, M_bind, bind, read, ret, raise.
      unfold _get_next_index, queues_getitem, queue_items_getitem.
      rewrite Hq, Hitems. simpl. rewrite Hmode. simpl.
      destruct queue_items as [|x l]; [done|].
      rewrite Z.add_0_r.
      destruct (Z.leb_spec (Py.len (x :: l) - 1) c); [done|lia].
Qed.

(** ** The item count of a queue *)

Lemma preserves_bind {A B} (I : Controller → Prop) (m : M A)
    (k : A → M B) :
  preserves I m → (∀ a, preserves I (k a)) → preserves I (m ≫= k).
Proof.
  intros Hm Hk self self' r. unfold mbind, M_bind, bind.
  destruct (m self) as [self1 [a|e]] eqn:Hrun; intros Heq HI.
  - eapply Hk; [done|]. by eapply Hm.
  - simplify_eq. by eapply Hm.
Qed.

Lemma preserves_ret {A} (I : Controller → Prop) (a : A) :
  preserves I (ret a).
Proof. intros self self' r Heq. unfold ret in Heq. by simplify_eq. Qed.

Lemma preserves_raise {A} (I : Controller → Prop) (e : exn) :
  preserves I (raise (A := A) e).
Proof. intros self self' r Heq. unfold raise in Heq. by simplify_eq. Qed.

Lemma preserves_read {A} (I : Controller → Prop)
    (f : Controller → result A) :
  preserves I (read f).
Proof. intros self self' r Heq. unfold read in Heq. by simplify_eq. Qed.

Lemma preserves_modify (I : Controller → Prop)
    (f : Controller → Controller) :
  (∀ self, I self → I (f self)) → preserves I (modify f).
Proof.
  intros Hf self self' r Heq. unfold modify in Heq. simplify_eq. apply Hf.
Qed.

Lemma preserves_try_except {A} (I : Controller → Prop) (m : M A)
    (catches : exn → bool) (handler : exn → M A) :
  preserves I m → (∀ e, preserves I (handler e)) →
  preserves I (try_except m catches handler).
Proof.
  intros Hm Hh self self' r. unfold try_except.
  destruct (m self) as [self1 [a|e]] eqn:Hrun; intros Heq HI.
  - simplify_eq. by eapply Hm.
  - destruct (catches e).
    + eapply Hh; [done|]. by eapply Hm.
    + simplify_eq. by eapply Hm.
Qed.

Lemma preserves_for_each {A} (I : Controller → Prop) (l : list A)
    (body : A → M unit) :
  (∀ x, preserves I (body x)) → preserves I (for_each l body).
Proof.
  intros Hbody. induction l as [|x l IH]; simpl.
  - apply preserves_ret.
  - apply (preserves_bind (B := unit)); [done|]. intros _. exact IH.
Qed.

Lemma preserves_random_sample {A} (I : Controller → Prop) (l : list A)
    (k : Z) :
  (∀ self tape, I self → I (with_random_tape tape self)) →
  preserves I (random_sample l k).
Proof.
  intros Hview self self' r Heq. unfold random_sample in Heq.
  destruct ((k <? 0) || (Py.len l <? k)); simplify_eq; [done|].
  destruct (sample_draws _ _ _). simplify_eq. apply Hview.
Qed.

(** Setting an attribute of a queue other than its item count. *)
Lemma in_step_queue_setattr (target : string)
    (set : PlayerQueue.t → PlayerQueue.t) :
  (∀ q, PlayerQueue.items (set q) = PlayerQueue.items q) →
  preserves items_in_step (queue_setattr target set).
Proof.
  intros Hset self self' r Heq HI. unfold queue_setattr in Heq.
  destruct (_queues self !! target) as [q|] eqn:Hq; simplify_eq; [|done].
  intros queue_id queue queue_items. simpl.
  destruct (decide (target = queue_id)) as [->|Hne].
  - rewrite lookup_insert_eq. intros [= <-] Hitems. rewrite Hset. by eapply HI.
  - rewrite lookup_insert_ne by done. apply HI.
Qed.

(** [update_items] on a queue that is not there: the list is stored, and
    then the method fails on the queue. *)
Lemma update_items_without_queue (self : Controller) (queue_id : string)
    (queue_items : list loc) :
  _queues self !! queue_id = None →
  update_items queue_id queue_items self
  = (with_queue_items (<[queue_id := queue_items]> (_queue_items self)) self,
     Raise (KeyError queue_id)).
Proof.
  intros Hq. unfold update_items.
  unfold mbind, M_bind, bind, read, modify, ret, queue_setattr.
  unfold queue_items_getitem. simpl. rewrite lookup_insert_eq. simpl.
  by rewrite Hq.
Qed.

(** [update_items] puts the count of the queue in step with the list it
    stores. *)
Lemma update_items_in_step (target : string) (l : list loc) :
  preserves items_in_step (update_items target l).
Proof.
  intros self self' r Heq HI queue_id queue queue_items.
  destruct (_queues self !! target) as [q|] eqn:Hq.
  - destruct (update_items_spec self target q l Hq)
      as (self1 & Hrun & Hi' & Hq' & _).
    rewrite Hrun in Heq. simplify_eq. rewrite Hi', Hq'.
    destruct (decide (target = queue_id)) as [->|Hne].
    + rewrite !lookup_insert_eq. by intros [= <-] [= <-].
    + rewrite !lookup_insert_ne by done. apply HI.
  - rewrite update_items_without_queue in Heq by done. simplify_eq. simpl.
    destruct (decide (target = queue_id)) as [->|Hne].
    + by rewrite Hq.
    + rewrite lookup_insert_ne by done. apply HI.
Qed.

(** The same when the stored list was popped in place just before, as in
    [delete_item]. *)
Lemma pop_then_update_in_step (target : string) (l : list loc) :
  preserves items_in_step
    (modify (λ self,
       with_queue_items (<[target := l]> (_queue_items self)) self) ;;
     update_items target l).
Proof.
  intros self self' r Heq.
  assert (Heq' : update_items target l self = (self', r)).
  { rewrite <- Heq.
    unfold update_items, mbind, M_bind, bind, modify. simpl.
    by rewrite insert_insert_eq. }
  by eapply update_items_in_step.
Qed.

Create HintDb in_step discriminated.
#[local] Hint Resolve update_items_in_step pop_then_update_in_step : in_step.

Ltac in_step_step :=
  first
    [ solve [auto 1 with in_step nocore]
    | apply preserves_ret
    | apply preserves_raise
    | apply preserves_read
    | apply preserves_modify; by intros []
    | apply preserves_random_sample; by intros []
    | apply in_step_queue_setattr; by intros []
    | apply preserves_for_each; intros ?
    | apply preserves_try_except; [|intros ?]
    | apply preserves_bind; [|intros ?]
    | match goal with
      | |- preserves _ (if ?b then _ else _) => destruct b
      | |- preserves _ (match ?x with _ => _ end) => destruct x
      end ].

Ltac in_step_auto := repeat in_step_step.

Lemma signal_update_in_step (queue_id : string) (items_changed : bool) :
  preserves items_in_step (signal_update queue_id items_changed).
Proof. unfold signal_update, signal_event, create_task. in_step_auto. Qed.
#[local] Hint Resolve signal_update_in_step : in_step.

Lemma load_in_step (queue_id : string) (l : list loc) (k : Z)
    (keep_remaining keep_played shuffle : bool) :
  preserves items_in_step
    (load queue_id l k keep_remaining keep_played shuffle).
Proof. unfold load, bump_sort_index, item_setattr. in_step_auto. Qed.
#[local] Hint Resolve load_in_step : in_step.

Lemma clear_in_step (queue_id : string) :
  preserves items_in_step (clear queue_id).
Proof. unfold clear, create_task. in_step_auto. Qed.
#[local] Hint Resolve clear_in_step : in_step.

Lemma _load_item_in_step (queue_item : loc) (next_index : option Z)
    (is_start : bool) (seek_position : Z) (fade_in : option bool) :
  preserves items_in_step
    (_load_item queue_item next_index is_start seek_position fade_in).
Proof. unfold _load_item, item_setattr. in_step_auto. Qed.
#[local] Hint Resolve _load_item_in_step : in_step.

Lemma play_index_in_step (queue_id : string) (index : id_or_index)
    (seek_position : Z) (fade_in : option bool) (debounce : bool) :
  preserves items_in_step
    (play_index queue_id index seek_position fade_in debounce).
Proof. unfold play_index, create_task. in_step_auto. Qed.
#[local] Hint Resolve play_index_in_step : in_step.

Lemma resume_in_step (queue_id : string) (fade_in : option bool) :
  preserves items_in_step (resume queue_id fade_in).
Proof. unfold resume. in_step_auto. Qed.
#[local] Hint Resolve resume_in_step : in_step.

Lemma next_from_in_step (queue_id display_name : string) :
  ∀ (fuel : nat) (idx : option Z),
    preserves items_in_step (next_from fuel queue_id display_name idx).
Proof.
  induction fuel as [|fuel IH]; intros idx; simpl.
  - apply preserves_ret.
  - unfold log. in_step_auto.
Qed.
#[local] Hint Resolve next_from_in_step : in_step.

Lemma load_next_from_in_step (queue_id : string) (cur_index : option Z) :
  ∀ (fuel : nat) (idx : Z),
    preserves items_in_step (load_next_from fuel queue_id cur_index idx).
Proof.
  induction fuel as [|fuel IH]; intros idx; simpl.
  - apply preserves_ret.
  - unfold log, item_setattr. in_step_auto.
Qed.
#[local] Hint Resolve load_next_from_in_step : in_step.

Lemma check_clear_rounds_in_step (queue : PlayerQueue.t) :
  ∀ rounds : nat, preserves items_in_step (check_clear_rounds rounds queue).
Proof.
  induction rounds as [|rounds IH]; simpl.
  - apply preserves_ret.
  - unfold create_task. in_step_auto.
Qed.
#[local] Hint Resolve check_clear_rounds_in_step : in_step.

(** The count [items] of a queue stays in step with its item list: when
    each queue of the controller counts as many items as its list holds,
    this is still so after each of the methods that work on the item
    list or on the position in it, whether the method returns or raises:
    [update_items], [load], [clear], [move_item], [delete_item],
    [set_shuffle], [transfer_queue], [play_index], [resume], [next],
    [previous], [seek], [load_next_item], [track_loaded_in_buffer],
    [set_repeat] and [_check_clear_queue]. *)
Theorem item_count_stays_in_step_with_the_item_list :
  (∀ queue_id queue_items,
     preserves items_in_step (update_items queue_id queue_items))
  ∧ (∀ queue_id queue_items insert_at_index keep_remaining keep_played shuffle,
       preserves items_in_step
         (load queue_id queue_items insert_at_index keep_remaining
            keep_played shuffle))
  ∧ (∀ queue_id, preserves items_in_step (clear queue_id))
  ∧ (∀ queue_id queue_item_id pos_shift,
       preserves items_in_step (move_item queue_id queue_item_id pos_shift))
  ∧ (∀ queue_id item_id_or_index,
       preserves items_in_step (delete_item queue_id item_id_or_index))
  ∧ (∀ queue_id shuffle_enabled,
       preserves items_in_step (set_shuffle queue_id shuffle_enabled))
  ∧ (∀ source_queue_id target_queue_id auto_play,
       preserves items_in_step
         (transfer_queue source_queue_id target_queue_id auto_play))
  ∧ (∀ queue_id index seek_position fade_in debounce,
       preserves items_in_step
         (play_index queue_id index seek_position fade_in debounce))
  ∧ (∀ queue_id fade_in, preserves items_in_step (resume queue_id fade_in))
  ∧ (∀ fuel queue_id, preserves items_in_step (next fuel queue_id))
  ∧ (∀ queue_id, preserves items_in_step (previous queue_id))
  ∧ (∀ queue_id position, preserves items_in_step (seek queue_id position))
  ∧ (∀ fuel queue_id current_item_id,
       preserves items_in_step
         (load_next_item fuel queue_id current_item_id))
  ∧ (∀ queue_id item_id,
       preserves items_in_step (track_loaded_in_buffer queue_id item_id))
  ∧ (∀ queue_id repeat_mode,
       preserves items_in_step (set_repeat queue_id repeat_mode))
  ∧ (∀ queue, preserves items_in_step (_check_clear_queue queue)).
Proof.
  repeat split; intros.
  - apply update_items_in_step.
  - apply load_in_step.
  - apply clear_in_step.
  - unfold move_item. in_step_auto.
  - unfold delete_item, log. in_step_auto.
  - unfold set_shuffle. in_step_auto.
  - unfold transfer_queue, item_setattr, create_task. in_step_auto.
  - apply play_index_in_step.
  - apply resume_in_step.
  - unfold next. in_step_auto.
  - unfold previous. in_step_auto.
  - unfold seek, play_index_at. in_step_auto.
  - unfold load_next_item. in_step_auto.
  - unfold track_loaded_in_buffer. in_step_auto.
  - unfold set_repeat. in_step_auto.
  - unfold _check_clear_queue, log. in_step_auto.
Qed.

(** ** Clearing, deleting and moving *)

(** What [clear] does on a queue of the controller. *)
Lemma clear_runs (self : Controller) (queue_id : string)
    (queue : PlayerQueue.t) :
  _queues self !! queue_id = Some queue →
  ∃ self' : Controller,
    clear queue_id self = (self', Ok tt)
    ∧ _queue_items self' = <[queue_id := []]> (_queue_items self)
    ∧ _queues self'
      = <[queue_id :=
            PlayerQueue.set_next_track_enqueued None
              (PlayerQueue.set_items 0
                 (PlayerQueue.set_index_in_buffer None
                    (PlayerQueue.set_elapsed_time 0
                       (PlayerQueue.set_current_item None
                          (PlayerQueue.set_current_index None
                             (PlayerQueue.set_radio_source [] queue))))))]>
          (_queues self)
    ∧ objects self' = objects self
    ∧ tasks self'
      = tasks self
        ++ (if bool_decide (PlayerQueue.state queue ≠ IDLE)
            then [StopTask queue_id] else [])
        ++ [CacheSetItems queue_id []; CacheSetState queue_id].
Proof.
  intros Hq.
  unfold clear, update_items, signal_update, signal_event, create_task.
  unfold mbind, M_bind, bind, read, ret, queue_setattr, modify.
  unfold queues_getitem, queue_items_getitem. rewrite Hq. simpl.
  destruct (bool_decide (PlayerQueue.state queue ≠ IDLE)); simpl;
    repeat (rewrite lookup_insert_eq; simpl);
    (eexists; split; [reflexivity|]); simpl;
    rewrite !insert_insert_eq, <- ?app_assoc; done.
Qed.

(** [clear] leaves an empty, stopped queue: no items and an item count
    of 0, no current index, current item or buffered index, no elapsed
    time and no radio source; the player is told to stop if the queue was
    not idle. After it there is no next index from any index, and
    [resume] raises [QueueEmpty]. *)
Theorem clear_leaves_an_empty_queue (self : Controller) (queue_id : string)
    (queue : PlayerQueue.t) :
  _queues self !! queue_id = Some queue →
  ∃ (self' : Controller) (queue' : PlayerQueue.t),
    clear queue_id self = (self', Ok tt)
    ∧ _queue_items self' !! queue_id = Some []
    ∧ _queues self' !! queue_id = Some queue'
    ∧ PlayerQueue.items queue' = 0
    ∧ PlayerQueue.current_index queue' = None
    ∧ PlayerQueue.current_item queue' = None
    ∧ PlayerQueue.index_in_buffer queue' = None
    ∧ PlayerQueue.elapsed_time queue' = 0
    ∧ PlayerQueue.radio_source queue' = []
    ∧ (StopTask queue_id ∈ tasks self'
       ↔ PlayerQueue.state queue ≠ IDLE ∨ StopTask queue_id ∈ tasks self)
    ∧ (∀ cur_index is_skip allow_repeat,
         _get_next_index self' queue_id cur_index is_skip allow_repeat
         = Ok None)
    ∧ (∀ fade_in, ∃ msg,
         resume queue_id fade_in self' = (self', Raise (QueueEmpty msg))).
Proof.
  intros Hq.
  destruct (clear_runs self queue_id queue Hq)
    as (self' & Hrun & Hi' & Hq' & _ & Ht').
  eexists self', _. split; [done|].
  split; [by rewrite Hi', lookup_insert_eq|].
  split; [by rewrite Hq', lookup_insert_eq|].
  do 6 (split; [done|]). split; [|split].
  - rewrite Ht'. rewrite !elem_of_app.
    case_bool_decide as Hstate.
    + rewrite list_elem_of_singleton. split; [by left|]. intros _.
      right. by left.
    + split.
      * intros [?|[Hin|Hin]]; [by right| |].
        -- by apply elem_of_nil in Hin.
        -- apply elem_of_cons in Hin as [?|Hin]; [done|].
           apply list_elem_of_singleton in Hin. done.
      * intros [?|?]; [done|by left].
  - intros cur_index is_skip allow_repeat.
    unfold _get_next_index, queues_getitem, queue_items_getitem.
    rewrite Hq', Hi', !lookup_insert_eq. done.
  - intros fade_in. eexists.
    unfold resume, mbind, M_bind, bind, read, ret, raise.
    unfold queues_getitem, queue_items_getitem.
    rewrite Hq', Hi', !lookup_insert_eq. simpl. done.
Qed.

(** [l.pop(i)] at an index within the list, and past it. *)
Lemma pop_within {A} (l : list A) (i : Z) :
  0 ≤ i < Py.len l →
  ∃ x, l !! Z.to_nat i = Some x
       ∧ Py.pop l i
         = Ok (x, take (Z.to_nat i) l ++ drop (S (Z.to_nat i)) l).
Proof.
  intros Hi. unfold Py.pop.
  assert (Hi0 : (i <? 0) = false) by (apply Z.ltb_ge; lia).
  assert (Hin : (Py.len l <=? i) = false) by (apply Z.leb_gt; lia).
  rewrite Hi0. simpl. rewrite Hi0, Hin. simpl.
  destruct (lookup_lt_is_Some_2 l (Z.to_nat i)) as [x Hx].
  { unfold Py.len in Hi. lia. }
  exists x. by rewrite Hx.
Qed.

Lemma pop_past {A} (l : list A) (i : Z) :
  Py.len l ≤ i → Py.pop l i = Raise (IndexError "pop index out of range").
Proof.
  intros Hi. unfold Py.pop.
  assert (0 ≤ Py.len l) by (unfold Py.len; lia).
  assert (Hi0 : (i <? 0) = false) by (apply Z.ltb_ge; lia).
  assert (Hin : (Py.len l <=? i) = true) by (apply Z.leb_le; lia).
  rewrite Hi0. simpl. by rewrite Hi0, Hin.
Qed.

(** Removing the element at an index and putting an element in give
    back the elements of the list. *)
Lemma pop_insert_perm {A} (l : list A) (i : Z) (x : A) (rest : list A)
    (new_index : Z) :
  Py.pop l i = Ok (x, rest) →
  Py.insert rest new_index x ≡ₚ l.
Proof.
  unfold Py.pop, Py.insert. intros Hpop.
  destruct ((_ <? 0) || _); [done|].
  destruct (l !! _) as [y|] eqn:Hy; [|done]. simplify_eq.
  etransitivity; [symmetry; apply Permutation_middle|]. rewrite take_drop.
  etransitivity; [apply Permutation_middle|]. by rewrite take_drop_middle.
Qed.


(** [move_item] never loses or repeats an item: however it ends, the
    item list of the queue holds the items it held, and it is the very
    same list unless the method returned. When an item at the index [j]
    is moved by a shift that is not 0 and the method changes the list,
    the item stands at the index [j] plus the shift afterwards, or last
    if that is the length. *)
Theorem move_item_keeps_the_items (self self' : Controller)
    (queue_id : string) (queue : PlayerQueue.t) (queue_items : list loc)
    (queue_item_id : string) (pos_shift : Z) (r : result unit) :
  _queues self !! queue_id = Some queue →
  _queue_items self !! queue_id = Some queue_items →
  move_item queue_id queue_item_id pos_shift self = (self', r) →
  ∃ queue_items' : list loc,
    _queue_items self' !! queue_id = Some queue_items'
    ∧ queue_items' ≡ₚ queue_items
    ∧ objects self' = objects self
    ∧ (r ≠ Ok tt → self' = self)
    ∧ (queue_items' ≠ queue_items → pos_shift ≠ 0 →
       ∃ (j : Z) (item : loc),
         index_by_id self queue_id queue_item_id = Ok (Some j)
         ∧ queue_items !! Z.to_nat j = Some item
         ∧ (0 ≤ j + pos_shift →
            queue_items'
              !! Z.to_nat (Z.min (j + pos_shift) (Py.len queue_items - 1))
            = Some item)).
Proof.
  intros Hq Hitems.
  unfold move_item, mbind, M_bind, bind, read, ret, raise.
  unfold queues_getitem, index_by_id, queue_items_getitem.
  rewrite Hq, Hitems. simpl.
  destruct (index_by_id_from (objects self) 0 queue_items queue_item_id)
    as [j|] eqn:Hj; simpl.
  2:{ intros [= <- <-]. exists queue_items. by repeat split. }
  destruct (PlayerQueue.index_in_buffer queue) as [b|]; simpl.
  2:{ intros [= <- <-]. exists queue_items. by repeat split. }
  destruct (j <=? b).
  { intros [= <- <-]. exists queue_items. by repeat split. }
  rewrite Hitems. simpl.
  set (new_index :=
         if (pos_shift =? 0) && bool_decide (PlayerQueue.state queue = PLAYING)
         then Py.or_int (PlayerQueue.current_index queue) 0 + 1
         else if pos_shift =? 0
              then Py.or_int (PlayerQueue.current_index queue) 0
              else j + pos_shift).
  destruct ((new_index <? Py.or_int (PlayerQueue.current_index queue) 0)
            || (Py.len queue_items <? new_index)).
  { intros [= <- <-]. exists queue_items. by repeat split. }
  destruct (index_by_id_from_Some _ _ _ _ _ Hj) as (Hrange & item & Hitem & _).
  rewrite Z.sub_0_r in Hitem.
  destruct (pop_within queue_items j ltac:(lia)) as (item' & Hitem' & Hpop).
  assert (item' = item) as -> by congruence.
  rewrite Hpop. simpl.
  match goal with
  | |- context [update_items queue_id ?l self] =>
      destruct (update_items_spec self queue_id queue l Hq)
        as (self1 & Hrun & Hi' & Hq' & Ho' & _)
  end.
  rewrite Hrun. intros [= <- <-].
  eexists. split; [by rewrite Hi', lookup_insert_eq|].
  split; [by eapply pop_insert_perm|]. split; [done|]. split; [done|].
  intros _ Hshift. exists j, item.
  split; [done|]. split; [done|]. intros Hnew.
  subst new_index. destruct (Z.eqb_spec pos_shift 0); [done|]. simpl.
  unfold Py.insert.
  set (rest := take (Z.to_nat j) queue_items ++ drop (S (Z.to_nat j)) queue_items).
  assert (Hrest : Py.len rest = Py.len queue_items - 1).
  { subst rest. unfold Py.len in *.
    rewrite length_app, length_take, length_drop. lia. }
  rewrite bound_nonneg by (rewrite ?Hrest; lia). rewrite Hrest.
  rewrite Z.min_comm.
  rewrite lookup_app_r; rewrite length_take.
  - replace (_ - _)%nat with 0%nat; [done|].
    unfold Py.len in *. lia.
  - unfold Py.len in *. lia.
Qed.

(** ** Clearing a queue at its end *)

(** The rounds of [_check_clear_queue] on a queue that is at its end, and
    on one that is not. *)
Lemma check_clear_rounds_at_end (queue : PlayerQueue.t)
    (queue_items : list loc) :
  PlayerQueue.state queue = IDLE →
  PlayerQueue.next_item queue = None →
  Py.len queue_items - 1 ≤ Py.or_int (PlayerQueue.current_index queue) 0 →
  ∀ (rounds : nat) (self : Controller),
    _queue_items self !! PlayerQueue.queue_id queue = Some queue_items →
    check_clear_rounds rounds queue self
    = (with_tasks (tasks self ++ replicate rounds (Sleep 1)) self, Ok true).
Proof.
  intros Hstate Hnext Hend.
  induction rounds as [|rounds IH]; intros self Hitems.
  - simpl. unfold ret. rewrite app_nil_r. by destruct self.
  - simpl. unfold create_task, mbind, M_bind, bind, read, ret, modify.
    unfold queue_items_getitem. rewrite Hstate, Hnext. simpl.
    rewrite Hitems. simpl.
    destruct (Z.leb_spec (Py.len queue_items - 1)
                (Py.or_int (PlayerQueue.current_index queue) 0)); [|lia].
    simpl. rewrite IH by done. simpl. by rewrite <- app_assoc.
Qed.

Lemma check_clear_rounds_not_at_end (queue : PlayerQueue.t)
    (queue_items : list loc) (rounds : nat) (self : Controller) :
  _queue_items self !! PlayerQueue.queue_id queue = Some queue_items →
  PlayerQueue.state queue ≠ IDLE
  ∨ is_Some (PlayerQueue.next_item queue)
  ∨ Py.or_int (PlayerQueue.current_index queue) 0 < Py.len queue_items - 1 →
  check_clear_rounds (S rounds) queue self
  = (with_tasks (tasks self ++ [Sleep 1]) self, Ok false).
Proof.
  intros Hitems Hnot.
  simpl. unfold create_task, mbind, M_bind, bind, read, ret, modify.
  unfold queue_items_getitem.
  case_bool_decide as Hstate; [done|].
  destruct (PlayerQueue.next_item queue) as [next_item|] eqn:Hnext; [done|].
  simpl. rewrite Hitems. simpl.
  destruct (Z.leb_spec (Py.len queue_items - 1)
              (Py.or_int (PlayerQueue.current_index queue) 0)); [|done].
  destruct Hnot as [?|[[? ?]|?]]; [done|done|lia].
Qed.


(** ** The tracks of an album or a playlist *)

(** Once the start item is found (or when none is asked for), the loop
    keeps every available track. *)
Lemma tracks_from_start_item_found (start_item : option string)
    (tracks : list MediaItem.t) :
  tracks_from_start_item start_item true tracks
  = filter (λ t, MediaItem.available t = true) tracks.
Proof.
  induction tracks as [|t l IH]; [done|]. simpl.
  destruct (MediaItem.available t) eqn:Ht; simpl.
  - rewrite andb_false_r, filter_cons_True by done. by rewrite IH.
  - by rewrite filter_cons_False by (by rewrite Ht).
Qed.

Lemma tracks_without_start_item (tracks : list MediaItem.t) :
  tracks_from_start_item None false tracks
  = filter (λ t, MediaItem.available t = true) tracks.
Proof.
  induction tracks as [|t l IH]; [done|]. simpl.
  destruct (MediaItem.available t) eqn:Ht; simpl.
  - rewrite filter_cons_True by done. by rewrite IH.
  - by rewrite filter_cons_False by (by rewrite Ht).
Qed.

Lemma tracks_from_start_item_split (start_item : string)
    (tracks : list MediaItem.t) :
  ∃ before after : list MediaItem.t,
    filter (λ t, MediaItem.available t = true) tracks = before ++ after
    ∧ tracks_from_start_item (Some start_item) false tracks = after
    ∧ Forall (λ t, MediaItem.item_id t ≠ start_item
                   ∧ MediaItem.uri t ≠ start_item) before
    ∧ match after with
      | [] => True
      | first :: _ =>
          MediaItem.item_id first = start_item
          ∨ MediaItem.uri first = start_item
      end.
Proof.
  induction tracks as [|t l IH].
  - exists [], []. by repeat split.
  - simpl. destruct (MediaItem.available t) eqn:Ht; simpl.
    + rewrite filter_cons_True by done.
      destruct (decide (MediaItem.item_id t = start_item
                        ∨ MediaItem.uri t = start_item)) as [Hstart|Hnot].
      * exists [], (t :: filter (λ t, MediaItem.available t = true) l).
        split; [done|]. split; [|by split].
        replace (bool_decide (Some start_item = Some (MediaItem.item_id t))
                 || bool_decide (Some start_item = Some (MediaItem.uri t)))
          with true.
        { simpl. by rewrite tracks_from_start_item_found. }
        symmetry. apply orb_true_iff.
        destruct Hstart as [<-|<-]; [left|right]; by apply bool_decide_eq_true.
      * destruct IH as (before & after & Hsplit & Hrun & Hbefore & Hafter).
        exists (t :: before), after. rewrite Hsplit.
        split; [done|]. split; [|split; [|done]].
        -- rewrite !bool_decide_eq_false_2
             by (intros [= ?]; apply Hnot; auto).
           done.
        -- constructor; [|done]. split; intros ?; apply Hnot; auto.
    + rewrite filter_cons_False by (by rewrite Ht). exact IH.
Qed.

(** [get_album_tracks] and [get_playlist_tracks] give the available
    tracks of the listing, in its order: all of them when no start item
    is asked for, and otherwise those from the first available track
    whose item id or uri is the start item; when no available track is the
    start item, they give no track at all. *)
Theorem album_and_playlist_tracks_start_at_the_start_item
    (self : Controller) (media_item : MediaItem.t)
    (start_item : option string) (tracks : list MediaItem.t) :
  (∀ in_library_only, albums_tracks mass media_item in_library_only = Ok tracks) →
  playlists_tracks mass media_item = Ok tracks →
  ∃ result : list MediaItem.t,
    (get_album_tracks media_item start_item self).2 = Ok result
    ∧ (get_playlist_tracks media_item start_item self).2 = Ok result
    ∧ match start_item with
      | None => result = filter (λ t, MediaItem.available t = true) tracks
      | Some start =>
          ∃ before : list MediaItem.t,
            filter (λ t, MediaItem.available t = true) tracks
            = before ++ result
            ∧ Forall (λ t, MediaItem.item_id t ≠ start
                           ∧ MediaItem.uri t ≠ start) before
            ∧ match result with
              | [] => True
              | first :: _ =>
                  MediaItem.item_id first = start
                  ∨ MediaItem.uri first = start
              end
      end.
Proof.
  intros Halbum Hplaylist.
  exists (tracks_from_start_item start_item false tracks).
  split; [|split].
  - unfold get_album_tracks, log, mbind, M_bind, bind, read, ret, modify.
    simpl. by rewrite Halbum.
  - unfold get_playlist_tracks, log, mbind, M_bind, bind, read, ret, modify.
    simpl. by rewrite Hplaylist.
  - destruct start_item as [start|].
    + destruct (tracks_from_start_item_split start tracks)
        as (before & after & Hsplit & -> & Hbefore & Hafter).
      by exists before.
    + apply tracks_without_start_item.
Qed.

(** ** Don't stop the music *)

(** [set_dont_stop_the_music] checks the providers before it looks at
    the queue: enabling the setting when no provider supports similar
    tracks raises [UnsupportedFeaturedException] and changes nothing, even
    for a queue that is not there. On a queue of the controller,
    disabling always works and schedules nothing; enabling (with a
    provider that supports similar tracks) makes the enqueued media the
    radio source and schedules the refill exactly when there are enqueued
    media and the current index is at the last item or past it. *)
Theorem dont_stop_the_music_needs_similar_tracks (self : Controller)
    (queue_id : string) :
  (existsb id similar_tracks_supported = false →
     ∃ msg,
       set_dont_stop_the_music queue_id true self
       = (self, Raise (UnsupportedFeaturedException msg)))
  ∧ (∀ (queue : PlayerQueue.t) (enabled : bool),
       _queues self !! queue_id = Some queue →
       enabled = false ∨ existsb id similar_tracks_supported = true →
       ∃ (self' : Controller) (queue' : PlayerQueue.t),
         set_dont_stop_the_music queue_id enabled self = (self', Ok tt)
         ∧ _queue_items self' = _queue_items self
         ∧ _queues self' !! queue_id = Some queue'
         ∧ PlayerQueue.dont_stop_the_music_enabled queue' = enabled
         ∧ (if enabled
               && (0 <? Py.len (PlayerQueue.enqueued_media_items queue))
               && match PlayerQueue.current_index queue with
                  | Some c => PlayerQueue.items queue - c <=? 1
                  | None => false
                  end
            then
              PlayerQueue.radio_source queue'
              = PlayerQueue.enqueued_media_items queue
              ∧ tasks self'
                = tasks self ++ [CacheSetState queue_id;
                                 FillRadioLater queue_id]
            else
              PlayerQueue.radio_source queue'
              = PlayerQueue.radio_source queue
              ∧ tasks self' = tasks self ++ [CacheSetState queue_id])).
Proof.
  split.
  - intros Hnone. eexists. unfold set_dont_stop_the_music.
    by rewrite Hnone.
  - intros queue enabled Hq Hok.
    unfold set_dont_stop_the_music.
    replace (enabled && negb (existsb id similar_tracks_supported))
      with false.
    2:{ destruct Hok as [-> | ->]; [done|]. by rewrite andb_false_r. }
    unfold signal_update, signal_event, create_task.
    unfold mbind, M_bind, bind, read, ret, modify, queue_setattr.
    unfold queues_getitem. rewrite Hq. simpl.
    repeat (rewrite lookup_insert_eq; simpl).
    destruct (PlayerQueue.current_index queue) as [c|] eqn:Hc; simpl.
    + destruct (enabled
                && (0 <? Py.len (PlayerQueue.enqueued_media_items queue))
                && (PlayerQueue.items queue - c <=? 1)) eqn:Hcond; simpl;
        repeat (rewrite lookup_insert_eq; simpl);
        eexists _, _; (split; [reflexivity|]); simpl;
        rewrite ?insert_insert_eq, lookup_insert_eq, <- ?app_assoc; done.
    + rewrite !andb_false_r.
      eexists _, _. split; [reflexivity|]. simpl.
      by rewrite lookup_insert_eq.
Qed.

(** ** Restoring a queue at registration, in full *)

(** The objects that [new_objects] creates stand at the references from
    the next free one on, in the order of the items, and the objects
    before them are untouched. *)
Lemma new_objects_runs (decoded : list QueueItem.t) :
  ∀ self : Controller,
    ∃ objs' : loc → QueueItem.t,
      new_objects decoded self
      = (with_next_loc (next_loc self + length decoded)%nat
           (with_objects objs' self),
         Ok (seq (next_loc self) (length decoded)))
      ∧ objs' <$> seq (next_loc self) (length decoded) = decoded
      ∧ (∀ r, (r < next_loc self)%nat → objs' r = objects self r).
Proof.
  induction decoded as [|i l IH]; intros self.
  - exists (objects self). simpl. unfold ret.
    rewrite Nat.add_0_r. by destruct self.
  - simpl. unfold mbind, M_bind, bind, new_object at 1, ret.
    destruct (IH (with_next_loc (S (next_loc self))
                    (with_objects
                       (store_update (objects self) (next_loc self) i) self)))
      as (objs' & Hrun & Hobjs & Hold).
    rewrite Hrun. simpl in *. exists objs'. split; [|split].
    + by rewrite Nat.add_succ_r.
    + f_equal; [|exact Hobjs]. rewrite Hold by lia.
      unfold store_update. by rewrite bool_decide_eq_true_2.
    + intros r Hr. rewrite Hold by lia. unfold store_update.
      rewrite bool_decide_eq_false_2 by lia. done.
Qed.

(** Registration restores what the cache holds: with a readable state
    and readable items, the queue is the cached queue and its items are
    the cached items, in their order, as new objects; nothing is logged.
    Without a cached state the queue is a new, empty one. In both cases
    the update from the player and the QUEUE_ADDED event follow. *)
Theorem on_player_register_restores_the_cached_queue (self : Controller)
    (player : Player.t) :
  (cache_get_state mass (Player.player_id player) = None →
     on_player_register player self
     = (on_player_update player ;;
        signal_event QUEUE_ADDED (Player.player_id player))
         (with_queue_items
            (<[Player.player_id player := []]> (_queue_items self))
            (with_queues
               (<[Player.player_id player := empty_queue player]>
                  (_queues self)) self)))
  ∧ (∀ (prev_state : CachedState) (queue : PlayerQueue.t)
       (decoded : list QueueItem.t),
       cache_get_state mass (Player.player_id player) = Some prev_state →
       PlayerQueue_from_cache mass prev_state = Ok queue →
       result_map (QueueItem_from_cache mass)
         (cache_get_items mass (Player.player_id player))
       = Ok decoded →
       ∃ (restored : Controller) (queue_items : list loc),
         on_player_register player self
         = (on_player_update player ;;
            signal_event QUEUE_ADDED (Player.player_id player)) restored
         ∧ _queues restored
           = <[Player.player_id player := queue]> (_queues self)
         ∧ _queue_items restored
           = <[Player.player_id player := queue_items]> (_queue_items self)
         ∧ objects restored <$> queue_items = decoded
         ∧ NoDup queue_items
         ∧ (∀ r, (r < next_loc self)%nat →
              objects restored r = objects self r)
         ∧ logger restored = logger self).
Proof.
  split.
  - intros Hnone. unfold on_player_register.
    unfold mbind, M_bind, bind, ret, modify. by rewrite Hnone.
  - intros prev_state queue decoded Hstate Hqueue Hdecoded.
    destruct (new_objects_runs decoded self) as (objs' & Hrun & Hobjs & Hold).
    eexists _, (seq (next_loc self) (length decoded)). split.
    { unfold on_player_register, restore_previous_state.
      unfold mbind, M_bind, bind, ret, modify.
      rewrite Hstate, Hqueue, Hdecoded. unfold bind. rewrite Hrun. simpl.
      reflexivity. }
    simpl. split; [done|]. split; [done|]. split; [done|].
    split; [apply NoDup_seq|]. done.
Qed.

(** ** Refilling the queue with radio tracks *)

Lemma sample_draws_length {A} (k : nat) :
  ∀ (tape : list nat) (pool : list A),
    (length (sample_draws tape pool k).1 ≤ k)%nat.
Proof.
  induction k as [|k IH]; intros tape pool; simpl; [done|].
  destruct (pool !! _) as [x|]; simpl; [|lia].
  specialize (IH (tl tape) (delete (hd 0%nat tape `mod` length pool)%nat pool)).
  destruct (sample_draws _ _ k). simpl in *. lia.
Qed.

Lemma random_sample_length {A} (population : list A) (k : Z)
    (self self' : Controller) (picked : list A) :
  random_sample population k self = (self', Ok picked) →
  Py.len picked ≤ k.
Proof.
  unfold random_sample.
  destruct (Z.ltb_spec k 0); simpl; [done|].
  destruct (Py.len population <? k); [done|].
  pose proof (sample_draws_length (Z.to_nat k) (random_tape self) population)
    as Hlen.
  destruct (sample_draws _ _ _) as [l tape']. intros [= <- <-].
  simpl in Hlen. unfold Py.len. lia.
Qed.

(** The parts of the controller that the making of radio tracks leaves
    alone. *)
Lemma collect_base_tracks_unchanged (radio_items : list MediaItem.t) :
  ∀ available_base_tracks,
    unchanged (λ self, (_queues self, _queue_items self, objects self,
                        next_loc self))
      (collect_base_tracks radio_items available_base_tracks).
Proof.
  induction radio_items as [|x l IH]; intros available; simpl.
  - apply unchanged_ret.
  - unfold log. unchanged_auto; apply IH.
Qed.

Lemma interleave_base_tracks_unchanged (dynamic_tracks : list MediaItem.t)
    (base_tracks : list MediaItem.t) :
  ∀ queue_tracks,
    unchanged (λ self, (_queues self, _queue_items self, objects self,
                        next_loc self))
      (interleave_base_tracks base_tracks dynamic_tracks queue_tracks).
Proof.
  induction base_tracks as [|x l IH]; intros queue_tracks; simpl.
  - apply unchanged_ret.
  - unchanged_auto; apply IH.
Qed.

Lemma _get_radio_tracks_unchanged (queue_id : string)
    (is_initial_radio_mode : bool) :
  unchanged (λ self, (_queues self, _queue_items self, objects self,
                      next_loc self))
    (_get_radio_tracks queue_id is_initial_radio_mode).
Proof.
  unfold _get_radio_tracks, log.
  repeat first
    [ apply collect_base_tracks_unchanged
    | apply interleave_base_tracks_unchanged
    | unchanged_step ].
Qed.

(** Outside the initial radio mode, [_get_radio_tracks] gives at most 25
    tracks. *)
Lemma _get_radio_tracks_refill_length (queue_id : string)
    (self self' : Controller) (tracks : list MediaItem.t) :
  _get_radio_tracks queue_id false self = (self', Ok (Some tracks)) →
  Py.len tracks ≤ 25.
Proof.
  unfold _get_radio_tracks.
  unfold mbind, M_bind, bind, read, ret, raise, log, modify.
  intros Heq.
  repeat match goal with
         | H : context [match ?x with _ => _ end] |- _ =>
             destruct x eqn:?; simplify_eq
         end;
    try done;
    match goal with
    | H : random_sample _ (Z.min _ 25) _ = (_, Ok ?l) |- _ =>
        apply random_sample_length in H
    end;
    lia.
Qed.

(** The queue items made of media items are new objects, at most one per
    media item. *)
Lemma queue_items_from_media_runs (queue_id : string)
    (media_items : list (option MediaItem.t)) :
  ∀ self : Controller,
    ∃ (objs' : loc → QueueItem.t) (n : nat),
      queue_items_from_media queue_id media_items self
      = (with_next_loc (next_loc self + n)%nat (with_objects objs' self),
         Ok (seq (next_loc self) n))
      ∧ (n ≤ length media_items)%nat
      ∧ (∀ r, (r < next_loc self)%nat → objs' r = objects self r)
      ∧ (∀ r, (next_loc self ≤ r < next_loc self + n)%nat →
           QueueItem.queue_id (objs' r) = queue_id).
Proof.
  induction media_items as [|x l IH]; intros self.
  - exists (objects self), 0%nat. simpl. unfold ret.
    rewrite Nat.add_0_r. split; [by destruct self|]. split; [done|].
    split; [done|]. intros r Hr. lia.
  - assert (Hskip :
      (∃ (objs' : loc → QueueItem.t) (n : nat),
         queue_items_from_media queue_id l self
         = (with_next_loc (next_loc self + n)%nat (with_objects objs' self),
            Ok (seq (next_loc self) n))
         ∧ (n ≤ length (x :: l))%nat
         ∧ (∀ r, (r < next_loc self)%nat → objs' r = objects self r)
         ∧ (∀ r, (next_loc self ≤ r < next_loc self + n)%nat →
              QueueItem.queue_id (objs' r) = queue_id))).
    { destruct (IH self) as (objs' & n & Hrun & Hn & Hold & Hnew).
      exists objs', n. split; [done|]. split; [simpl; lia|]. done. }
    simpl. destruct x as [m|]; [|exact Hskip].
    destruct (MediaItem.available m); [|exact Hskip].
    unfold mbind, M_bind, bind, new_object at 1, ret.
    match goal with
    | |- context [queue_items_from_media queue_id l ?s] =>
        destruct (IH s) as (objs' & n & Hrun & Hn & Hold & Hnew); rewrite Hrun
    end.
    simpl in *. exists objs', (S n). split; [|split; [|split]].
    + by rewrite Nat.add_succ_r.
    + lia.
    + intros r Hr. rewrite Hold by lia. unfold store_update.
      by rewrite bool_decide_eq_false_2 by lia.
    + intros r Hr. destruct (decide (r = next_loc self)) as [->|Hne].
      * rewrite Hold by lia. unfold store_update.
        by rewrite bool_decide_eq_true_2.
      * apply Hnew. lia.
Qed.

(** [load] changes the sort index of queue items and nothing else of
    them, however it ends. *)
Lemma preserves_of_unchanged {V A} (view : Controller → V) (P : V → Prop)
    (m : M A) :
  unchanged view m → preserves (λ self, P (view self)) m.
Proof. intros Hm self self' r Heq. by rewrite (Hm _ _ _ Heq). Qed.

Lemma update_items_keeps_objects (queue_id : string) (l : list loc) :
  unchanged objects (update_items queue_id l).
Proof.
  unfold update_items, signal_update, signal_event, create_task.
  repeat first
    [ apply unchanged_queue_setattr; by intros
    | unchanged_step ].
Qed.

Lemma load_changes_the_sort_index_only (queue_id : string) (l : list loc)
    (k : Z) (keep_remaining keep_played shuffle : bool)
    (self self' : Controller) (r : result unit) :
  load queue_id l k keep_remaining keep_played shuffle self = (self', r) →
  ∀ item,
    QueueItem.set_sort_index 0 (objects self' item)
    = QueueItem.set_sort_index 0 (objects self item).
Proof.
  intros Hrun.
  set (I := λ s : Controller,
         ∀ item, QueueItem.set_sort_index 0 (objects s item)
                 = QueueItem.set_sort_index 0 (objects self item)).
  assert (Hload : preserves I
            (load queue_id l k keep_remaining keep_played shuffle)).
  { unfold load.
    repeat first
      [ apply preserves_ret
      | apply preserves_read
      | apply (preserves_of_unchanged objects
                 (λ objs, ∀ item, QueueItem.set_sort_index 0 (objs item)
                                  = QueueItem.set_sort_index 0
                                      (objects self item)));
        first [ apply update_items_keeps_objects
              | apply unchanged_random_sample; by intros [] ]
      | apply preserves_for_each; intros ?
      | apply preserves_bind; [|intros ?]
      | match goal with
        | |- preserves _ (if ?b then _ else _) => destruct b
        end ].
    unfold bump_sort_index, item_setattr. apply preserves_modify.
    intros s Hs item. simpl. unfold store_update.
    case_bool_decide as Hitem; [|apply Hs]. subst. rewrite <- Hs.
    by destruct (objects s _). }
  by apply (Hload _ _ _ Hrun).
Qed.

(** [_fill_radio_tracks] adds to the end of the queue: when it returns,
    the item list is the list that was there, in its order, followed by
    at most 25 new items, which are new objects of this queue; the count
    of the queue follows, and the objects that were there are untouched.
    On a queue without a radio source it fails on the none that
    [_get_radio_tracks] returns, and the item list is as it was. *)
Theorem fill_radio_tracks_adds_to_the_end (self : Controller)
    (queue_id : string) (queue : PlayerQueue.t) (queue_items : list loc) :
  _queues self !! queue_id = Some queue →
  _queue_items self !! queue_id = Some queue_items →
  (∀ self' : Controller,
     _fill_radio_tracks queue_id self = (self', Ok tt) →
     ∃ new_items : list loc,
       _queue_items self' !! queue_id = Some (queue_items ++ new_items)
       ∧ Py.len new_items ≤ 25
       ∧ NoDup new_items
       ∧ (∀ item, item ∈ new_items →
            (next_loc self ≤ item)%nat
            ∧ QueueItem.queue_id (objects self' item) = queue_id)
       ∧ (∀ r, (r < next_loc self)%nat → objects self' r = objects self r)
       ∧ PlayerQueue.items <$> _queues self' !! queue_id
         = Some (Py.len (queue_items ++ new_items)))
  ∧ (PlayerQueue.radio_source queue = [] →
     ∃ self' : Controller,
       _fill_radio_tracks queue_id self
       = (self', Raise (TypeError "'NoneType' object is not iterable"))
       ∧ _queue_items self' = _queue_items self
       ∧ _queues self' = _queues self).
Proof.
  intros Hq Hitems. split.
  - intros self'. unfold _fill_radio_tracks.
    unfold mbind, M_bind, bind at 1, log, modify.
    unfold bind at 1.
    match goal with
    | |- context [_get_radio_tracks queue_id false ?s] =>
        destruct (_get_radio_tracks queue_id false s)
          as [self1 [[tracks|]|e]] eqn:Hradio; [|done|done];
        pose proof (_get_radio_tracks_unchanged _ _ _ _ _ Hradio) as Hsame;
        pose proof (_get_radio_tracks_refill_length _ _ _ _ Hradio) as Hlen
    end.
    simpl in Hsame. injection Hsame as Hqs His Hobjs Hnext.
    unfold bind at 1.
    destruct (queue_items_from_media_runs queue_id (Some <$> tracks) self1)
      as (objs' & n & Hrun & Hn & Hold & Hnew).
    rewrite Hrun. unfold bind, read, queue_items_getitem. simpl.
    rewrite His, Hitems. simpl.
    match goal with
    | |- context [load queue_id ?new ?k true true false ?s] =>
        destruct (load_spec s queue_id queue queue_items new k true true false)
          as (self2 & tail & Hload & Hi2 & Htail & Hq2 & Hout & _)
    end.
    { simpl. congruence. }
    { simpl. congruence. }
    rewrite Hload. intros [= <-].
    assert (Hto : Py.slice_to queue_items (Py.len queue_items + 1)
                  = queue_items).
    { rewrite slice_to_nonneg by (unfold Py.len; lia).
      apply take_ge. unfold Py.len. lia. }
    assert (Hfrom : Py.slice_from queue_items (Py.len queue_items + 1) = []).
    { rewrite slice_from_nonneg by (unfold Py.len; lia).
      apply drop_ge. unfold Py.len. lia. }
    rewrite Hto in Hi2, Hq2. rewrite Hfrom, app_nil_r in Htail, Hout.
    subst tail.
    exists (seq (next_loc self1) n).
    split; [by rewrite Hi2, lookup_insert_eq|].
    split.
    { unfold Py.len in *. rewrite length_seq.
      rewrite length_fmap in Hn. lia. }
    split; [apply NoDup_seq|].
    split.
    { intros item Hin. apply elem_of_seq in Hin. split; [lia|].
      pose proof (load_changes_the_sort_index_only _ _ _ _ _ _ _ _ _ Hload
                    item) as Hsort.
      simpl in Hsort. rewrite <- (Hnew item) by lia.
      apply (f_equal QueueItem.queue_id) in Hsort. exact Hsort. }
    split.
    { intros r Hr. rewrite Hout.
      - simpl. rewrite Hold by lia. by rewrite Hobjs.
      - rewrite elem_of_seq. lia. }
    by rewrite Hq2, lookup_insert_eq.
  - intros Hnone. unfold _fill_radio_tracks, _get_radio_tracks.
    unfold mbind, M_bind, bind, read, ret, raise, log, modify.
    unfold queues_getitem. simpl. rewrite Hq. simpl. rewrite Hnone.
    eexists. split; [reflexivity|]. done.
Qed.

(** ** Transferring a queue *)

(** Setting the queue id of each item of a list. *)
Lemma relabel_items (target : string) (l : list loc) :
  ∀ self : Controller,
    ∃ objs' : loc → QueueItem.t,
      for_each l (λ item,
        item_setattr item (QueueItem.set_queue_id target)) self
      = (with_objects objs' self, Ok tt)
      ∧ (∀ item, item ∈ l → QueueItem.queue_id (objs' item) = target)
      ∧ (∀ item, objs' item = objects self item
                 ∨ objs' item = QueueItem.set_queue_id target
                                  (objects self item)).
Proof.
  induction l as [|x l IH]; intros self.
  - exists (objects self). simpl. unfold ret. split; [by destruct self|].
    split; [|by left]. intros item Hin. by apply elem_of_nil in Hin.
  - simpl. unfold bind, item_setattr at 1, modify.
    destruct (IH (with_objects
                    (store_update (objects self) x
                       (QueueItem.set_queue_id target (objects self x)))
                    self)) as (objs' & Hrun & Hin & Hout).
    rewrite Hrun. simpl in *. exists objs'. split; [done|]. split.
    + intros item Hitem. apply elem_of_cons in Hitem as [->|Hitem]; [|auto].
      destruct (Hout x) as [-> | ->]; unfold store_update;
        rewrite bool_decide_eq_true_2 by done; done.
    + intros item. destruct (Hout item) as [-> | ->]; unfold store_update;
        case_bool_decide; subst; auto.
Qed.

(** [transfer_queue] (without auto play) moves the items from the source
    queue to the target queue: afterwards the source is empty, the target
    holds the items of the source in their order, each of them belongs to
    the target queue, and the target has the repeat and shuffle settings,
    the current index and (as its resume position) the elapsed time of
    the source. What the target held before is gone. *)
Theorem transfer_queue_moves_the_items (self : Controller)
    (source target : string) (source_queue target_queue : PlayerQueue.t)
    (source_items target_items : list loc) (target_player : Player.t) :
  source ≠ target →
  _queues self !! source = Some source_queue →
  _queues self !! target = Some target_queue →
  _queue_items self !! source = Some source_items →
  _queue_items self !! target = Some target_items →
  players_get mass target false = Ok (Some target_player) →
  ∃ (self' : Controller) (source_queue' target_queue' : PlayerQueue.t),
    transfer_queue source target (Some false) self = (self', Ok tt)
    ∧ _queue_items self' !! source = Some []
    ∧ _queue_items self' !! target = Some source_items
    ∧ _queues self' !! source = Some source_queue'
    ∧ _queues self' !! target = Some target_queue'
    ∧ PlayerQueue.items source_queue' = 0
    ∧ PlayerQueue.current_index source_queue' = None
    ∧ PlayerQueue.items target_queue' = Py.len source_items
    ∧ PlayerQueue.repeat_mode target_queue'
      = PlayerQueue.repeat_mode source_queue
    ∧ PlayerQueue.shuffle_enabled target_queue'
      = PlayerQueue.shuffle_enabled source_queue
    ∧ PlayerQueue.current_index target_queue'
      = PlayerQueue.current_index source_queue
    ∧ PlayerQueue.resume_pos target_queue'
      = PlayerQueue.elapsed_time source_queue
    ∧ (∀ item, item ∈ source_items →
         QueueItem.queue_id (objects self' item) = target)
    ∧ (∀ item, QueueItem.queue_item_id (objects self' item)
               = QueueItem.queue_item_id (objects self item)).
Proof.
  intros Hne Hsq Htq Hsi Hti Hplayer.
  unfold transfer_queue.
  unfold mbind, M_bind, bind, read, ret, raise, queue_setattr.
  unfold queue_items_getitem, create_task, modify, item_setattr.
  rewrite Hsq, Htq. simpl. rewrite Hplayer. simpl.
  destruct (Player.active_group target_player) as [group|];
    [|destruct (Player.synced_to target_player) as [group|]];
    simpl; rewrite Hsi; simpl; rewrite Htq; simpl;
    repeat (rewrite lookup_insert_eq; simpl);
    rewrite !insert_insert_eq;
    destruct (PlayerQueue.current_item source_queue) as [current_item|];
    simpl; repeat (rewrite lookup_insert_eq; simpl);
    rewrite ?insert_insert_eq;
  match goal with
       | |- context [clear source ?s] =>
           destruct (clear_runs s source source_queue)
             as (self1 & Hclear & Hi1 & Hq1 & Ho1 & _);
           [by simpl; rewrite lookup_insert_ne|];
           rewrite Hclear; simpl in Hi1, Hq1, Ho1
       end;
  match type of Hq1 with
       | _ = <[source := _]> (<[target := ?q]> _) =>
           destruct (load_spec self1 target q target_items source_items 0
                       false false false)
             as (self2 & tail & Hload & Hi2 & Htail & Hq2 & _ & Hid2 & _);
           [by rewrite Hq1, lookup_insert_ne, lookup_insert_eq
           |by rewrite Hi1, lookup_insert_ne
           |];
           rewrite Hload; subst tail; simpl in Hi2, Hq2
       end;
  destruct (relabel_items target source_items self2)
         as (objs3 & Hrelabel & Hin3 & Hout3);
  unfold item_setattr in Hrelabel; rewrite Hrelabel;
  match type of Hq2 with
       | _ = <[target := ?q2]> _ =>
           destruct (update_items_spec (with_objects objs3 self2) target q2
                       source_items)
             as (self4 & Hupdate & Hi4 & Hq4 & Ho4 & _);
           [by simpl; rewrite Hq2, lookup_insert_eq|];
           rewrite Hupdate; simpl in Hi4, Hq4, Ho4
       end;
  eexists self4, _, _; (split; [done|]);
  rewrite Hi4, Hq4, Hi2, Hq2, Hi1, Hq1;
  rewrite ?insert_insert_eq;
  (split; [by rewrite lookup_insert_ne, lookup_insert_eq by congruence|]);
  (split; [by rewrite lookup_insert_eq|]);
  (split; [by rewrite lookup_insert_ne, lookup_insert_eq by congruence|]);
  (split; [by rewrite lookup_insert_eq|]);
  do 7 (split; [done|]);
  (split; [by intros item Hitem; rewrite Ho4; apply Hin3|]);
  intros item; rewrite Ho4;
  destruct (Hout3 item) as [-> | ->]; simpl; rewrite Hid2, Ho1; simpl;
  unfold store_update; try case_bool_decide; subst; done.
Qed.

(** ** Changing the shuffle setting *)

(** Enabling shuffle on a queue with a buffered or current position
    leaves the items up to that position where they are and puts the
    remaining items in a random order: they are the same items, none
    lost and none repeated, and the count of the queue is as before. *)
Theorem enabling_shuffle_permutes_the_remaining_items (self : Controller)
    (queue_id : string) (queue : PlayerQueue.t) (queue_items : list loc)
    (cur : Z) :
  _queues self !! queue_id = Some queue →
  _queue_items self !! queue_id = Some queue_items →
  PlayerQueue.shuffle_enabled queue = false →
  Py.or_ (PlayerQueue.index_in_buffer queue)
         (PlayerQueue.current_index queue) = Some cur →
  0 ≤ cur →
  ∃ (self' : Controller) (remaining : list loc),
    set_shuffle queue_id true self = (self', Ok tt)
    ∧ _queue_items self' !! queue_id
      = Some (take (Z.to_nat (cur + 1)) queue_items ++ remaining)
    ∧ remaining ≡ₚ drop (Z.to_nat (cur + 1)) queue_items
    ∧ PlayerQueue.shuffle_enabled <$> _queues self' !! queue_id = Some true
    ∧ PlayerQueue.items <$> _queues self' !! queue_id
      = Some (Py.len queue_items).
Proof.
  intros Hq Hitems Hshuffle Hcur Hpos.
  destruct (set_shuffle_spec self queue_id queue queue_items cur true
              Hq Hitems Hshuffle Hcur Hpos)
    as (self' & remaining & Hrun & Hi' & Hperm & Hq' & _).
  exists self', remaining. split; [done|].
  split; [by rewrite Hi', lookup_insert_eq|]. split; [done|].
  rewrite Hq', lookup_insert_eq. simpl. split; [done|]. f_equal.
  unfold Py.len. rewrite length_app, Hperm, <- length_app, take_drop. done.
Qed.

(** Without a position to shuffle from, changing the shuffle setting
    empties the queue: when the buffered index is none or 0 and there is
    no current index (as on a queue that has not started), [set_shuffle]
    loads an empty batch at index 0 without keeping anything. *)
Theorem set_shuffle_without_a_position_empties_the_queue
    (self : Controller) (queue_id : string) (queue : PlayerQueue.t)
    (queue_items : list loc) (shuffle_enabled : bool) :
  _queues self !! queue_id = Some queue →
  _queue_items self !! queue_id = Some queue_items →
  PlayerQueue.shuffle_enabled queue = negb shuffle_enabled →
  Py.truthy (PlayerQueue.index_in_buffer queue) = false →
  PlayerQueue.current_index queue = None →
  ∃ self' : Controller,
    set_shuffle queue_id shuffle_enabled self = (self', Ok tt)
    ∧ _queue_items self' !! queue_id = Some []
    ∧ PlayerQueue.items <$> _queues self' !! queue_id = Some 0.
Proof.
  intros Hq Hitems Hshuffle Hbuf Hcur.
  set (self1 :=
         with_queues
           (<[queue_id :=
                PlayerQueue.set_shuffle_enabled shuffle_enabled queue]>
              (_queues self)) self).
  destruct (load_spec self1 queue_id
              (PlayerQueue.set_shuffle_enabled shuffle_enabled queue)
              queue_items [] 0 false true shuffle_enabled)
    as (self' & tail & Hrun & Hi' & Htail & Hq' & _).
  { subst self1. simpl. by rewrite lookup_insert_eq. }
  { done. }
  assert (tail = []) as ->.
  { destruct shuffle_enabled; [|done]. by apply Permutation_nil_r. }
  rewrite slice_to_nonneg in Hi', Hq' by lia. simpl in Hi', Hq'.
  exists self'. split; [|split].
  - unfold set_shuffle, mbind, M_bind, bind, read, ret, queue_setattr.
    unfold queues_getitem, queue_items_getitem.
    rewrite Hq. simpl. rewrite Hshuffle.
    rewrite bool_decide_eq_false_2 by (by destruct shuffle_enabled).
    rewrite Hq. simpl. rewrite Hitems. simpl.
    unfold Py.or_. rewrite Hbuf, Hcur.
    destruct shuffle_enabled; exact Hrun.
  - by rewrite Hi', lookup_insert_eq.
  - by rewrite Hq', lookup_insert_eq.
Qed.

(** ** The tracks of a radio refill *)

Lemma sample_draws_subset {A} (k : nat) :
  ∀ (tape : list nat) (pool : list A) (x : A),
    x ∈ (sample_draws tape pool k).1 → x ∈ pool.
Proof.
  induction k as [|k IH]; intros tape pool x; simpl.
  - intros Hin. by apply elem_of_nil in Hin.
  - destruct (pool !! _) as [y|] eqn:Hy; simpl.
    2:{ intros Hin. by apply elem_of_nil in Hin. }
    specialize (IH (tl tape) (delete (hd 0%nat tape `mod` length pool)%nat pool) x).
    destruct (sample_draws _ _ k) as [rest tape']. simpl in *.
    rewrite (delete_Permutation pool _ y Hy).
    intros Hin. apply elem_of_cons in Hin as [->|Hin]; [by left|].
    right. by apply IH.
Qed.

Lemma random_sample_subset {A} (population : list A) (k : Z)
    (self self' : Controller) (picked : list A) :
  random_sample population k self = (self', Ok picked) →
  ∀ x, x ∈ picked → x ∈ population.
Proof.
  unfold random_sample.
  destruct ((k <? 0) || (Py.len population <? k)); [done|].
  pose proof (sample_draws_subset (Z.to_nat k) (random_tape self) population)
    as Hsub.
  destruct (sample_draws _ _ _) as [l tape']. intros [= <- <-]. exact Hsub.
Qed.

(** What the loop over the base tracks gathers: tracks similar to one of
    the base tracks, not longer than the maximum, and none of the base
    tracks. *)
Lemma collect_dynamic_tracks_gathers (allow_lookup : bool)
    (base_tracks : list MediaItem.t) (P : MediaItem.t → Prop) :
  (∀ base similar t,
     base ∈ base_tracks →
     similar_tracks mass base allow_lookup = Ok similar →
     t ∈ similar →
     MediaItem.mem t base_tracks = false →
     MediaItem.duration t ≤ RADIO_TRACK_MAX_DURATION_SECS →
     P t) →
  ∀ (todo dynamic_tracks result : list MediaItem.t),
    todo ⊆ base_tracks →
    Forall P dynamic_tracks →
    collect_dynamic_tracks allow_lookup base_tracks todo dynamic_tracks
    = Ok result →
    Forall P result.
Proof.
  intros HP. induction todo as [|b todo IH]; intros dyn result Hsub Hdyn.
  - simpl. by intros [= <-].
  - simpl. destruct (similar_tracks mass b allow_lookup) as [similar|e] eqn:Hs;
      [|done]. simpl.
    assert (Hfold : ∀ (new acc : list MediaItem.t),
              Forall P new → Forall P acc →
              Forall P (foldl (λ s track, set_add track s) acc new)).
    { induction new as [|t new IHn]; intros acc Hnew Hacc; [done|].
      simpl. apply Forall_cons in Hnew as [Ht Hnew]. apply IHn; [done|].
      unfold set_add. destruct (MediaItem.mem t acc); [done|].
      apply Forall_app. split; [done|]. by constructor. }
    assert (Hnew : Forall P
              (filter (λ track,
                 ¬ MediaItem.mem track base_tracks
                 ∧ MediaItem.duration track ≤ RADIO_TRACK_MAX_DURATION_SECS)
                 similar)).
    { apply Forall_forall. intros t Ht.
      apply list_elem_of_filter in Ht as [[Hmem Hdur] Ht].
      apply (HP b similar t); [|done|done| |done].
      - apply Hsub. by left.
      - by destruct (MediaItem.mem t base_tracks). }
    destruct (50 <=? _); [intros [= <-]; by apply Hfold|].
    apply IH; [|by apply Hfold].
    intros x Hx. apply Hsub. by right.
Qed.

(** Outside the initial radio mode, the tracks that [_get_radio_tracks]
    returns are at most 25 tracks, each of them similar to one of the (at
    most five) sampled base tracks, none of them one of these base
    tracks, and none longer than the maximum of twenty minutes. The
    queues and their items are not touched. *)
Theorem radio_refill_gives_short_similar_tracks (self self' : Controller)
    (queue_id : string) (tracks : list MediaItem.t) :
  (∀ l t, t ∈ set_listing mass l → t ∈ l) →
  _get_radio_tracks queue_id false self = (self', Ok (Some tracks)) →
  Py.len tracks ≤ 25
  ∧ _queues self' = _queues self
  ∧ _queue_items self' = _queue_items self
  ∧ ∃ base_tracks : list MediaItem.t,
      Py.len base_tracks ≤ 5
      ∧ ∀ t, t ∈ tracks →
          MediaItem.duration t ≤ RADIO_TRACK_MAX_DURATION_SECS
          ∧ MediaItem.mem t base_tracks = false
          ∧ ∃ base allow_lookup similar,
              base ∈ base_tracks
              ∧ similar_tracks mass base allow_lookup = Ok similar
              ∧ t ∈ similar.
Proof.
  intros Hlisting Hrun.
  split; [by eapply _get_radio_tracks_refill_length|].
  pose proof (_get_radio_tracks_unchanged _ _ _ _ _ Hrun) as Hsame.
  simpl in Hsame. injection Hsame as Hqs His _ _.
  split; [done|]. split; [done|].
  revert Hrun. unfold _get_radio_tracks.
  unfold mbind, M_bind, bind, read, ret, raise, log, modify.
  intros Heq.
  repeat match goal with
         | H : context [match ?x with _ => _ end] |- _ =>
             destruct x eqn:?; simplify_eq
         end;
    try done;
    match goal with
    | Hbase : random_sample _ (Z.min 5 _) _ = (_, Ok ?base) |- _ =>
        exists base; split;
        [apply random_sample_length in Hbase; lia|]
    end;
    intros track Htrack;
    try (by apply elem_of_nil in Htrack);
    match goal with
    | Hpick : random_sample _ (Z.min _ 25) _ = (_, Ok ?l) |- _ =>
        apply (random_sample_subset _ _ _ _ _ Hpick) in Htrack
    end;
    match goal with
    | Hfilter : filter _ (set_listing mass ?dyn) = _ |- _ =>
        rewrite <- Hfilter in Htrack;
        apply list_elem_of_filter in Htrack as [_ Htrack];
        apply Hlisting in Htrack
    end;
    match goal with
    | Hcollect : collect_dynamic_tracks ?allow ?base ?base [] = Ok ?dyn |- _ =>
        eapply (collect_dynamic_tracks_gathers allow base
                  (λ t, MediaItem.duration t ≤ RADIO_TRACK_MAX_DURATION_SECS
                        ∧ MediaItem.mem t base = false
                        ∧ ∃ b allow_lookup similar,
                            b ∈ base
                            ∧ similar_tracks mass b allow_lookup = Ok similar
                            ∧ t ∈ similar)) in Hcollect;
        [ rewrite Forall_forall in Hcollect; by apply Hcollect
        | intros b similar t' Hb Hs Ht' Hmem Hdur; eauto 10
        | done
        | done ]
    end.
Qed.

End PlayerQueuesController.

(** * The properties on concrete queues *)

(** ** Index resolution *)

(** C1, witness: on the queue a, b, c, d without repeat, the index after
    1 is 2. *)
Lemma get_next_index_repeat_semantics_witness :
  _get_next_index
    (example_controller (example_queue (Some 1) (Some 1) false [])
       [0; 1; 2; 3]%nat [])
    "player1" (Some 1) false true
  = Ok (Some (1 + 1)).
Proof.
  refine (proj2 (proj2 (proj2
    (get_next_index_repeat_semantics
       (example_controller (example_queue (Some 1) (Some 1) false [])
          [0; 1; 2; 3]%nat [])
       "player1" (example_queue (Some 1) (Some 1) false [])
       [0; 1; 2; 3]%nat (Some 1) false true _ _) 1 _ _)) _ _).
  - reflexivity.
  - reflexivity.
  - discriminate.
  - reflexivity.
  - left. discriminate.
  - reflexivity.
Defined.

(** C1, counterexample: the claim sends every index other than the last
    one to the index after it. With the index 5 on the four items a, b, c,
    d, which is not the last index 3, [_get_next_index] returns none and
    not 6. (An index past the end does reach the method: [load_next_item]
    calls it with [cur_index + idx] for growing [idx], and [delete_item]
    can shorten the list under the current index.) *)
Lemma next_index_past_the_last_index :
  5 ≠ Py.len [0; 1; 2; 3]%nat - 1
  ∧ _get_next_index
      (example_controller (example_queue (Some 5) None false [])
         [0; 1; 2; 3]%nat [])
      "player1" (Some 5) false true
    = Ok None
  ∧ _get_next_index
      (example_controller (example_queue (Some 5) None false [])
         [0; 1; 2; 3]%nat [])
      "player1" (Some 5) false true
    ≠ Ok (Some (5 + 1)).
Proof. split; [|split]; vm_compute; congruence. Qed.

(** ** Items in the player's buffer *)

(** C2, witness: with b (index 1) in the buffer, neither a nor b can be
    moved or deleted; here for a, at index 0. *)
Lemma buffered_item_is_not_moved_or_deleted_witness :
  (∀ pos_shift : Z,
     ∃ j : Z,
       move_item "player1" "a" pos_shift
         (example_controller (example_queue (Some 1) (Some 1) false [])
            [0; 1; 2; 3]%nat [])
       = (example_controller (example_queue (Some 1) (Some 1) false [])
            [0; 1; 2; 3]%nat [],
          Raise (IndexError (pretty j +:+ " is already played/buffered"))))
  ∧ (∀ target : id_or_index,
       target = ById "a" ∨ target = ByIndex 0 →
       ∃ self' : Controller,
         delete_item "player1" target
           (example_controller (example_queue (Some 1) (Some 1) false [])
              [0; 1; 2; 3]%nat [])
         = (self', Ok tt)
         ∧ _queue_items self' = {["player1" := [0; 1; 2; 3]%nat]}
         ∧ _queues self'
           = {["player1" := example_queue (Some 1) (Some 1) false []]}
         ∧ objects self' = example_objects
         ∧ logger self'
           = [] ++ [LogWarning "delete requested for item already loaded in buffer"]).
Proof.
  exact (buffered_item_is_not_moved_or_deleted
           (example_controller (example_queue (Some 1) (Some 1) false [])
              [0; 1; 2; 3]%nat [])
           "player1" (example_queue (Some 1) (Some 1) false [])
           [0; 1; 2; 3]%nat 1 0%nat 0%nat
           eq_refl eq_refl eq_refl eq_refl ltac:(discriminate)).
Defined.

(** C9, witness: before any track is buffered ([index_in_buffer] is
    none), moving c fails on the comparison. *)
Lemma move_item_compares_with_none_witness :
  ∃ msg : string,
    move_item "player1" "c" 1
      (example_controller (example_queue (Some 0) None false [])
         [0; 1; 2; 3]%nat [])
    = (example_controller (example_queue (Some 0) None false [])
         [0; 1; 2; 3]%nat [],
       Raise (TypeError msg)).
Proof.
  exact (move_item_compares_with_none
           (example_controller (example_queue (Some 0) None false [])
              [0; 1; 2; 3]%nat [])
           "player1" (example_queue (Some 0) None false [])
           [0; 1; 2; 3]%nat "c" 1 eq_refl eq_refl (or_introl eq_refl)).
Defined.

(** ** The flow-mode stream translation *)

(** C3, witness: the example of the specification. With the play log
    [a streamed 180 s; b streamed 200 s] and 190 s elapsed, the current
    item is b, at index 1, 10 s into the track. *)
Lemma flow_stream_index_walks_the_log_witness :
  ∃ (queue_index : option Z) (queue_item : option loc),
    index_by_id
      (example_controller (example_queue (Some 0) (Some 1) false example_play_log)
         [0; 1; 2; 3]%nat [])
      "player1" "b" = Ok queue_index
    ∧ queue_item = queue_index ≫= (λ j, [0; 1; 2; 3]%nat !! Z.to_nat j)
    ∧ _get_flow_queue_stream_index
        (example_controller
           (example_queue (Some 0) (Some 1) false example_play_log)
           [0; 1; 2; 3]%nat [])
        (example_queue (Some 0) (Some 1) false example_play_log)
        (example_player false (Some 190))
      = Ok (queue_index,
            190 - played_seconds [PlayLogEntry.mk "a" (Some 200) (Some 180)]
            + track_sec_skipped
                (example_controller
                   (example_queue (Some 0) (Some 1) false example_play_log)
                   [0; 1; 2; 3]%nat [])
                queue_item).
Proof.
  exact (flow_stream_index_walks_the_log
           (example_controller
              (example_queue (Some 0) (Some 1) false example_play_log)
              [0; 1; 2; 3]%nat [])
           (example_queue (Some 0) (Some 1) false example_play_log)
           (example_player false (Some 190)) 0 [0; 1; 2; 3]%nat 190
           [PlayLogEntry.mk "a" (Some 200) (Some 180)]
           (PlayLogEntry.mk "b" (Some 200) (Some 200)) []
           eq_refl eq_refl eq_refl eq_refl
           (conj (eq_refl : (180 + 0 ?= 190) = Lt) I)
           ltac:(discriminate)).
Defined.

(** The example, evaluated: index 1 (the item b) and 10 seconds. *)
Example flow_stream_index_example :
  _get_flow_queue_stream_index
    (example_controller
       (example_queue (Some 0) (Some 1) false example_play_log)
       [0; 1; 2; 3]%nat [])
    (example_queue (Some 0) (Some 1) false example_play_log)
    (example_player false (Some 190))
  = Ok (Some 1, 10).
Proof. reflexivity. Qed.

(** C3, counterexample: the claim has the translator walk the log of
    every queue. On a queue without a current index, with the same play
    log, the same items and the same 190 s elapsed, it returns none and
    the 190 s, not the index of b and 10 s. *)
Lemma flow_stream_index_without_current_index :
  _get_flow_queue_stream_index
    (example_controller (example_queue None None false example_play_log)
       [0; 1; 2; 3]%nat [])
    (example_queue None None false example_play_log)
    (example_player false (Some 190))
  = Ok (None, 190)
  ∧ _get_flow_queue_stream_index
      (example_controller (example_queue None None false example_play_log)
         [0; 1; 2; 3]%nat [])
      (example_queue None None false example_play_log)
      (example_player false (Some 190))
    ≠ Ok (Some 1, 10).
Proof. split; vm_compute; congruence. Qed.

(** ** Loading items *)

(** C4, witness: loading the new item e at index 1 of a, b, c, d with
    shuffle. *)
Lemma load_keeps_played_and_remaining_witness :
  ∃ (self' : Controller) (tail : list loc),
    load "player1" [4%nat] 1 true true true
      (example_controller (example_queue (Some 0) (Some 0) true [])
         [0; 1; 2; 3]%nat [2; 0; 1]%nat)
    = (self', Ok tt)
    ∧ _queue_items self' !! "player1"
      = Some (take (Z.to_nat 1) [0; 1; 2; 3]%nat ++ tail)
    ∧ (true = false → tail = [4%nat] ++ drop (Z.to_nat 1) [0; 1; 2; 3]%nat)
    ∧ (true = true → tail ≡ₚ [4%nat] ++ drop (Z.to_nat 1) [0; 1; 2; 3]%nat)
    ∧ (∀ item, item ∉ [4%nat] ++ drop (Z.to_nat 1) [0; 1; 2; 3]%nat →
         objects self' item
         = objects
             (example_controller (example_queue (Some 0) (Some 0) true [])
                [0; 1; 2; 3]%nat [2; 0; 1]%nat) item).
Proof.
  exact (load_keeps_played_and_remaining
           (example_controller (example_queue (Some 0) (Some 0) true [])
              [0; 1; 2; 3]%nat [2; 0; 1]%nat)
           "player1" (example_queue (Some 0) (Some 0) true [])
           [0; 1; 2; 3]%nat [4%nat] 1 true eq_refl eq_refl
           ltac:(discriminate)).
Defined.

(** C4, counterexample: the claim has the old tail follow the new batch
    also under shuffle. Loading e at index 1 of a, b, c, d with
    [keep_remaining], [keep_played] and [shuffle] gives, for the draws 2,
    0, 1, the list a, c, e, d, b: the old items c, d, b are shuffled
    together with e, and the list is not a, e, b, c, d. *)
Lemma load_shuffles_the_old_tail_too :
  _queue_items
    (load "player1" [4%nat] 1 true true true
       (example_controller (example_queue (Some 0) (Some 0) true [])
          [0; 1; 2; 3]%nat [2; 0; 1]%nat)).1
  !! "player1"
  = Some [0; 2; 4; 3; 1]%nat
  ∧ [0; 2; 4; 3; 1]%nat
    ≠ take 1 [0; 1; 2; 3]%nat ++ [4%nat] ++ drop 1 [0; 1; 2; 3]%nat.
Proof. split; [vm_compute; reflexivity|discriminate]. Qed.

(** ** Shuffle *)

(** The items a, b, c, d, shuffled behind a into d, b, c. *)
Lemma disabling_shuffle_restores_sort_order_on_example :
  ∃ (self' : Controller) (remaining : list loc),
    set_shuffle "player1" false example_shuffled_controller = (self', Ok tt)
    ∧ _queue_items self' !! "player1"
      = Some (take (Z.to_nat (0 + 1)) [0; 3; 1; 2]%nat ++ remaining)
    ∧ remaining ≡ₚ drop (Z.to_nat (0 + 1)) [0; 3; 1; 2]%nat
    ∧ ascending (sort_index_of example_shuffled_controller) remaining
    ∧ strictly_ascending (sort_index_of self') remaining
    ∧ (∀ original : list loc,
         original ≡ₚ drop (Z.to_nat (0 + 1)) [0; 3; 1; 2]%nat →
         strictly_ascending (sort_index_of example_shuffled_controller)
           original →
         remaining = original).
Proof.
  refine (disabling_shuffle_restores_sort_order example_shuffled_controller
            "player1" (example_queue (Some 0) (Some 0) true [])
            [0; 3; 1; 2]%nat 0 eq_refl eq_refl eq_refl eq_refl
            ltac:(discriminate) _).
  apply (bool_decide_unpack _). vm_compute. exact I.
Defined.

(** The same, evaluated: the queue is a, b, c, d again. *)
Example disabling_shuffle_example :
  _queue_items (set_shuffle "player1" false example_shuffled_controller).1
  !! "player1"
  = Some [0; 1; 2; 3]%nat.
Proof. vm_compute. reflexivity. Qed.

(** Enabling and then disabling shuffle gives back the order a, b, c, d,
    here for the draws 2, 0, 1. *)
Example shuffle_round_trip_example :
  _queue_items
    (set_shuffle "player1" true
       (example_controller (example_queue (Some 0) (Some 0) false [])
          [0; 1; 2; 3]%nat [2; 0; 1]%nat)).1
  !! "player1"
  = Some [0; 3; 1; 2]%nat
  ∧ _queue_items
      ((set_shuffle "player1" true ;; set_shuffle "player1" false)
         (example_controller (example_queue (Some 0) (Some 0) false [])
            [0; 1; 2; 3]%nat [2; 0; 1]%nat)).1
    !! "player1"
    = Some [0; 1; 2; 3]%nat.
Proof. split; vm_compute; reflexivity. Qed.

(** C5, the failing input: the queue a, b, c, d, e, f plays a. Shuffle is
    enabled, and the draw puts f first: a, f, b, c, d, e. A track g is
    enqueued with [play_media] and the option NEXT, which loads it at
    index 1 and keeps the rest: [load] adds to the sort index of each old
    item its position in the shuffled list, which gives f the sort index
    12 and e the sort index 14. Shuffle is disabled: the items after a
    come in ascending sort index, g, b, c, d, f, e, and this is not the
    order b, c, d, e, f they had before the shuffle. *)
Theorem unshuffle_after_enqueue_does_not_recover_the_order :
  _queue_items (set_shuffle "player1" true (example_album_controller [4%nat])).1
  !! "player1"
  = Some [0; 5; 1; 2; 3; 4]%nat
  ∧ sort_index_of
      ((set_shuffle "player1" true ;;
        play_media (example_mass None [] [])
          "player1" [MediaObject (example_track "g")] (Some NEXT) false None)
         (example_album_controller [4%nat])).1
    <$> [7; 5; 1; 2; 3; 4]%nat
    = [1; 12; 5; 8; 11; 14]
  ∧ _queue_items
      ((set_shuffle "player1" true ;;
        play_media (example_mass None [] [])
          "player1" [MediaObject (example_track "g")] (Some NEXT) false None ;;
        set_shuffle "player1" false)
         (example_album_controller [4%nat])).1
    !! "player1"
    = Some [0; 7; 1; 2; 3; 5; 4]%nat.
Proof. repeat split; vm_compute; reflexivity. Qed.

(** Without a buffered or current position, changing the shuffle setting
    loads an empty batch at index 0 and the queue loses its items. *)
Example set_shuffle_without_position_drops_the_items :
  _queue_items
    (set_shuffle "player1" true
       (example_controller (example_queue None None false [])
          [0; 1; 2; 3]%nat [])).1
  !! "player1"
  = Some [].
Proof. vm_compute. reflexivity. Qed.

(** ** The marker of the enqueued next track *)


(** ** Restoring a queue at registration *)

(** C6, the failing input: the cached state of the queue is readable and
    one of its cached items is not. The handler logs the warning, but the
    restored queue is kept, no empty queue is made, and the registration
    raises on the unassigned item list, to its caller: no item list is
    stored for the queue. *)
Theorem register_with_corrupt_items_raises :
  (on_player_register
     (example_mass (Some (Some (example_queue (Some 1) None false [])))
        [Some (example_item "a" 0); None] [])
     (λ _, ret tt) (example_player false None)
     (mkController ∅ ∅ example_objects 5%nat [] [] [] [])).2
  = Raise (UnboundLocalError "queue_items")
  ∧ logger
      (on_player_register
         (example_mass (Some (Some (example_queue (Some 1) None false [])))
            [Some (example_item "a" 0); None] [])
         (λ _, ret tt) (example_player false None)
         (mkController ∅ ∅ example_objects 5%nat [] [] [] [])).1
    = [LogWarning "Failed to restore the queue(items) for Player 1"]
  ∧ _queue_items
      (on_player_register
         (example_mass (Some (Some (example_queue (Some 1) None false [])))
            [Some (example_item "a" 0); None] [])
         (λ _, ret tt) (example_player false None)
         (mkController ∅ ∅ example_objects 5%nat [] [] [] [])).1
    !! "player1"
    = None.
Proof. repeat split; vm_compute; reflexivity. Qed.

(** A snapshot whose state is unreadable does fall back to the empty
    queue, with the warning. *)
Example register_with_corrupt_state_falls_back :
  (on_player_register
     (example_mass (Some None) [Some (example_item "a" 0)] [])
     (λ _, ret tt) (example_player false None)
     (mkController ∅ ∅ example_objects 5%nat [] [] [] [])).2
  = Ok tt
  ∧ _queue_items
      (on_player_register
         (example_mass (Some None) [Some (example_item "a" 0)] [])
         (λ _, ret tt) (example_player false None)
         (mkController ∅ ∅ example_objects 5%nat [] [] [] [])).1
    !! "player1"
    = Some [].
Proof. split; vm_compute; reflexivity. Qed.

(** ** Radio tracks *)

(** C7, the failing input: one radio source with the base tracks b0 to
    b5, of which five are sampled, and the two similar tracks d1 and d2.
    The initial list starts with a base track, and after each further base
    track come d1 and d2 again: tracks already used. *)
Theorem radio_interleave_repeats_similar_tracks :
  (_get_radio_tracks (example_mass None [] ["d1"; "d2"])
     "player1" true
     (example_radio_controller [example_track "seed"] [])).2
  = Ok (Some (example_track
                <$> ["b0"; "b1"; "d1"; "d2"; "b2"; "d1"; "d2";
                     "b3"; "d1"; "d2"; "b4"; "d1"; "d2"])).
Proof. vm_compute. reflexivity. Qed.

(** With ten similar tracks the two tracks after a base track are
    sampled from all ten each time, so the same draws give the same two
    tracks after every base track. *)
Example radio_interleave_samples_from_all_similar_tracks :
  (_get_radio_tracks (example_mass None [] ["d1"; "d2"; "d3"; "d4"; "d5"; "d6"; "d7"; "d8"; "d9"; "d10"])
     "player1" true
     (example_radio_controller [example_track "seed"] [])).2
  = Ok (Some (example_track
                <$> ["b0"; "b1"; "d1"; "d2"; "b2"; "d1"; "d2";
                     "b3"; "d1"; "d2"; "b4"; "d1"; "d2";
                     "d3"; "d4"; "d5"; "d6"; "d7"; "d8"; "d9"; "d10"])).
Proof. vm_compute. reflexivity. Qed.

(** ** Enqueueing media *)

(** C8, the failing input: [play_media] in radio mode with a uri that the
    catalog does not find. The uri is skipped, no playable item remains,
    and the call fails with the [TypeError] of iterating the [None] that
    [_get_radio_tracks] returns, not with "not found". *)
Theorem play_media_radio_without_source_raises_type_error :
  (play_media (example_mass None [] [])
          "player1" [MediaUri "library://track/unknown"] None true None
     (example_radio_controller [] [])).2
  = Raise (TypeError "'NoneType' object is not iterable")
  ∧ logger
      (play_media (example_mass None [] [])
          "player1" [MediaUri "library://track/unknown"] None true None
         (example_radio_controller [] [])).1
    = [LogWarning "Skipping item"].
Proof. split; vm_compute; reflexivity. Qed.

(** The same call outside radio mode fails with "not found". *)
Example play_media_without_radio_raises_not_found :
  (play_media (example_mass None [] [])
          "player1" [MediaUri "library://track/unknown"] None false None
     (example_radio_controller [] [])).2
  = Raise (MediaNotFoundError "No playable items found").
Proof. vm_compute. reflexivity. Qed.

(** * The queue commands on concrete queues *)

(** ** Looking up items *)

(** In the queue a, b, c, d the id c is found at its index. *)
Lemma get_item_by_id_on_example :
  ∃ index : option Z,
    index_by_id example_playing "player1" "c" = Ok index
    ∧ get_item example_playing "player1" (Some (ById "c"))
      = get_item example_playing "player1" (ByIndex <$> index).
Proof.
  destruct (get_item_by_id_is_the_item_at_index_by_id example_playing
              "player1" [0; 1; 2; 3]%nat "c" eq_refl)
    as (index & Hindex & Hsame & _).
  exists index. split; assumption.
Defined.

(** In the queue a, b, c, d the index 4 gives nothing, the index -1 gives
    d and the index -5 raises. *)
Lemma get_item_index_bounds_on_example :
  get_item example_playing "player1" (Some (ByIndex 4)) = Ok None
  ∧ get_item example_playing "player1" (Some (ByIndex (-1)))
    = Ok (Some 3%nat)
  ∧ get_item example_playing "player1" (Some (ByIndex (-5)))
    = Raise (IndexError "list index out of range").
Proof.
  destruct (get_item_index_bounds example_playing "player1"
              [0; 1; 2; 3]%nat eq_refl)
    as (Hpast & _ & Hnegative & Hbelow & _).
  split; [apply Hpast; vm_compute; discriminate|].
  split; [|apply Hbelow; vm_compute; reflexivity].
  apply (Hnegative (-1)).
  split; vm_compute; [discriminate|reflexivity].
Defined.

(** Two items from the offset 1 and then one more are the three items
    from the offset 1. *)
Lemma items_pages_on_example :
  items example_playing "player1" 2 1 = [1; 2]%nat
  ∧ items example_playing "player1" 2 1
    ++ items example_playing "player1" 1 (1 + 2)
    = items example_playing "player1" (2 + 1) 1.
Proof.
  destruct (items_pages_follow_one_another example_playing "player1"
              [0; 1; 2; 3]%nat 2 1 1 eq_refl
              ltac:(lia) ltac:(lia) ltac:(lia))
    as (Hpage & _ & Hnext & _).
  split; [exact Hpage|exact Hnext].
Defined.

(** ** Repeat and the buffered track *)

(** With repeat-all the item after d, the last one, is a. *)
Lemma set_repeat_all_on_example :
  ∃ self' : Controller,
    set_repeat "player1" RepeatALL example_playing = (self', Ok tt)
    ∧ _get_next_index self' "player1" (Some 3) false true = Ok (Some 0).
Proof.
  destruct (set_repeat_decides_what_follows_the_last_item example_playing
              "player1" _ [0; 1; 2; 3]%nat RepeatALL 3 eq_refl eq_refl
              ltac:(discriminate) ltac:(vm_compute; discriminate))
    as (self' & Hrun & _ & _ & Hnext & _).
  exists self'. split; assumption.
Defined.


(** ** Playing an item *)

(** Playing the index 2 of a, b, c, d points the queue at c; the index 7
    is unknown. *)
Lemma play_index_on_example :
  (∃ (self' : Controller) (r : result unit) (queue' : PlayerQueue.t),
     play_index (example_mass None [] []) "player1" (ByIndex 2) 0 None false
       example_playing
     = (self', r)
     ∧ _queues self' !! "player1" = Some queue'
     ∧ PlayerQueue.current_index queue' = Some 2
     ∧ PlayerQueue.current_item queue' = Some 2%nat)
  ∧ (play_index (example_mass None [] []) "player1" (ByIndex 7) 0 None false
       example_playing).2
    = Raise (FileNotFoundError "Unknown index/id: 7").
Proof.
  destruct (play_index_points_the_queue_at_the_item (example_mass None [] [])
              example_playing "player1" _ [0; 1; 2; 3]%nat 2 0 None false
              eq_refl eq_refl) as [Hwithin _].
  destruct (play_index_points_the_queue_at_the_item (example_mass None [] [])
              example_playing "player1" _ [0; 1; 2; 3]%nat 7 0 None false
              eq_refl eq_refl) as [_ Hpast].
  split.
  - destruct (Hwithin 2%nat ltac:(lia) eq_refl)
      as (self' & r & queue' & Hrun & _ & Hq & Hindex & _ & Hitem & _).
    exists self', r, queue'. repeat split; assumption.
  - rewrite Hpast by (vm_compute; discriminate). vm_compute. reflexivity.
Defined.

(** From b the previous item is a. *)
Lemma previous_on_example :
  ∃ (self' : Controller) (r : result unit),
    previous (example_mass None [] []) "player1" example_playing = (self', r)
    ∧ PlayerQueue.current_index <$> _queues self' !! "player1"
      = Some (Some 0)
    ∧ PlayerQueue.current_item <$> _queues self' !! "player1"
      = Some (Some 0%nat).
Proof.
  destruct (previous_goes_back_one_item (example_mass None [] [])
              example_playing "player1" _ [0; 1; 2; 3]%nat eq_refl eq_refl)
    as [_ Hback].
  destruct (Hback 1 0%nat eq_refl eq_refl eq_refl)
    as (self' & r & Hrun & _ & Hindex & _ & Hitem & _).
  exists self', r. repeat split; assumption.
Defined.




(** After b, [load_next_item] leaves the queue as it is and returns within
    five rounds. *)
Lemma load_next_item_on_example :
  _queue_items
    (load_next_item (example_mass None [] []) 5 "player1" "b"
       example_playing).1
  = _queue_items example_playing
  ∧ (load_next_item (example_mass None [] []) 5 "player1" "b"
       example_playing).2
    ≠ Ok None.
Proof.
  destruct (load_next_item_gives_a_loaded_item_of_the_queue
              (example_mass None [] []) example_playing "player1" _
              [0; 1; 2; 3]%nat "b" eq_refl eq_refl 5%nat _ _
              (surjective_pairing _))
    as (_ & Hitems & _ & Hends).
  split; [exact Hitems|].
  apply Hends; [discriminate|simpl; lia].
Defined.

(** ** The next item *)

(** After a comes b, whose media item is not available: [_get_next_item]
    does not answer, whatever the number of rounds; after b it answers c
    at once. *)
Example get_next_item_on_an_unavailable_item :
  _get_next_item 100 example_unavailable "player1" (Some 0) = None
  ∧ _get_next_item 1 example_unavailable "player1" (Some 1)
    = Some (Ok (Some 2%nat)).
Proof. split; vm_compute; reflexivity. Qed.

(** After d, the last item, there is nothing to load. *)
Example load_next_item_after_the_last_item :
  load_next_item (example_mass None [] []) 3 "player1" "d" example_playing
  = (example_playing, Raise (QueueEmpty "No more tracks left in the queue.")).
Proof. vm_compute. reflexivity. Qed.

(** ** Changing the list *)

(** Clearing a, b, c, d leaves no item. *)
Lemma clear_on_example :
  ∃ self' : Controller,
    clear "player1" example_playing = (self', Ok tt)
    ∧ _queue_items self' !! "player1" = Some []
    ∧ PlayerQueue.current_index <$> _queues self' !! "player1" = Some None.
Proof.
  destruct (clear_leaves_an_empty_queue (example_mass None [] [])
              example_playing "player1" _ eq_refl)
    as (self' & queue' & Hrun & Hitems & Hq & _ & Hindex & _).
  exists self'. split; [exact Hrun|]. split; [exact Hitems|].
  rewrite Hq. simpl. rewrite Hindex. reflexivity.
Defined.


(** Moving d one place up in a, b, c, d keeps the four items. *)
Lemma move_item_on_example :
  ∃ queue_items' : list loc,
    _queue_items (move_item "player1" "d" (-1) example_playing).1
    !! "player1"
    = Some queue_items'
    ∧ queue_items' ≡ₚ [0; 1; 2; 3]%nat.
Proof.
  destruct (move_item_keeps_the_items example_playing _ "player1" _
              [0; 1; 2; 3]%nat "d" (-1) _ eq_refl eq_refl
              (surjective_pairing _))
    as (queue_items' & Hitems & Hperm & _).
  exists queue_items'. split; [exact Hitems|exact Hperm].
Defined.


(** ** Resolving media *)

(** Of the tracks t1, t2, t3, t4 with t2 unavailable, the tracks from t3
    on are the same for an album and for a playlist. *)
Lemma album_and_playlist_tracks_on_example :
  ∃ result : list MediaItem.t,
    (get_album_tracks (example_album_mass example_album_tracks)
       (example_track "album") (Some "t3") example_playing).2
    = Ok result
    ∧ (get_playlist_tracks (example_album_mass example_album_tracks)
         (example_track "album") (Some "t3") example_playing).2
      = Ok result.
Proof.
  destruct (album_and_playlist_tracks_start_at_the_start_item
              (example_album_mass example_album_tracks) example_playing
              (example_track "album") (Some "t3") example_album_tracks
              (λ _, eq_refl) eq_refl)
    as (result & Halbum & Hplaylist & _).
  exists result. split; [exact Halbum|exact Hplaylist].
Defined.

(** ** Refilling a radio queue *)

(** A refill of the empty radio queue on the source seed adds new items. *)
Lemma fill_radio_tracks_on_example :
  ∃ new_items : list loc,
    _queue_items
      (_fill_radio_tracks (example_mass None [] ["s1"; "s2"; "b1"])
         "player1" (example_radio_controller [example_track "seed"] [])).1
    !! "player1"
    = Some ([] ++ new_items)
    ∧ Py.len new_items ≤ 25
    ∧ NoDup new_items.
Proof.
  destruct (fill_radio_tracks_adds_to_the_end
              (example_mass None [] ["s1"; "s2"; "b1"])
              (example_radio_controller [example_track "seed"] [])
              "player1" _ [] eq_refl eq_refl)
    as [Hfill _].
  destruct (Hfill _ ltac:(vm_compute; reflexivity))
    as (new_items & Hitems & Hlen & Hnodup & _).
  exists new_items. split; [exact Hitems|]. split; [exact Hlen|exact Hnodup].
Defined.

(** The refill of the radio queue on the source seed, where s1, s2 and
    the base track b1 are similar to every track, gives s1 and s2. *)
Lemma radio_refill_on_example :
  (_get_radio_tracks (example_mass None [] ["s1"; "s2"; "b1"]) "player1"
     false (example_radio_controller [example_track "seed"] [])).2
  = Ok (Some [example_track "s1"; example_track "s2"])
  ∧ ∃ base_tracks : list MediaItem.t,
      Py.len base_tracks ≤ 5
      ∧ ∀ t, t ∈ [example_track "s1"; example_track "s2"] →
          MediaItem.duration t ≤ RADIO_TRACK_MAX_DURATION_SECS
          ∧ MediaItem.mem t base_tracks = false.
Proof.
  split; [vm_compute; reflexivity|].
  destruct (radio_refill_gives_short_similar_tracks
              (example_mass None [] ["s1"; "s2"; "b1"])
              (example_radio_controller [example_track "seed"] [])
              (_get_radio_tracks (example_mass None [] ["s1"; "s2"; "b1"])
                 "player1" false
                 (example_radio_controller [example_track "seed"] [])).1
              "player1" [example_track "s1"; example_track "s2"]
              (λ _ _ H, H) ltac:(vm_compute; reflexivity))
    as (_ & _ & _ & base_tracks & Hlen & Htracks).
  exists base_tracks. split; [exact Hlen|].
  intros t Ht. destruct (Htracks t Ht) as (Hduration & Hbase & _).
  split; assumption.
Defined.

(** ** Transfer *)

(** The items a, b, c, d move from the first queue to the second. *)
Lemma transfer_queue_on_example :
  ∃ self' : Controller,
    transfer_queue (example_mass None [] []) "player1" "player2"
      (Some false) example_two_queues
    = (self', Ok tt)
    ∧ _queue_items self' !! "player1" = Some []
    ∧ _queue_items self' !! "player2" = Some [0; 1; 2; 3]%nat.
Proof.
  destruct (transfer_queue_moves_the_items (example_mass None [] [])
              example_two_queues "player1" "player2" _ _
              [0; 1; 2; 3]%nat [] _ ltac:(discriminate)
              eq_refl eq_refl eq_refl eq_refl eq_refl)
    as (self' & source_queue' & target_queue' & Hrun & Hsource & Htarget
        & _).
  exists self'. split; [exact Hrun|]. split; [exact Hsource|exact Htarget].
Defined.

(** ** Shuffle, once more *)

(** Enabling shuffle on a, b, c, d while a plays keeps a and permutes b,
    c, d. *)
Lemma enabling_shuffle_on_example :
  ∃ (self' : Controller) (remaining : list loc),
    set_shuffle "player1" true
      (example_controller (example_queue (Some 0) (Some 0) false [])
         [0; 1; 2; 3]%nat [2; 0; 1]%nat)
    = (self', Ok tt)
    ∧ _queue_items self' !! "player1"
      = Some (take (Z.to_nat (0 + 1)) [0; 1; 2; 3]%nat ++ remaining)
    ∧ remaining ≡ₚ drop (Z.to_nat (0 + 1)) [0; 1; 2; 3]%nat.
Proof.
  destruct (enabling_shuffle_permutes_the_remaining_items
              (example_controller (example_queue (Some 0) (Some 0) false [])
                 [0; 1; 2; 3]%nat [2; 0; 1]%nat)
              "player1" _ [0; 1; 2; 3]%nat 0
              eq_refl eq_refl eq_refl eq_refl ltac:(lia))
    as (self' & remaining & Hrun & Hitems & Hperm & _).
  exists self', remaining.
  split; [exact Hrun|]. split; [exact Hitems|exact Hperm].
Defined.

(** Enabling shuffle on a queue that has no position yet drops a, b, c,
    d. *)
Lemma set_shuffle_without_a_position_on_example :
  ∃ self' : Controller,
    set_shuffle "player1" true
      (example_controller (example_queue None None false [])
         [0; 1; 2; 3]%nat [])
    = (self', Ok tt)
    ∧ _queue_items self' !! "player1" = Some []
    ∧ PlayerQueue.items <$> _queues self' !! "player1" = Some 0.
Proof.
  exact (set_shuffle_without_a_position_empties_the_queue
           (example_controller (example_queue None None false [])
              [0; 1; 2; 3]%nat [])
           "player1" _ [0; 1; 2; 3]%nat true
           eq_refl eq_refl eq_refl eq_refl eq_refl).
Defined.

(** Enabling and then disabling shuffle on a, b, c, d while a plays gives
    a, b, c, d again. *)
Lemma shuffle_round_trip_on_example :
  ∃ self1 self2 : Controller,
    set_shuffle "player1" true
      (example_controller (example_queue (Some 0) (Some 0) false [])
         [0; 1; 2; 3]%nat [2; 0; 1]%nat)
    = (self1, Ok tt)
    ∧ set_shuffle "player1" false self1 = (self2, Ok tt)
    ∧ _queue_items self2 !! "player1" = Some [0; 1; 2; 3]%nat.
Proof.
  refine (shuffle_round_trip
            (example_controller (example_queue (Some 0) (Some 0) false [])
               [0; 1; 2; 3]%nat [2; 0; 1]%nat)
            "player1" _ [0; 1; 2; 3]%nat 0
            eq_refl eq_refl eq_refl eq_refl ltac:(lia) _ _).
  - apply (bool_decide_unpack _). vm_compute. exact I.
  - unfold ascending. simpl.
    repeat first [apply SSorted_nil | apply SSorted_cons
                 | apply List.Forall_nil | apply List.Forall_cons];
      vm_compute; discriminate.
Defined.
